(** * cfg/config_files.go: bootstrap and migration of the wtf configuration store

    A shallow embedding of [cfg/config_files.go] (package [cfg] of wtf).

    - Go strings are byte strings: [string] of the Standard Library.
    - A Go function returning [(string, error)] returns a pair whose second
      component is an [option error] ([None] is Go's [nil]); both components
      are kept, because the callers that write [x, _ := f()] go on with the
      first one.
    - The operating system is a state ([World]): a directory tree, a working
      directory, a umask, a schedule of injected failures for the calls that
      modify the tree, and the lines written to standard output.
    - Code that can call [os.Exit] or [panic] runs in the monad [M]. *)

From Stdlib Require Import String Ascii List Bool Arith ZArith NArith Lia.
Import ListNotations.
Open Scope string_scope.
Open Scope list_scope.

Set Implicit Arguments.

(* ================================================================== *)
(** * Errors *)

Inductive Errno : Type :=
| ENOENT | EEXIST | ENOTDIR | EISDIR | EACCES | ENOSPC | EIO | EBUSY.

(** The values of Go's [error] interface that reach this package. *)
Inductive error : Type :=
| errorString (s : string)                          (* errors.New(s) *)
| PathError (Op : string) (Path : string) (Err : Errno). (* *os.PathError *)

Definition errors_New (text : string) : error := errorString text.

(** [os.IsNotExist]: the underlying error is ENOENT. *)
Definition os_IsNotExist (err : option error) : bool :=
  match err with
  | Some (PathError _ _ ENOENT) => true
  | _ => false
  end.

(* ================================================================== *)
(** * path/filepath on Unix ([Separator] is the slash) *)

Definition Separator : ascii := "/"%char.

Definition IsPathSeparator (c : ascii) : bool := Ascii.eqb c Separator.

(** [r == n || os.IsPathSeparator(path[r])], on the unread part of the path. *)
Definition endOrSep (s : string) : bool :=
  match s with
  | EmptyString => true
  | String c _ => IsPathSeparator c
  end.

(** The output buffer of [Clean] ([lazybuf]) is kept as the list of the [w]
    bytes written so far, last byte first: [append] is a cons, [out.w--]
    drops the head, [out.w] is the length. *)
Definition lazybuf := list ascii.

(** [for out.w > dotdot && !os.IsPathSeparator(out.index(out.w)) { out.w-- }]
    where [cur] is the byte at index [out.w]. *)
Fixpoint backtrack (cur : ascii) (out : lazybuf) (dotdot : nat) {struct out}
  : lazybuf :=
  match out with
  | [] => []
  | b :: out' =>
      if Nat.ltb dotdot (List.length out) && negb (IsPathSeparator cur)
      then backtrack b out' dotdot
      else out
  end.

(** [for ; r < n && !os.IsPathSeparator(path[r]); r++ { out.append(path[r]) }] *)
Fixpoint copyElement (s : string) (out : lazybuf) : string * lazybuf :=
  match s with
  | EmptyString => (s, out)
  | String c s' =>
      if IsPathSeparator c then (s, out) else copyElement s' (c :: out)
  end.

(** One round of the main loop of [Clean], the [switch]: [c] is [path[r]]
    and [s1] is [path[r+1:]]; the result is the unread part of the path, the
    buffer and [dotdot] after the round. *)
Definition cleanStep (rooted : bool) (c : ascii) (s1 : string) (out : lazybuf)
    (dotdot : nat) : string * lazybuf * nat :=
  if IsPathSeparator c then
    (* empty path element *)
    (s1, out, dotdot)
  else if Ascii.eqb c "." && endOrSep s1 then
    (* . element *)
    (s1, out, dotdot)
  else if Ascii.eqb c "." &&
          match s1 with
          | String c1 s2 => Ascii.eqb c1 "." && endOrSep s2
          | EmptyString => false
          end then
    (* .. element: remove to last separator *)
    let s2 := match s1 with String _ s2 => s2 | EmptyString => s1 end in
    if Nat.ltb dotdot (List.length out) then
      (* can backtrack *)
      match out with
      | b :: out' => (s2, backtrack b out' dotdot, dotdot)
      | [] => (s2, out, dotdot)
      end
    else if negb rooted then
      (* cannot backtrack, but not rooted, so append .. element *)
      let out1 := if Nat.ltb 0 (List.length out) then Separator :: out else out in
      let out2 := "."%char :: "."%char :: out1 in
      (s2, out2, List.length out2)
    else (s2, out, dotdot)
  else
    (* real path element: add slash if needed, copy element *)
    let out1 :=
      if (rooted && negb (Nat.eqb (List.length out) 1)) ||
         (negb rooted && negb (Nat.eqb (List.length out) 0))
      then Separator :: out else out in
    let '(s', out2) := copyElement (String c s1) out1 in
    (s', out2, dotdot).

(** The main loop of [Clean], [for r < n]: [s] is [path[r:]]. Every round
    consumes at least one byte, so [fuel] = [len(path)] rounds are enough
    ([cleanLoop_fuel]). *)
Fixpoint cleanLoop (fuel : nat) (rooted : bool) (s : string) (out : lazybuf)
    (dotdot : nat) : lazybuf :=
  match fuel with
  | O => out
  | S fuel' =>
      match s with
      | EmptyString => out
      | String c s1 =>
          let '(s', out', dotdot') := cleanStep rooted c s1 out dotdot in
          cleanLoop fuel' rooted s' out' dotdot'
      end
  end.

Fixpoint string_of_list (l : list ascii) : string :=
  match l with
  | [] => EmptyString
  | c :: l' => String c (string_of_list l')
  end.

(** [filepath.Clean] (no volume names on Unix). *)
Definition Clean (path : string) : string :=
  match path with
  | EmptyString => "."
  | String c0 rest =>
      let rooted := IsPathSeparator c0 in
      let out :=
        if rooted
        then cleanLoop (String.length path) rooted rest [Separator] 1
        else cleanLoop (String.length path) rooted path [] 0 in
      match out with
      | [] => "."
      | _ => string_of_list (rev out)
      end
  end.

(** [strings.Join(elems, sep)] *)
Fixpoint strings_Join (elems : list string) (sep : string) : string :=
  match elems with
  | [] => ""
  | [e] => e
  | e :: rest => (e ++ sep ++ strings_Join rest sep)%string
  end.

(** [filepath.Join]: the elements from the first non-empty one on, joined
    with the separator and cleaned; the empty string if all are empty. *)
Fixpoint Join (elem : list string) : string :=
  match elem with
  | [] => ""
  | e :: rest =>
      if String.eqb e "" then Join rest
      else Clean (strings_Join elem (String Separator EmptyString))
  end.

(* ================================================================== *)
(** * The environment: os/user *)

Record User := { HomeDir : string }.

(** What [user.Current()] returns for the executing user. *)
Record Env := { user_Current : User + error }.

Definition env_u : Env := {| user_Current := inl {| HomeDir := "/home/u" |} |}.

(** An environment where the current user cannot be looked up. *)
Definition env_none : Env :=
  {| user_Current := inr (errorString "user: Current not implemented") |}.

(* ================================================================== *)
(** * Constants of the package *)

(** XdgConfigDir defines the path to the minimal XDG-compatible configuration directory *)
Definition XdgConfigDir : string := "~/.config/".

(** WtfConfigDirV1 defines the path to the first version of configuration. *)
Definition WtfConfigDirV1 : string := "~/.wtf/".

(** WtfConfigDirV2 defines the path to the second version of the configuration. *)
Definition WtfConfigDirV2 : string := "~/.config/wtf/".

(* ================================================================== *)
(** * Home-directory expansion *)

(** [home] returns the home directory for the executing user. *)
Definition home (env : Env) : string * option error :=
  match user_Current env with
  | inr err => ("", Some err)
  | inl currentUser =>
      if String.eqb (HomeDir currentUser) ""
      then ("", Some (errors_New "cannot find user-specific home dir"))
      else (HomeDir currentUser, None)
  end.

(** [expandHomeDir], with the [filepath.Join] of the platform it is built
    for: [len(path) == 0] is the empty string, [path[0]] its first byte,
    [path[1]] the second one and [path[1:]] what follows the first. *)
Definition expandHomeDirOn (filepath_Join : list string -> string)
    (env : Env) (path : string) : string * option error :=
  match path with
  | EmptyString => (path, None)
  | String p0 rest =>
      if negb (Ascii.eqb p0 "~") then (path, None)
      else
        if match rest with
           | String p1 _ => negb (Ascii.eqb p1 "/") && negb (Ascii.eqb p1 "\")
           | EmptyString => false
           end
        then ("", Some (errors_New "cannot expand user-specific home dir"))
        else
          match home env with
          | (_, Some err) => ("", Some err)
          | (dir, None) => (filepath_Join [dir; rest], None)
          end
  end.

(** The program on Unix. *)
Definition expandHomeDir : Env -> string -> string * option error :=
  expandHomeDirOn Join.

(** The two failures of path resolution. *)
Definition MalformedPath (err : error) : Prop :=
  err = errors_New "cannot expand user-specific home dir".

Definition HomeDirUnavailable (env : Env) (err : error) : Prop :=
  user_Current env = inr err \/
  err = errors_New "cannot find user-specific home dir".

(** WtfConfigDir returns the absolute path to the configuration directory *)
Definition WtfConfigDir (env : Env) : string * option error :=
  match expandHomeDir env WtfConfigDirV2 with
  | (_, Some err) => ("", Some err)
  | (configDir, None) => (configDir, None)
  end.

(* ================================================================== *)
(** * The file tree *)

(** A node is a regular file (permission bits and bytes) or a directory
    (permission bits and entries, in directory order). Symbolic links and
    special files are not modelled. *)
#[warnings="-register-all"] Inductive node : Type :=
| File (mode : N) (data : string)
| Dir (mode : N) (entries : list (string * node)).

(** A place in the tree: the names from the root down. *)
Definition key := list string.

Fixpoint lookup_entry (n : string) (es : list (string * node)) : option node :=
  match es with
  | [] => None
  | (n', c) :: es' => if String.eqb n' n then Some c else lookup_entry n es'
  end.

(** Replace the entry called [n], or add it at the end. *)
Fixpoint set_entry (n : string) (c : node) (es : list (string * node))
  : list (string * node) :=
  match es with
  | [] => [(n, c)]
  | (n', c') :: es' =>
      if String.eqb n' n then (n, c) :: es' else (n', c') :: set_entry n c es'
  end.

Definition del_entry (n : string) (es : list (string * node))
  : list (string * node) :=
  filter (fun e => negb (String.eqb (fst e) n)) es.

(** The node at [k], or why there is none. *)
Fixpoint find (t : node) (k : key) : Errno + node :=
  match k with
  | [] => inr t
  | n :: k' =>
      match t with
      | File _ _ => inl ENOTDIR
      | Dir _ es =>
          match lookup_entry n es with
          | None => inl ENOENT
          | Some c => find c k'
          end
      end
  end.

(** Put [new] at [k]: the parent of [k] must be a directory; what was at [k]
    is replaced. *)
Fixpoint put (t : node) (k : key) (new : node) : Errno + node :=
  match k with
  | [] => inr new
  | n :: k' =>
      match t with
      | File _ _ => inl ENOTDIR
      | Dir m es =>
          match lookup_entry n es with
          | Some c =>
              match put c k' new with
              | inl e => inl e
              | inr c' => inr (Dir m (set_entry n c' es))
              end
          | None =>
              match k' with
              | [] => inr (Dir m (set_entry n new es))
              | _ :: _ => inl ENOENT
              end
          end
      end
  end.

(** Make the directory [k] and the missing directories above it, all with
    permission bits [m]; directories that exist are left as they are. *)
Fixpoint mkdirAll (t : node) (k : key) (m : N) : Errno + node :=
  match t with
  | File _ _ => inl ENOTDIR
  | Dir m0 es =>
      match k with
      | [] => inr t
      | n :: k' =>
          match mkdirAll (match lookup_entry n es with
                          | Some c => c
                          | None => Dir m []
                          end) k' m with
          | inl e => inl e
          | inr c' => inr (Dir m0 (set_entry n c' es))
          end
      end
  end.

(** Take [k] and everything below it out of the tree; nothing happens when
    there is no [k]. The root itself stays. *)
Fixpoint remove (t : node) (k : key) : node :=
  match k with
  | [] => t
  | n :: k' =>
      match t with
      | File _ _ => t
      | Dir m es =>
          match k' with
          | [] => Dir m (del_entry n es)
          | _ :: _ =>
              match lookup_entry n es with
              | None => t
              | Some c => Dir m (set_entry n (remove c k') es)
              end
          end
      end
  end.

(** No directory lists a name twice. *)
Fixpoint nodupb (l : list string) : bool :=
  match l with
  | [] => true
  | x :: l' => negb (existsb (String.eqb x) l') && nodupb l'
  end.

Fixpoint wf (t : node) : bool :=
  match t with
  | File _ _ => true
  | Dir _ es => nodupb (map fst es) && forallb (fun e => wf (snd e)) es
  end.

(* ================================================================== *)
(** * Path names *)

(** The elements of a path name between its slashes. *)
Fixpoint splitElements (s : string) : string * list string :=
  match s with
  | EmptyString => (EmptyString, [])
  | String c s' =>
      let '(e, es) := splitElements s' in
      if IsPathSeparator c then (EmptyString, e :: es) else (String c e, es)
  end.

Definition elements (s : string) : list string :=
  let '(e, es) := splitElements s in e :: es.

(** Follow the elements from the place [rk] (innermost name first): empty
    elements and [.] stay, [..] goes up (and stays at the root). *)
Fixpoint walk (rk : list string) (els : list string) : list string :=
  match els with
  | [] => rk
  | e :: els' =>
      if String.eqb e "" || String.eqb e "." then walk rk els'
      else if String.eqb e ".." then walk (tl rk) els'
      else walk (e :: rk) els'
  end.

(** The place a path name denotes, from the working directory [cwd] when the
    name is relative. The empty name denotes nothing (ENOENT). *)
Definition key_of (cwd : key) (name : string) : option key :=
  match name with
  | EmptyString => None
  | String c _ =>
      Some (rev (walk (if IsPathSeparator c then [] else rev cwd)
                      (elements name)))
  end.

(* ================================================================== *)
(** * The world and the monad of the program *)

(** What the program writes to standard output: one value per call of a
    display function of the package or of [fmt.Println]. *)
Inductive Output : Type :=
| XdgConfigDirCreateError (err : error)  (* displayXdgConfigDirCreateError(err) *)
| WtfConfigDirCreateError (err : error)  (* displayWtfConfigDirCreateError(err) *)
| Println (err : error).                 (* fmt.Println(err) *)

Record World := {
  root : node;                    (* the file tree *)
  cwd : key;                      (* the working directory *)
  umask : N;                      (* the file mode creation mask *)
  dirSize : Z;                    (* FileInfo.Size() of a directory *)
  faults : list (option Errno);   (* failures the system will inject *)
  stdout : list Output            (* written so far, oldest first *)
}.

Definition with_root (w : World) (r : node) : World :=
  {| root := r; cwd := cwd w; umask := umask w; dirSize := dirSize w;
     faults := faults w; stdout := stdout w |}.

Definition with_faults (w : World) (f : list (option Errno)) : World :=
  {| root := root w; cwd := cwd w; umask := umask w; dirSize := dirSize w;
     faults := f; stdout := stdout w |}.

Definition with_stdout (w : World) (o : list Output) : World :=
  {| root := root w; cwd := cwd w; umask := umask w; dirSize := dirSize w;
     faults := faults w; stdout := o |}.

(** How a run ends when it does not return. *)
Inductive Abort : Type :=
| Exited (code : Z)              (* os.Exit(code) *)
| Panicked (v : option error)    (* panic(v), v an error value, maybe nil *)
| NilDereference.                (* method call through a nil pointer *)

Definition M (A : Type) : Type := World -> (A + Abort) * World.

Definition ret {A : Type} (a : A) : M A := fun w => (inl a, w).

Definition bind {A B : Type} (m : M A) (f : A -> M B) : M B :=
  fun w =>
    match m w with
    | (inl a, w') => f a w'
    | (inr ab, w') => (inr ab, w')
    end.

Definition abort {A : Type} (ab : Abort) : M A := fun w => (inr ab, w).

Declare Scope go_scope.
Delimit Scope go_scope with go.
Notation "x <- m ;; f" := (bind m (fun x => f))
  (at level 61, m at next level, right associativity) : go_scope.
Notation "' p <- m ;; f" := (bind m (fun x => let 'p := x in f))
  (at level 61, p pattern, m at next level, right associativity) : go_scope.
Notation "m ;; f" := (bind m (fun _ => f))
  (at level 61, right associativity) : go_scope.
Open Scope go_scope.

Definition os_Exit {A : Type} (code : Z) : M A := abort (Exited code).
Definition panic {A : Type} (v : option error) : M A := abort (Panicked v).

Definition is_nil (err : option error) : bool :=
  match err with None => true | Some _ => false end.

Definition print (o : Output) : M unit :=
  fun w => (inl tt, with_stdout w (stdout w ++ [o])).

(** The next decision of the system on a call that modifies the tree: fail
    with an error of its own, or go by the state of the tree. *)
Definition injected : M (option Errno) :=
  fun w => (inl (hd None (faults w)), with_faults w (tl (faults w))).

(* ================================================================== *)
(** * Package os *)

Record FileInfo := { Size : Z; Mode : N; IsDir : bool }.

Definition info_of (w : World) (n : node) : FileInfo :=
  match n with
  | File m d => {| Size := Z.of_nat (String.length d); Mode := m; IsDir := false |}
  | Dir m _ => {| Size := dirSize w; Mode := m; IsDir := true |}
  end.

Definition os_ModePerm : N := 511. (* 0777 *)

(** The node a name denotes in [w]. *)
Definition node_at (w : World) (name : string) : Errno + node :=
  match key_of (cwd w) name with
  | None => inl ENOENT
  | Some k => find (root w) k
  end.

(** [os.Stat]: reads the tree, never changes the world. *)
Definition os_Stat (name : string) : M (option FileInfo * option error) :=
  fun w =>
    match node_at w name with
    | inl e => (inl (None, Some (PathError "stat" name e)), w)
    | inr n => (inl (Some (info_of w n), None), w)
    end.

(** Run a change of the tree. The empty name is refused at once; otherwise
    the system may inject a failure, and if it does not, the call goes by the
    state of the tree. *)
Definition modify (op name : string) (f : World -> key -> Errno + node)
  : M (option error) :=
  fun w =>
    match key_of (cwd w) name with
    | None => (inl (Some (PathError op name ENOENT)), w)
    | Some k =>
        (inj <- injected ;;
         match inj with
         | Some e => ret (Some (PathError op name e))
         | None =>
             fun w' =>
               match f w' k with
               | inl e => (inl (Some (PathError op name e)), w')
               | inr r => (inl None, with_root w' r)
               end
         end) w
    end.

(** [os.Mkdir]: the directory must not exist, its parent must. *)
Definition os_Mkdir (name : string) (perm : N) : M (option error) :=
  modify "mkdir" name (fun w k =>
    match find (root w) k with
    | inr _ => inl EEXIST
    | inl ENOENT => put (root w) k (Dir (N.ldiff perm (umask w)) [])
    | inl e => inl e
    end).

(** Open with O_CREATE|O_TRUNC and write [data]: a file that exists keeps its
    mode and gets the new content. *)
Definition create_trunc (perm : N) (data : string) (w : World) (k : key)
  : Errno + node :=
  match find (root w) k with
  | inr (Dir _ _) => inl EISDIR
  | inr (File m _) => put (root w) k (File m data)
  | inl ENOENT => put (root w) k (File (N.ldiff perm (umask w)) data)
  | inl e => inl e
  end.

(** [os.Create] (the file handle it returns is dropped by the program). *)
Definition os_Create (name : string) : M (option error) :=
  modify "open" name (create_trunc 438 ""). (* 0666 *)

(** [ioutil.WriteFile] *)
Definition ioutil_WriteFile (filename : string) (data : string) (perm : N)
  : M (option error) :=
  modify "open" filename (create_trunc perm data).

(** [os.RemoveAll]: no error when the path is empty or does not exist. *)
Definition os_RemoveAll (path : string) : M (option error) :=
  match path with
  | EmptyString => ret None
  | _ =>
      modify "unlinkat" path (fun w k =>
        match k with
        | [] => inl EBUSY
        | _ =>
            match find (root w) k with
            | inl ENOENT => inr (root w)
            | inl e => inl e
            | inr _ => inr (remove (root w) k)
            end
        end)
  end.

(* ================================================================== *)
(** * The recursive copier *)

Fixpoint render (k : key) : string :=
  match k with
  | [] => ""
  | n :: k' => ("/" ++ n ++ render k')%string
  end.

(** One step of the copier at the place [k], unless the system injects a
    failure. *)
Definition copy_step (k : key) (f : node -> Errno + node) : M (option error) :=
  inj <- injected ;;
  match inj with
  | Some e => ret (Some (PathError "copy" (render k) e))
  | None =>
      fun w =>
        match f (root w) with
        | inl e => (inl (Some (PathError "copy" (render k) e)), w)
        | inr r => (inl None, with_root w r)
        end
  end.

(** The entries of a directory, copied one after the other under [dest],
    up to the first that fails. *)
Definition copyEntries (copy : node -> key -> M (option error)) (dest : key)
  : list (string * node) -> M (option error) :=
  fix entries (l : list (string * node)) : M (option error) :=
    match l with
    | [] => ret None
    | (n, c) :: l' =>
        err <- copy c (dest ++ [n]) ;;
        if negb (is_nil err) then ret err else entries l'
    end.

(** Modelled from the spec: the recursive copier [Copy] of the package
    (cfg/copy.go), which is not among the sources. Spec 4.5: a regular file
    is copied with its bytes and permission bits, all or nothing; for a
    directory, [dst] is created with the same permission bits and every entry
    is copied recursively, in directory order, stopping at the first entry
    that fails and leaving what was copied so far. The spec does not say
    what happens to missing directories above [dst]: they are created here.
    The theorems on the migration do not rest on that choice: where one
    states that the copy succeeds, the directory above [dst] is there.
    The entries copied are those the source had when its copy began. *)
Fixpoint copy (t : node) (dest : key) : M (option error) :=
  match t with
  | File m d =>
      copy_step dest (fun r =>
        match find r dest with
        | inr (Dir _ _) => inl EISDIR
        | inr (File _ _) | inl ENOENT => put r dest (File m d)
        | inl e => inl e
        end)
  | Dir m es =>
      err <- copy_step dest (fun r => mkdirAll r dest m) ;;
      if negb (is_nil err) then ret err
      else copyEntries copy dest es
  end.

(** Modelled from the spec: the entry point of the copier, which fails when
    [src] cannot be read. *)
Definition Copy (src dest : string) : M (option error) :=
  fun w =>
    match node_at w src with
    | inl e => (inl (Some (PathError "lstat" src e)), w)
    | inr t =>
        match key_of (cwd w) dest with
        | None => (inl (Some (PathError "copy" dest ENOENT)), w)
        | Some k => copy t k w
        end
    end.

(* ================================================================== *)
(** * The program *)

Definition fmt_Println (err : error) : M unit := print (Println err).

Definition displayXdgConfigDirCreateError (err : error) : M unit :=
  print (XdgConfigDirCreateError err).

Definition displayWtfConfigDirCreateError (err : error) : M unit :=
  print (WtfConfigDirCreateError err).

(** Directory-ensure as the specification words it, on a path taken as it
    is given: create the directory if it is not there, report and exit if
    that fails. *)
Definition ensureDir (report : error -> M unit) (dirPath : string) : M unit :=
  '(_, err) <- os_Stat dirPath ;;
  if os_IsNotExist err then
    err <- os_Mkdir dirPath os_ModePerm ;;
    match err with
    | Some e => report e ;; os_Exit 1
    | None => ret tt
    end
  else ret tt.

Section Program.

(** The default content of config.yml, a constant of the package defined
    outside this file. *)
Variable defaultConfigFile : string.

Variable env : Env.

(** CreateFile creates the named file in the config directory, if it does not
    already exist. *)
Definition CreateFile (fileName : string) : M (string * option error) :=
  let '(configDir, err) := WtfConfigDir env in
  if negb (is_nil err) then ret ("", err)
  else
    let filePath := (configDir ++ "/" ++ fileName)%string in (* fmt.Sprintf("%s/%s", ..) *)
    (* Check if the file already exists; if it does not, create it *)
    '(_, err) <- os_Stat filePath ;;
    if negb (is_nil err) then
      if os_IsNotExist err then
        err <- os_Create filePath ;;
        if negb (is_nil err) then ret ("", err) else ret (filePath, None)
      else ret ("", err)
    else ret (filePath, None).

(** createXdgConfigDir creates the necessary base directory for storing the
    config file. *)
Definition createXdgConfigDir : M unit :=
  let '(xdgConfigDir, _) := expandHomeDir env XdgConfigDir in
  '(_, err) <- os_Stat xdgConfigDir ;;
  if os_IsNotExist err then
    err <- os_Mkdir xdgConfigDir os_ModePerm ;;
    match err with
    | Some e => displayXdgConfigDirCreateError e ;; os_Exit 1
    | None => ret tt
    end
  else ret tt.

(** createWtfConfigDir creates the necessary directories for storing the
    default config file. *)
Definition createWtfConfigDir : M unit :=
  let '(wtfConfigDir, _) := WtfConfigDir env in
  '(_, err) <- os_Stat wtfConfigDir ;;
  if os_IsNotExist err then
    err <- os_Mkdir wtfConfigDir os_ModePerm ;;
    match err with
    | Some e => displayWtfConfigDirCreateError e ;; os_Exit 1
    | None => ret tt
    end
  else ret tt.

(** createWtfConfigFile creates a simple config file in the config directory
    if one does not already exist. *)
Definition createWtfConfigFile : M unit :=
  '(filePath, err) <- CreateFile "config.yml" ;;
  if negb (is_nil err) then panic err
  else
    (* If the file is empty, write to it *)
    '(file, _) <- os_Stat filePath ;;
    match file with
    | None => abort NilDereference
    | Some fi =>
        if (Size fi =? 0)%Z then
          werr <- ioutil_WriteFile filePath defaultConfigFile 420 ;; (* 0644 *)
          if negb (is_nil werr) then panic err else ret tt
        else ret tt
    end.

(** migrateOldConfig copies any existing configuration from the old location
    to the new, XDG-compatible location. *)
Definition migrateOldConfig : M unit :=
  let '(srcDir, _) := expandHomeDir env WtfConfigDirV1 in
  let '(destDir, _) := expandHomeDir env WtfConfigDirV2 in
  (* If the old config directory doesn't exist, do not move *)
  '(_, err) <- os_Stat srcDir ;;
  if os_IsNotExist err then ret tt
  else
    (* If the new config directory already exists, do not move *)
    '(_, err) <- os_Stat destDir ;;
    if is_nil err then ret tt
    else
      (* Time to move *)
      err <- Copy srcDir destDir ;;
      if negb (is_nil err) then panic err
      else
        (* Delete the old directory if the new one exists *)
        '(_, err) <- os_Stat destDir ;;
        if is_nil err then
          err <- os_RemoveAll srcDir ;;
          match err with
          | Some e => fmt_Println e
          | None => ret tt
          end
        else ret tt.

(** Initialize takes care of settings up the initial state of WTF
    configuration. *)
Definition Initialize : M unit :=
  migrateOldConfig ;;
  createXdgConfigDir ;;
  createWtfConfigDir ;;
  createWtfConfigFile.

End Program.

(* ================================================================== *)
(** * Loading the configuration file *)

(** [ioutil.ReadFile]: the bytes of a regular file. It reads the tree and
    never changes the world. *)
Definition ioutil_ReadFile (filename : string) : M (string * option error) :=
  fun w =>
    match node_at w filename with
    | inl e => (inl ("", Some (PathError "open" filename e)), w)
    | inr (Dir _ _) => (inl ("", Some (PathError "read" filename EISDIR)), w)
    | inr (File _ d) => (inl (d, None), w)
    end.

(** What the two display functions of a load error write: one value per
    call. *)
Inductive LoadOutput : Type :=
| WtfConfigFileLoadError (err : error)        (* displayWtfConfigFileLoadError(err) *)
| WtfCustomConfigFileLoadError (err : error). (* displayWtfCustomConfigFileLoadError(err) *)

(** The monad of [LoadWtfConfigFile]: the world, and beside it what the
    display functions of a load error have written. *)
Definition ML (A : Type) : Type :=
  World * list LoadOutput -> (A + Abort) * (World * list LoadOutput).

Definition retL {A : Type} (a : A) : ML A := fun s => (inl a, s).

Definition bindL {A B : Type} (m : ML A) (f : A -> ML B) : ML B :=
  fun s =>
    match m s with
    | (inl a, s') => f a s'
    | (inr ab, s') => (inr ab, s')
    end.

(** A computation on the world alone. *)
Definition liftM {A : Type} (m : M A) : ML A :=
  fun s => let '(r, w') := m (fst s) in (r, (w', snd s)).

Definition printL (o : LoadOutput) : ML unit :=
  fun s => (inl tt, (fst s, snd s ++ [o])).

Definition displayWtfConfigFileLoadError (err : error) : ML unit :=
  printL (WtfConfigFileLoadError err).

Definition displayWtfCustomConfigFileLoadError (err : error) : ML unit :=
  printL (WtfCustomConfigFileLoadError err).

Section Loading.

(** The configuration object of the YAML library, and its parser of a
    document ([config.ParseYaml]), which are outside this package. *)
Variable Config : Type.
Variable config_ParseYaml : string -> option Config * option error.

Variable env : Env.

(** [config.ParseYamlFile]: read the file, parse its content. *)
Definition config_ParseYamlFile (filename : string)
  : M (option Config * option error) :=
  '(cfg, err) <- ioutil_ReadFile filename ;;
  if negb (is_nil err) then ret (None, err)
  else ret (config_ParseYaml cfg).

(** LoadWtfConfigFile loads the config.yml file to configure the app *)
Definition LoadWtfConfigFile (filePath : string) (isCustomConfig : bool)
  : ML (option Config) :=
  let '(absPath, _) := expandHomeDir env filePath in
  bindL (liftM (config_ParseYamlFile absPath)) (fun r =>
    let '(cfg, err) := r in
    match err with
    | Some e =>
        bindL (if isCustomConfig
               then displayWtfCustomConfigFileLoadError e
               else displayWtfConfigFileLoadError e)
              (fun _ => liftM (os_Exit 1))
    | None => retL cfg
    end).

End Loading.

(* ================================================================== *)
(** * Some worlds *)

Definition world_of (r : node) (f : list (option Errno)) : World :=
  {| root := r; cwd := []; umask := 18; dirSize := 4096; faults := f;
     stdout := [] |}.

Definition legacy_tree : node :=
  Dir 448 [("settings.txt", File 420 "abc");
           ("modules", Dir 493 [("clock.yml", File 384 "utc")])].

(** Both configuration directories exist; the current one is empty. *)
Definition w_both : World :=
  world_of (Dir 493 [("home", Dir 493 [("u", Dir 493
     [(".wtf", legacy_tree); (".config", Dir 493 [("wtf", Dir 493 [])])])])]) [].

(** Only the legacy directory exists, beside an empty [~/.config]. *)
Definition w_legacy (f : list (option Errno)) : World :=
  world_of (Dir 493 [("home", Dir 493 [("u", Dir 493
     [(".wtf", legacy_tree); (".config", Dir 493 [])])])]) f.

(** [~/.config] is a regular file. *)
Definition w_blocked : World :=
  world_of (Dir 493 [("home", Dir 493 [("u", Dir 493
     [(".wtf", legacy_tree); (".config", File 420 "")])])]) [].

(** [~/.config] is a regular file, and there is no legacy directory. *)
Definition w_blocked_plain : World :=
  world_of (Dir 493 [("home", Dir 493 [("u", Dir 493
     [(".config", File 420 "")])])]) [Some EIO].

(** The configuration file exists with the given content. *)
Definition w_config (content : string) (f : list (option Errno)) : World :=
  world_of (Dir 493 [("home", Dir 493 [("u", Dir 493
     [(".config", Dir 493 [("wtf", Dir 493
        [("config.yml", File 420 content)])])])])]) f.

(** A home directory without [~/.config]. *)
Definition w_fresh (f : list (option Errno)) : World :=
  world_of (Dir 493 [("home", Dir 493 [("u", Dir 493 [])])]) f.

(** A parser for the examples: the configuration is the document itself,
    and the empty document is refused. *)
Definition parse_document (s : string) : option string * option error :=
  if String.eqb s "" then (None, Some (errors_New "empty document"))
  else (Some s, None).

(** A directory literally called [~] in the working directory. *)
Definition w_tilde : World := world_of (Dir 493 [("~", Dir 493 [])]) [].

(* ================================================================== *)
(** * Notions used in the statements *)

Definition beginsWithMarker (path : string) : bool :=
  match path with
  | String c _ => Ascii.eqb c "~"
  | EmptyString => false
  end.

(** What the code takes for a separator after the marker. *)
Definition isSeparator (c : ascii) : bool :=
  Ascii.eqb c "/" || Ascii.eqb c "\".

(** The marker alone, or the marker and a separator after it. *)
Definition markedPath (path : string) : bool :=
  match path with
  | String c rest =>
      Ascii.eqb c "~" &&
      match rest with
      | EmptyString => true
      | String c1 _ => Ascii.eqb c1 "/" || Ascii.eqb c1 "\"
      end
  | EmptyString => false
  end.


(** An environment whose home directory is written with a slash at its end. *)
Definition env_slash : Env :=
  {| user_Current := inl {| HomeDir := "/home/u/" |} |}.

(** An environment whose user has no home directory. *)
Definition env_homeless : Env := {| user_Current := inl {| HomeDir := "" |} |}.

(** [k1] is an initial part of [k2]. *)
Definition is_prefix (k1 k2 : key) : Prop := exists r, k2 = k1 ++ r.

Fixpoint prefixb (k1 k2 : key) : bool :=
  match k1, k2 with
  | [], _ => true
  | n1 :: k1', n2 :: k2' => String.eqb n1 n2 && prefixb k1' k2'
  | _ :: _, [] => false
  end.

(** Induction on a node with the hypothesis for every entry of a
    directory. *)
Fixpoint node_induction (P : node -> Prop)
    (HF : forall m d, P (File m d))
    (HD : forall m es, Forall (fun e => P (snd e)) es -> P (Dir m es))
    (t : node) : P t :=
  match t with
  | File m d => HF m d
  | Dir m es =>
      HD m es
        ((fix entries (l : list (string * node))
            : Forall (fun e => P (snd e)) l :=
            match l with
            | [] => Forall_nil _
            | e :: l' =>
                Forall_cons e (node_induction P HF HD (snd e)) (entries l')
            end) es)
  end.

(** A copy under a directory that is there, to a name that is not, with no
    failure injected, puts the source there as it is. *)
Definition copied_fresh (t : node) : Prop :=
  forall (q : key) (n : string) (w : World) (m : N)
         (es : list (string * node)),
    faults w = [] ->
    find (root w) q = inr (Dir m es) ->
    lookup_entry n es = None ->
    exists w',
      copy t (q ++ [n]) w = (inl None, w') /\
      put (root w) (q ++ [n]) t = inr (root w') /\ faults w' = [].

(** What a successful copy of [t] to [dest] has done: the files of [t] are
    under [dest], the files that were not at or below [dest] are as they
    were, and [dest] is there. *)
Definition copied (t : node) : Prop :=
  forall (dest : key) (w w' : World),
    copy t dest w = (inl None, w') ->
    (forall rel m d, find t rel = inr (File m d) ->
                     find (root w') (dest ++ rel) = inr (File m d)) /\
    (forall k m d, find (root w) k = inr (File m d) -> ~ is_prefix dest k ->
                   find (root w') k = inr (File m d)) /\
    (exists n, find (root w') dest = inr n).

Fixpoint bytes (s : string) : list ascii :=
  match s with
  | EmptyString => []
  | String c s' => c :: bytes s'
  end.

Fixpoint no_sep (s : string) : bool :=
  match s with
  | EmptyString => true
  | String c s' => negb (IsPathSeparator c) && no_sep s'
  end.

(** A name that [walk] goes down into. *)
Definition real_name (e : string) : bool :=
  no_sep e && negb (String.eqb e "") && negb (String.eqb e ".") &&
  negb (String.eqb e "..").

Definition needSep (rooted : bool) (w : nat) : bool :=
  (rooted && negb (Nat.eqb w 1)) || (negb rooted && negb (Nat.eqb w 0)).

Definition isRooted (s : string) : bool :=
  match s with
  | String c _ => IsPathSeparator c
  | EmptyString => false
  end.

(** The shape of the buffer of [Clean] between two rounds: the root or [k]
    times [..], then the names [ns] (innermost first), with [dotdot] the
    length of the part that [..] cannot remove. *)
Inductive Buf (rooted : bool) : string -> nat -> list string -> nat -> Prop :=
| Buf_start :
    Buf rooted (if rooted then "/" else "") (if rooted then 1 else 0) [] 0
| Buf_dots (str : string) (k : nat) :
    rooted = false ->
    Buf rooted str (String.length str) [] k ->
    Buf rooted
      (str ++ (if Nat.ltb 0 (String.length str) then "/" else "") ++ "..")
      (String.length
         (str ++ (if Nat.ltb 0 (String.length str) then "/" else "") ++ ".."))
      [] (S k)
| Buf_name (str : string) (dd : nat) (ns : list string) (k : nat) (e : string) :
    Buf rooted str dd ns k ->
    real_name e = true ->
    Buf rooted
      (str ++ (if needSep rooted (String.length str) then "/" else "") ++ e)
      dd (e :: ns) k.

(* ================================================================== *)
(** * Facts about the file tree *)

Lemma lookup_set_entry_same (n : string) (c : node) (es : list (string * node)) :
  lookup_entry n (set_entry n c es) = Some c.
Proof.
  induction es as [|[n' c'] es IH]; simpl.
  - now rewrite String.eqb_refl.
  - destruct (String.eqb n' n) eqn:E; simpl.
    + now rewrite String.eqb_refl.
    + now rewrite E.
Qed.

Lemma lookup_set_entry_other (n n' : string) (c : node) (es : list (string * node)) :
  n' <> n -> lookup_entry n' (set_entry n c es) = lookup_entry n' es.
Proof.
  intros Hne. induction es as [|[n0 c0] es IH]; simpl.
  - destruct (String.eqb n n') eqn:E; [|reflexivity].
    apply String.eqb_eq in E. congruence.
  - destruct (String.eqb n0 n) eqn:E; simpl.
    + apply String.eqb_eq in E. subst n0.
      destruct (String.eqb n n') eqn:E'; [|reflexivity].
      apply String.eqb_eq in E'. congruence.
    + now rewrite IH.
Qed.

Lemma lookup_del_entry_same (n : string) (es : list (string * node)) :
  lookup_entry n (del_entry n es) = None.
Proof.
  induction es as [|[n' c'] es IH]; simpl; [reflexivity|].
  destruct (String.eqb n' n) eqn:E; simpl; [assumption|].
  now rewrite E.
Qed.

Lemma lookup_del_entry_other (n n' : string) (es : list (string * node)) :
  n' <> n -> lookup_entry n' (del_entry n es) = lookup_entry n' es.
Proof.
  intros Hne. induction es as [|[n0 c0] es IH]; simpl; [reflexivity|].
  destruct (String.eqb n0 n) eqn:E; simpl.
  - apply String.eqb_eq in E. subst n0.
    destruct (String.eqb n n') eqn:E'; [|assumption].
    apply String.eqb_eq in E'. congruence.
  - now rewrite IH.
Qed.

Lemma find_app (k1 k2 : key) (t : node) :
  find t (k1 ++ k2) =
  match find t k1 with
  | inr c => find c k2
  | inl e => inl e
  end.
Proof.
  revert t. induction k1 as [|n k1 IH]; intros t; simpl; [reflexivity|].
  destruct t as [m d|m es]; [reflexivity|].
  destruct (lookup_entry n es); [apply IH|reflexivity].
Qed.

Lemma prefixb_false (k1 k2 : key) :
  prefixb k1 k2 = false -> ~ is_prefix k1 k2.
Proof.
  revert k2. induction k1 as [|n1 k1 IH]; intros k2 H [r Hr]; [discriminate|].
  subst k2. simpl in H. rewrite String.eqb_refl in H. simpl in H.
  apply (IH _ H). now exists r.
Qed.

Lemma is_prefix_cons (n : string) (k1 k2 : key) :
  is_prefix (n :: k1) (n :: k2) <-> is_prefix k1 k2.
Proof.
  split; intros [r Hr]; exists r; simpl in *; congruence.
Qed.

Lemma find_put_same (k : key) (t new t' : node) :
  put t k new = inr t' -> find t' k = inr new.
Proof.
  revert t t'. induction k as [|n k IH]; intros t t' H; simpl in *.
  - congruence.
  - destruct t as [m d|m es]; [discriminate|].
    destruct (lookup_entry n es) as [c|] eqn:L.
    + destruct (put c k new) as [e|c'] eqn:P; [discriminate|].
      inversion H; subst t'. simpl. rewrite lookup_set_entry_same. eauto.
    + destruct k; [|discriminate].
      inversion H; subst t'. simpl. now rewrite lookup_set_entry_same.
Qed.

(** Putting a node at [kq] leaves every file that is not at or below [kq]. *)
Lemma find_put_file (kq : key) (t new t' : node) (k : key) (m : N) (d : string) :
  put t kq new = inr t' ->
  find t k = inr (File m d) ->
  ~ is_prefix kq k ->
  find t' k = inr (File m d).
Proof.
  revert t t' k. induction kq as [|n kq IH]; intros t t' k P F NP.
  - exfalso. apply NP. now exists k.
  - simpl in P. destruct t as [m0 d0|m0 es]; [discriminate|].
    destruct k as [|n2 k2]; [simpl in F; discriminate|].
    simpl in F. destruct (lookup_entry n2 es) as [c2|] eqn:L2; [|discriminate].
    destruct (String.eqb n2 n) eqn:E.
    + apply String.eqb_eq in E. subst n2. rewrite L2 in P.
      destruct (put c2 kq new) as [e|c'] eqn:P'; [discriminate|].
      inversion P; subst t'. simpl. rewrite lookup_set_entry_same.
      apply (IH c2 c' k2 P' F). intros Hp. apply NP.
      now apply is_prefix_cons.
    + apply String.eqb_neq in E.
      assert (F' : forall c', find (Dir m0 (set_entry n c' es)) (n2 :: k2)
                              = inr (File m d)).
      { intros c'. simpl. rewrite lookup_set_entry_other by assumption.
        now rewrite L2. }
      destruct (lookup_entry n es) as [c|].
      * destruct (put c kq new) as [e|c'] eqn:P'; [discriminate|].
        inversion P; subst t'. apply F'.
      * destruct kq; [|discriminate]. inversion P; subst t'. apply F'.
Qed.

(** A file has nothing below it, and what is missing has nothing below it. *)
Lemma find_below (t : node) (k r : key) (n : node) :
  find t (k ++ r) = inr n ->
  (exists m es, find t k = inr (Dir m es)) \/ r = [].
Proof.
  rewrite find_app. destruct (find t k) as [e|[m d|m es]]; intros H.
  - discriminate.
  - destruct r; [now right|discriminate].
  - left. eauto.
Qed.

(* ================================================================== *)
(** * Facts about the calls of package os *)

Lemma os_Stat_found (name : string) (w : World) (n : node) :
  node_at w name = inr n ->
  os_Stat name w = (inl (Some (info_of w n), None), w).
Proof. intros H. unfold os_Stat. now rewrite H. Qed.

Lemma os_Stat_missing (name : string) (w : World) (e : Errno) :
  node_at w name = inl e ->
  os_Stat name w = (inl (None, Some (PathError "stat" name e)), w).
Proof. intros H. unfold os_Stat. now rewrite H. Qed.

(* ================================================================== *)
(** * Path resolution *)

(** C3: a path that is empty or does not begin with the home marker [~]
    resolves to itself, without error, whatever the environment and the
    platform. *)
Theorem expandHomeDir_unmarked (filepath_Join : list string -> string)
    (env : Env) (path : string) :
  beginsWithMarker path = false ->
  expandHomeDirOn filepath_Join env path = (path, None).
Proof.
  destruct path as [|c rest]; simpl; [reflexivity|].
  intros H. now rewrite H.
Qed.

Lemma expandHomeDir_unmarked_witness :
  expandHomeDir env_none "" = ("", None) /\
  expandHomeDir env_none "/etc/wtf/config.yml" = ("/etc/wtf/config.yml", None).
Proof.
  split; apply (expandHomeDir_unmarked Join); reflexivity.
Defined.

(** C4: when the marker is followed by a character that is not a separator
    (neither slash nor backslash), resolution fails with MalformedPath and
    the path it returns is empty, whatever the environment and the
    platform. *)
Theorem expandHomeDir_malformed (filepath_Join : list string -> string)
    (env : Env) (c : ascii) (rest : string) :
  isSeparator c = false ->
  exists err,
    expandHomeDirOn filepath_Join env (String "~" (String c rest))
    = ("", Some err) /\
    MalformedPath err.
Proof.
  unfold isSeparator. intros H. apply orb_false_elim in H as [H1 H2].
  exists (errors_New "cannot expand user-specific home dir").
  split; [|reflexivity].
  simpl. now rewrite H1, H2.
Qed.

Lemma expandHomeDir_malformed_witness :
  exists err,
    expandHomeDir env_u "~user/.wtf" = ("", Some err) /\ MalformedPath err.
Proof.
  apply (expandHomeDir_malformed Join env_u "u" "ser/.wtf"). reflexivity.
Defined.

(** C9: the marker followed by a backslash is not rejected as malformed,
    on any platform: when the home directory is known, the result is the
    home directory joined (by the [filepath.Join] of the platform) with what
    follows the marker, backslash included. *)
Theorem expandHomeDir_backslash (filepath_Join : list string -> string)
    (env : Env) (dir rest : string) :
  home env = (dir, None) ->
  expandHomeDirOn filepath_Join env (String "~" (String "\" rest)) =
  (filepath_Join [dir; String "\" rest], None).
Proof.
  intros H. simpl. now rewrite H.
Qed.

Lemma expandHomeDir_backslash_witness :
  expandHomeDir env_u "~\wtf" = ("/home/u/\wtf", None).
Proof.
  apply (expandHomeDir_backslash Join env_u (dir := "/home/u") "wtf").
  reflexivity.
Defined.

(* ================================================================== *)
(** * Calls that modify the tree *)

Lemma modify_unfold (op name : string) (f : World -> key -> Errno + node)
    (w : World) :
  modify op name f w =
  match key_of (cwd w) name with
  | None => (inl (Some (PathError op name ENOENT)), w)
  | Some k =>
      let wi := with_faults w (tl (faults w)) in
      match hd None (faults w) with
      | Some e => (inl (Some (PathError op name e)), wi)
      | None =>
          match f wi k with
          | inl e => (inl (Some (PathError op name e)), wi)
          | inr r => (inl None, with_root wi r)
          end
      end
  end.
Proof.
  unfold modify. destruct (key_of (cwd w) name); [|reflexivity].
  unfold bind, injected, ret. now destruct (hd None (faults w)).
Qed.

(** A call that modifies the tree returns, and writes nothing to standard
    output; it leaves the working directory where it is. *)
Lemma modify_returns (op name : string) (f : World -> key -> Errno + node)
    (w : World) :
  exists res w',
    modify op name f w = (inl res, w') /\
    cwd w' = cwd w /\ stdout w' = stdout w /\
    (res <> None -> root w' = root w).
Proof.
  rewrite modify_unfold. destruct (key_of (cwd w) name) as [k|].
  - simpl. destruct (hd None (faults w)) as [e|].
    + eexists _, _. split; [reflexivity|]. simpl. auto.
    + destruct (f _ k) as [e|r].
      * eexists _, _. split; [reflexivity|]. simpl. auto.
      * eexists _, _. split; [reflexivity|]. simpl.
        repeat split; auto. intros H. now contradiction H.
  - eexists _, _. split; [reflexivity|]. auto.
Qed.

(** Creating or rewriting the file at [name] leaves every other file. *)
Lemma create_trunc_keeps (op name : string) (perm : N) (data : string)
    (w : World) (k : key) (m : N) (d : string) :
  find (root w) k = inr (File m d) ->
  key_of (cwd w) name <> Some k ->
  find (root (snd (modify op name (create_trunc perm data) w))) k
  = inr (File m d).
Proof.
  intros F NK. rewrite modify_unfold.
  destruct (key_of (cwd w) name) as [kq|]; [|exact F].
  simpl. destruct (hd None (faults w)); [exact F|].
  unfold create_trunc. simpl.
  assert (NP : forall n, find (root w) kq = inr n ->
                         (forall m0 es, n <> Dir m0 es) -> ~ is_prefix kq k).
  { intros n Fq ND [r Hr]. subst k.
    destruct (find_below _ _ _ F) as [(m0 & es & Fd)|Hr].
    - rewrite Fd in Fq. inversion Fq. eapply ND; eauto.
    - subst r. rewrite app_nil_r in NK. now apply NK. }
  assert (NP' : find (root w) kq = inl ENOENT -> ~ is_prefix kq k).
  { intros Fq [r Hr]. subst k. rewrite find_app, Fq in F. discriminate. }
  destruct (find (root w) kq) as [e|[m0 d0|m0 es]] eqn:Fq.
  - destruct e; try exact F.
    destruct (put (root w) kq _) as [e|r] eqn:P; [exact F|].
    simpl. eapply find_put_file; eauto.
  - destruct (put (root w) kq _) as [e|r] eqn:P; [exact F|].
    simpl. eapply find_put_file; eauto.
    eapply NP; [reflexivity|]. intros; discriminate.
  - exact F.
Qed.

Lemma os_Mkdir_then_found (name : string) (perm : N) (w w1 : World) :
  os_Mkdir name perm w = (inl None, w1) ->
  exists n, node_at w1 name = inr n.
Proof.
  unfold os_Mkdir. rewrite modify_unfold. unfold node_at.
  destruct (key_of (cwd w) name) as [k|] eqn:K; [|discriminate].
  simpl. destruct (hd None (faults w)); [discriminate|].
  destruct (find (root w) k) as [e|n]; [|discriminate].
  destruct e; try discriminate.
  destruct (put (root w) k _) as [e|r] eqn:P; [discriminate|].
  intros H. inversion H; subst w1. simpl. rewrite K.
  eexists. eapply find_put_same; eauto.
Qed.

(* ================================================================== *)
(** * The migration is skipped when the current directory exists *)

(** C1: when the current configuration directory exists (whatever it holds,
    and whatever kind of node it is), the migrator returns at once and the
    world it leaves is the world it found: neither the legacy tree nor the
    current tree nor anything else is modified, whether or not the legacy
    directory exists. *)
Theorem migrateOldConfig_skips (env : Env) (w : World) (n : node) :
  node_at w (fst (expandHomeDir env WtfConfigDirV2)) = inr n ->
  migrateOldConfig env w = (inl tt, w).
Proof.
  unfold migrateOldConfig.
  destruct (expandHomeDir env WtfConfigDirV1) as [srcDir e1].
  destruct (expandHomeDir env WtfConfigDirV2) as [destDir e2].
  simpl. intros H. unfold bind at 1.
  destruct (node_at w srcDir) as [e|n'] eqn:S.
  - rewrite (os_Stat_missing _ _ S).
    destruct e; simpl; try reflexivity;
      unfold bind; rewrite (os_Stat_found _ _ H); reflexivity.
  - rewrite (os_Stat_found _ _ S). simpl.
    unfold bind. rewrite (os_Stat_found _ _ H). reflexivity.
Qed.

Lemma migrateOldConfig_skips_witness :
  migrateOldConfig env_u w_both = (inl tt, w_both).
Proof.
  apply (migrateOldConfig_skips env_u w_both (n := Dir 493 [])).
  reflexivity.
Defined.

(* ================================================================== *)
(** * Seeding the configuration file *)

Lemma length_zero_empty (d : string) :
  (Z.of_nat (String.length d) =? 0)%Z = true -> d = "".
Proof.
  destruct d; [reflexivity|]. simpl String.length.
  intros H. apply Z.eqb_eq in H. lia.
Qed.

(** The step for a branch that returns an error and changes no file. *)
Ltac returns_error :=
  eexists _, _; split; [reflexivity|]; repeat split; auto;
  intros ? H; discriminate H.

(** [CreateFile] returns, prints nothing, keeps every file of the tree as it
    is, and when it reports no error the path it returns is there. *)
Lemma CreateFile_returns (env : Env) (fileName : string) (w : World) :
  exists res w1,
    CreateFile env fileName w = (inl res, w1) /\
    stdout w1 = stdout w /\
    (forall k m d, find (root w) k = inr (File m d) ->
                   find (root w1) k = inr (File m d)) /\
    (forall filePath, res = (filePath, None) ->
                      exists n, node_at w1 filePath = inr n).
Proof.
  unfold CreateFile.
  destruct (WtfConfigDir env) as [configDir [e|]]; cbn [negb is_nil]; cbv beta;
    [returns_error|].
  set (filePath := (configDir ++ "/" ++ fileName)%string).
  unfold bind at 1.
  destruct (node_at w filePath) as [e|n] eqn:N.
  - rewrite (os_Stat_missing _ _ N). cbn [negb is_nil]. cbv beta.
    destruct (os_IsNotExist _) eqn:NE; [|returns_error].
    unfold bind, os_Create. rewrite modify_unfold.
    unfold node_at in N.
    destruct (key_of (cwd w) filePath) as [kq|] eqn:KQ; [|returns_error].
    simpl. destruct (hd None (faults w)); [returns_error|].
    unfold create_trunc. simpl. rewrite N.
    destruct e; try discriminate.
    destruct (put (root w) kq _) as [e|r] eqn:P; [returns_error|].
    eexists _, _. split; [reflexivity|]. simpl. repeat split; auto.
    + intros k m d F. eapply find_put_file; eauto.
      intros [r' Hr]. subst k. rewrite find_app, N in F. discriminate.
    + intros fp H. inversion H; subst fp.
      unfold node_at. simpl. rewrite KQ.
      eexists. eapply find_put_same; eauto.
  - rewrite (os_Stat_found _ _ N). cbn [negb is_nil]. cbv beta.
    eexists _, _. split; [reflexivity|]. repeat split; auto.
    intros fp H. inversion H; subst fp. eauto.
Qed.

(** C7: a configuration file that holds content is left alone: the call
    returns and the world is the one it found. More generally, whatever the
    call does and however it ends, every file of the tree that had a
    non-zero size keeps its mode and its bytes. *)
Theorem createWtfConfigFile_keeps_content
    (defaultConfigFile : string) (env : Env) (w : World) :
  (forall configDir m d,
      WtfConfigDir env = (configDir, None) ->
      node_at w (configDir ++ "/config.yml")%string = inr (File m d) ->
      d <> "" ->
      createWtfConfigFile defaultConfigFile env w = (inl tt, w)) /\
  (forall k m d,
      find (root w) k = inr (File m d) ->
      d <> "" ->
      find (root (snd (createWtfConfigFile defaultConfigFile env w))) k
      = inr (File m d)).
Proof.
  split.
  - intros configDir m d HD HN Hd.
    unfold createWtfConfigFile, CreateFile. rewrite HD. simpl.
    unfold bind.
    rewrite (os_Stat_found _ _ HN). simpl.
    rewrite (os_Stat_found _ _ HN). simpl.
    destruct (Z.of_nat (String.length d) =? 0)%Z eqn:E; [|reflexivity].
    apply length_zero_empty in E. contradiction.
  - intros k m d F Hd.
    destruct (CreateFile_returns env "config.yml" w)
      as (res & w1 & E & _ & Keep & Found).
    apply Keep in F.
    unfold createWtfConfigFile, bind at 1. rewrite E.
    destruct res as [filePath [e|]]; [exact F|].
    destruct (Found filePath eq_refl) as [n N1].
    cbn [negb is_nil]. cbv beta. unfold bind at 1.
    rewrite (os_Stat_found _ _ N1).
    destruct (Size (info_of w1 n) =? 0)%Z eqn:Z0; [|exact F].
    unfold bind, ioutil_WriteFile.
    pose proof (@create_trunc_keeps "open" filePath 420 defaultConfigFile
                  w1 k m d F) as K.
    destruct (modify_returns "open" filePath
                (create_trunc 420 defaultConfigFile) w1)
      as (res & w2 & E2 & _).
    rewrite E2 in *. simpl in K.
    assert (K' : find (root w2) k = inr (File m d)).
    { apply K. intros HK. unfold node_at in N1. rewrite HK, F in N1.
      inversion N1. subst n. simpl in Z0.
      apply length_zero_empty in Z0. contradiction. }
    destruct res; exact K'.
Qed.

Lemma createWtfConfigFile_keeps_content_witness :
  createWtfConfigFile "wtf:" env_u (w_config "foo: bar" [])
  = (inl tt, w_config "foo: bar" []).
Proof.
  apply (proj1 (createWtfConfigFile_keeps_content "wtf:" env_u
                  (w_config "foo: bar" []))
           "/home/u/.config/wtf" 420%N "foo: bar").
  - reflexivity.
  - reflexivity.
  - discriminate.
Defined.

(** C10: when [ioutil.WriteFile] fails in [createWtfConfigFile], the run
    ends in [panic(err)] where [err] is the variable set by [CreateFile],
    which is nil there, since a non-nil [err] has ended the run in a panic
    of its own before: the value of the panic is nil, the error of the
    write appears nowhere, and nothing has been printed. *)
Theorem createWtfConfigFile_write_failure
    (defaultConfigFile : string) (env : Env) (w : World) :
  (forall path e w1,
      CreateFile env "config.yml" w = (inl (path, Some e), w1) ->
      createWtfConfigFile defaultConfigFile env w
      = (inr (Panicked (Some e)), w1)) /\
  (forall filePath w1 fi werr w2,
      CreateFile env "config.yml" w = (inl (filePath, None), w1) ->
      os_Stat filePath w1 = (inl (Some fi, None), w1) ->
      Size fi = 0%Z ->
      ioutil_WriteFile filePath defaultConfigFile 420 w1
      = (inl (Some werr), w2) ->
      createWtfConfigFile defaultConfigFile env w = (inr (Panicked None), w2) /\
      stdout w2 = stdout w).
Proof.
  split.
  - intros path e w1 HC. unfold createWtfConfigFile, bind. now rewrite HC.
  - intros filePath w1 fi werr w2 HC HS HZ HW. split.
    + unfold createWtfConfigFile, bind. rewrite HC.
      cbn [negb is_nil]. rewrite HS, HZ. simpl. now rewrite HW.
    + destruct (CreateFile_returns env "config.yml" w)
        as (res & w1' & E & Out & _).
      rewrite HC in E. inversion E; subst w1'. rewrite <- Out.
      unfold ioutil_WriteFile in HW.
      destruct (modify_returns "open" filePath
                  (create_trunc 420 defaultConfigFile) w1)
        as (res' & w2' & E' & _ & Out' & _).
      rewrite HW in E'. inversion E'; subst w2'. exact Out'.
Qed.

Lemma createWtfConfigFile_write_failure_witness :
  createWtfConfigFile "wtf:" env_u (w_fresh [])
  = (inr (Panicked
            (Some (PathError "open" "/home/u/.config/wtf/config.yml" ENOENT))),
     w_fresh []) /\
  (createWtfConfigFile "wtf:" env_u (w_config "" [Some ENOSPC])
   = (inr (Panicked None), w_config "" []) /\
   stdout (w_config "" []) = stdout (w_config "" [Some ENOSPC])).
Proof.
  split.
  - apply (proj1 (createWtfConfigFile_write_failure "wtf:" env_u (w_fresh []))
             "").
    reflexivity.
  - apply (proj2 (createWtfConfigFile_write_failure "wtf:" env_u
                    (w_config "" [Some ENOSPC]))
             "/home/u/.config/wtf/config.yml" (w_config "" [Some ENOSPC])
             {| Size := 0; Mode := 420; IsDir := false |}
             (PathError "open" "/home/u/.config/wtf/config.yml" ENOSPC)
             (w_config "" []));
      reflexivity.
Defined.

(* ================================================================== *)
(** * Directory provisioning *)

Lemma createXdgConfigDir_ensureDir (env : Env) :
  createXdgConfigDir env =
  ensureDir displayXdgConfigDirCreateError (fst (expandHomeDir env XdgConfigDir)).
Proof.
  unfold createXdgConfigDir.
  now destruct (expandHomeDir env XdgConfigDir).
Qed.

Lemma createWtfConfigDir_ensureDir (env : Env) :
  createWtfConfigDir env =
  ensureDir displayWtfConfigDirCreateError (fst (WtfConfigDir env)).
Proof.
  unfold createWtfConfigDir.
  now destruct (WtfConfigDir env).
Qed.

Lemma ensureDir_present (report : error -> M unit) (dirPath : string)
    (w : World) (n : node) :
  node_at w dirPath = inr n -> ensureDir report dirPath w = (inl tt, w).
Proof.
  intros H. unfold ensureDir, bind. now rewrite (os_Stat_found _ _ H).
Qed.

Lemma ensureDir_missing (report : error -> M unit) (dirPath : string)
    (w : World) :
  node_at w dirPath = inl ENOENT ->
  ensureDir report dirPath w =
  match os_Mkdir dirPath os_ModePerm w with
  | (inl (Some e), w1) => (report e ;; os_Exit 1) w1
  | (inl None, w1) => (inl tt, w1)
  | (inr ab, w1) => (inr ab, w1)
  end.
Proof.
  intros N. unfold ensureDir. unfold bind at 1.
  rewrite (os_Stat_missing _ _ N). cbn [os_IsNotExist]. unfold bind at 1.
  destruct (os_Mkdir dirPath os_ModePerm w) as [[[e|]|ab] w1]; reflexivity.
Qed.

Lemma ensureDir_twice (report : error -> M unit) (dirPath : string) (w : World) :
  (ensureDir report dirPath ;; ensureDir report dirPath) w
  = ensureDir report dirPath w.
Proof.
  unfold bind at 1.
  destruct (node_at w dirPath) as [e|n] eqn:N.
  - assert (Skip : e <> ENOENT ->
              ensureDir report dirPath w = (inl tt, w)).
    { intros He. unfold ensureDir, bind.
      rewrite (os_Stat_missing _ _ N). now destruct e. }
    destruct e; try (rewrite Skip by discriminate; now apply Skip).
    rewrite (ensureDir_missing report _ _ N).
    destruct (os_Mkdir dirPath os_ModePerm w) as [[[e|]|ab] w1] eqn:Mk.
    + unfold bind. destruct (report e w1) as [[[]|ab] w2]; reflexivity.
    + destruct (os_Mkdir_then_found _ _ _ Mk) as [n Hn].
      now rewrite (ensureDir_present report _ _ Hn).
    + reflexivity.
  - now rewrite !(ensureDir_present report _ _ N).
Qed.

(** C8: directory-ensure twice is directory-ensure once: the two calls in
    sequence end as the first call alone ends, in the same world (for every
    path and every report function, and so for the two directories of the
    program); when the first call returns, the second returns and changes
    nothing; and a path that is there, whatever kind of node it is, makes
    the call return without any change. *)
Theorem directory_ensure_idempotent (env : Env) (w : World) :
  (forall report dirPath,
      (ensureDir report dirPath ;; ensureDir report dirPath) w
      = ensureDir report dirPath w) /\
  (createXdgConfigDir env ;; createXdgConfigDir env) w
  = createXdgConfigDir env w /\
  (createWtfConfigDir env ;; createWtfConfigDir env) w
  = createWtfConfigDir env w /\
  (forall w1, createXdgConfigDir env w = (inl tt, w1) ->
              createXdgConfigDir env w1 = (inl tt, w1)) /\
  (forall w1, createWtfConfigDir env w = (inl tt, w1) ->
              createWtfConfigDir env w1 = (inl tt, w1)) /\
  (forall n, node_at w (fst (expandHomeDir env XdgConfigDir)) = inr n ->
             createXdgConfigDir env w = (inl tt, w)) /\
  (forall n, node_at w (fst (WtfConfigDir env)) = inr n ->
             createWtfConfigDir env w = (inl tt, w)).
Proof.
  rewrite createXdgConfigDir_ensureDir, createWtfConfigDir_ensureDir.
  assert (Second : forall report dirPath w1,
            ensureDir report dirPath w = (inl tt, w1) ->
            ensureDir report dirPath w1 = (inl tt, w1)).
  { intros report dirPath w1 H.
    pose proof (ensureDir_twice report dirPath w) as T.
    unfold bind in T. now rewrite H in T. }
  repeat split.
  - intros. apply ensureDir_twice.
  - apply ensureDir_twice.
  - apply ensureDir_twice.
  - apply Second.
  - apply Second.
  - intros n. apply ensureDir_present.
  - intros n. apply ensureDir_present.
Qed.

Lemma directory_ensure_idempotent_witness :
  createXdgConfigDir env_u (snd (createXdgConfigDir env_u (w_fresh [])))
  = (inl tt, snd (createXdgConfigDir env_u (w_fresh []))) /\
  createWtfConfigDir env_u w_both = (inl tt, w_both).
Proof.
  split.
  - apply (proj1 (proj2 (proj2 (proj2
             (directory_ensure_idempotent env_u (w_fresh [])))))).
    reflexivity.
  - apply (proj2 (proj2 (proj2 (proj2 (proj2 (proj2
             (directory_ensure_idempotent env_u w_both))))))
             (Dir 493 [])).
    reflexivity.
Defined.

(** A failed resolution returns the empty path. *)
Lemma expandHomeDir_failure (env : Env) (path : string) (e : error) :
  snd (expandHomeDir env path) = Some e -> fst (expandHomeDir env path) = "".
Proof.
  unfold expandHomeDir, expandHomeDirOn.
  destruct path as [|c rest]; [discriminate|].
  destruct (negb (Ascii.eqb c "~")); [discriminate|].
  match goal with |- context [if ?b then _ else _] => destruct b end;
    [reflexivity|].
  destruct (home env) as [dir [e'|]]; [reflexivity|discriminate].
Qed.

Lemma WtfConfigDir_failure (env : Env) (e : error) :
  snd (WtfConfigDir env) = Some e -> fst (WtfConfigDir env) = "".
Proof.
  unfold WtfConfigDir.
  destruct (expandHomeDir env WtfConfigDirV2) as [d [e'|]];
    [reflexivity|discriminate].
Qed.

Lemma ensureDir_empty (report : error -> Output) (w : World) :
  ensureDir (fun e => print (report e)) "" w
  = (inr (Exited 1),
     with_stdout w (stdout w ++ [report (PathError "mkdir" "" ENOENT)])).
Proof. reflexivity. Qed.

(** C6, as the code has it: when the resolution of the directory fails, the
    failure is dropped and provisioning goes on with the empty path that the
    failed resolution returned, not with the path as it was given. The empty
    path is never there and cannot be made: the call reports the failure of
    [Mkdir] on the empty path and exits with status 1, the tree
    unchanged. *)
Theorem provisioning_after_failed_resolution (env : Env) (w : World) :
  (forall e, snd (expandHomeDir env XdgConfigDir) = Some e ->
     createXdgConfigDir env = ensureDir displayXdgConfigDirCreateError "" /\
     createXdgConfigDir env w
     = (inr (Exited 1),
        with_stdout w (stdout w ++
          [XdgConfigDirCreateError (PathError "mkdir" "" ENOENT)]))) /\
  (forall e, snd (WtfConfigDir env) = Some e ->
     createWtfConfigDir env = ensureDir displayWtfConfigDirCreateError "" /\
     createWtfConfigDir env w
     = (inr (Exited 1),
        with_stdout w (stdout w ++
          [WtfConfigDirCreateError (PathError "mkdir" "" ENOENT)]))).
Proof.
  split; intros e H.
  - rewrite createXdgConfigDir_ensureDir, (expandHomeDir_failure _ _ H).
    split; [reflexivity|].
    apply (ensureDir_empty XdgConfigDirCreateError).
  - rewrite createWtfConfigDir_ensureDir, (WtfConfigDir_failure _ H).
    split; [reflexivity|].
    apply (ensureDir_empty WtfConfigDirCreateError).
Qed.

Lemma provisioning_after_failed_resolution_witness :
  createXdgConfigDir env_none w_tilde
  = (inr (Exited 1),
     with_stdout w_tilde
       [XdgConfigDirCreateError (PathError "mkdir" "" ENOENT)]) /\
  createWtfConfigDir env_none w_tilde
  = (inr (Exited 1),
     with_stdout w_tilde
       [WtfConfigDirCreateError (PathError "mkdir" "" ENOENT)]).
Proof.
  split.
  - apply (proj1 (provisioning_after_failed_resolution env_none w_tilde)
             (errorString "user: Current not implemented")).
    reflexivity.
  - apply (proj2 (provisioning_after_failed_resolution env_none w_tilde)
             (errorString "user: Current not implemented")).
    reflexivity.
Defined.

(** C6 as stated fails: with no home directory and a directory called [~]
    in the working directory, provisioning on the path as given
    ([~/.config/]) would create [~/.config] and return; the code exits with
    status 1 and creates nothing. *)
Lemma provisioning_as_given_counterexample :
  snd (expandHomeDir env_none XdgConfigDir) <> None /\
  ensureDir displayXdgConfigDirCreateError XdgConfigDir w_tilde
  = (inl tt, world_of (Dir 493 [("~", Dir 493 [(".config", Dir 493 [])])]) []) /\
  fst (createXdgConfigDir env_none w_tilde) = inr (Exited 1) /\
  root (snd (createXdgConfigDir env_none w_tilde)) = root w_tilde /\
  createXdgConfigDir env_none w_tilde
  <> ensureDir displayXdgConfigDirCreateError XdgConfigDir w_tilde.
Proof.
  repeat split; try discriminate.
Qed.

(* ================================================================== *)
(** * Facts about [filepath.Clean] *)

(** The model of [Clean] on the table of tests of the Go library
    (path/filepath, [cleantests]). *)
Lemma Clean_table :
  Clean "abc" = "abc" /\
  Clean "abc/def" = "abc/def" /\
  Clean "a/b/c" = "a/b/c" /\
  Clean "." = "." /\
  Clean ".." = ".." /\
  Clean "../.." = "../.." /\
  Clean "../../abc" = "../../abc" /\
  Clean "/abc" = "/abc" /\
  Clean "/" = "/" /\
  Clean "" = "." /\
  Clean "abc/" = "abc" /\
  Clean "abc/def/" = "abc/def" /\
  Clean "a/b/c/" = "a/b/c" /\
  Clean "./" = "." /\
  Clean "../" = ".." /\
  Clean "../../" = "../.." /\
  Clean "/abc/" = "/abc" /\
  Clean "abc//def//ghi" = "abc/def/ghi" /\
  Clean "//abc" = "/abc" /\
  Clean "///abc" = "/abc" /\
  Clean "//abc//" = "/abc" /\
  Clean "abc//" = "abc" /\
  Clean "abc/./def" = "abc/def" /\
  Clean "/./abc/def" = "/abc/def" /\
  Clean "abc/." = "abc" /\
  Clean "abc/def/ghi/../jkl" = "abc/def/jkl" /\
  Clean "abc/def/../ghi/../jkl" = "abc/jkl" /\
  Clean "abc/def/.." = "abc" /\
  Clean "abc/def/../.." = "." /\
  Clean "/abc/def/../.." = "/" /\
  Clean "abc/def/../../.." = ".." /\
  Clean "/abc/def/../../.." = "/" /\
  Clean "abc/def/../../../ghi/jkl/../../../mno" = "../../mno" /\
  Clean "/../abc" = "/abc" /\
  Clean "abc/./../def" = "def" /\
  Clean "abc//./../def" = "def" /\
  Clean "abc/../../././../def" = "../../def".
Proof. repeat split. Qed.

Lemma copyElement_shorter (s : string) (out : lazybuf) :
  String.length (fst (copyElement s out)) <= String.length s.
Proof.
  revert out. induction s as [|c s IH]; intros out; simpl; [lia|].
  destruct (IsPathSeparator c); simpl; [lia|].
  specialize (IH (c :: out)). lia.
Qed.

(** A round reads at least the byte it looks at. *)
Lemma cleanStep_shorter (rooted : bool) (c : ascii) (s1 : string)
    (out : lazybuf) (dotdot : nat) :
  String.length (fst (fst (cleanStep rooted c s1 out dotdot)))
  <= String.length s1.
Proof.
  unfold cleanStep.
  destruct (IsPathSeparator c) eqn:Sep; [simpl; lia|].
  destruct (Ascii.eqb c "." && endOrSep s1); [simpl; lia|].
  match goal with |- context [if ?b then _ else _] => destruct b end.
  - assert (String.length
              (match s1 with String _ s2 => s2 | EmptyString => s1 end)
            <= String.length s1) by (destruct s1; simpl; lia).
    destruct (Nat.ltb dotdot (List.length out)).
    + destruct out; simpl; assumption.
    + destruct (negb rooted); simpl; assumption.
  - simpl copyElement. rewrite Sep.
    match goal with |- context [copyElement s1 ?o] =>
      pose proof (copyElement_shorter s1 o) as L;
      destruct (copyElement s1 o) end.
    simpl in *. assumption.
Qed.

(** The loop has fuel enough with the length of what is left to read. *)
Lemma cleanLoop_fuel (f1 f2 : nat) (rooted : bool) (s : string)
    (out : lazybuf) (dotdot : nat) :
  String.length s <= f1 -> String.length s <= f2 ->
  cleanLoop f1 rooted s out dotdot = cleanLoop f2 rooted s out dotdot.
Proof.
  revert f2 s out dotdot.
  induction f1 as [|f1 IH]; intros f2 s out dotdot L1 L2.
  - destruct s; [|simpl in L1; lia]. now destruct f2.
  - destruct s as [|c s1]; [now destruct f2|].
    destruct f2 as [|f2]; [simpl in L2; lia|].
    simpl in *.
    pose proof (cleanStep_shorter rooted c s1 out dotdot) as L.
    destruct (cleanStep rooted c s1 out dotdot) as [[s' out'] dd'].
    simpl in L. apply IH; lia.
Qed.

Lemma length_append (a b : string) :
  String.length (a ++ b) = String.length a + String.length b.
Proof. induction a; simpl; congruence. Qed.

Lemma copyElement_app (a x : string) (out : lazybuf) :
  endOrSep x = true ->
  copyElement (a ++ x) out =
  ((fst (copyElement a out) ++ x)%string, snd (copyElement a out)).
Proof.
  intros Hx. revert out. induction a as [|c a IH]; intros out; simpl.
  - destruct x as [|c x]; [reflexivity|]. simpl in *. now rewrite Hx.
  - destruct (IsPathSeparator c); [reflexivity|]. apply IH.
Qed.

(** What a round does depends on what follows the element it reads only
    through its being the end of the path or a separator. *)
Lemma cleanStep_app (rooted : bool) (c : ascii) (a x y : string)
    (out : lazybuf) (dotdot : nat) :
  endOrSep x = true -> endOrSep y = true ->
  exists a' out' dd',
    String.length a' <= String.length a /\
    cleanStep rooted c (a ++ x) out dotdot = ((a' ++ x)%string, out', dd') /\
    cleanStep rooted c (a ++ y) out dotdot = ((a' ++ y)%string, out', dd').
Proof.
  intros Hx Hy. unfold cleanStep.
  assert (E : endOrSep (a ++ x) = endOrSep (a ++ y)).
  { destruct a; simpl; [congruence|reflexivity]. }
  assert (E2 : match (a ++ x)%string with
               | String c1 s2 => Ascii.eqb c1 "." && endOrSep s2
               | EmptyString => false
               end =
               match (a ++ y)%string with
               | String c1 s2 => Ascii.eqb c1 "." && endOrSep s2
               | EmptyString => false
               end).
  { assert (N : forall z, endOrSep z = true ->
                  match z with
                  | String c1 s2 => Ascii.eqb c1 "." && endOrSep s2
                  | EmptyString => false
                  end = false).
    { intros [|c1 z] Hz; [reflexivity|]. simpl in Hz.
      unfold IsPathSeparator in Hz. apply Ascii.eqb_eq in Hz. now subst c1. }
    destruct a as [|c1 a]; simpl.
    - now rewrite !N.
    - destruct a; simpl; [congruence|reflexivity]. }
  destruct (IsPathSeparator c) eqn:Sep.
  { exists a, out, dotdot. auto. }
  rewrite <- E.
  destruct (Ascii.eqb c "." && endOrSep (a ++ x)).
  { exists a, out, dotdot. auto. }
  rewrite <- E2.
  match goal with |- context [if ?b then _ else _] => destruct b eqn:DD end.
  - destruct a as [|c1 a].
    + exfalso. simpl in DD. destruct x as [|c1 x]; simpl in DD.
      * now rewrite andb_false_r in DD.
      * simpl in Hx. unfold IsPathSeparator in Hx.
        apply Ascii.eqb_eq in Hx. subst c1.
        simpl in DD. now rewrite andb_false_r in DD.
    + simpl.
      destruct (Nat.ltb dotdot (List.length out)).
      * destruct out; eexists a, _, _; (split; [simpl; lia|split; reflexivity]).
      * destruct (negb rooted);
          eexists a, _, _; (split; [simpl; lia|split; reflexivity]).
  - change (String c (a ++ x)) with (String c a ++ x)%string.
    change (String c (a ++ y)) with (String c a ++ y)%string.
    rewrite !copyElement_app by assumption.
    match goal with |- context [copyElement (String c a) ?o] =>
      pose proof (copyElement_shorter (String c a) o) as L;
      assert (L' : copyElement (String c a) o = copyElement a (c :: o))
        by (simpl; now rewrite Sep);
      pose proof (copyElement_shorter a (c :: o)) as L2;
      rewrite L' in *;
      destruct (copyElement a (c :: o)) as [a' out2] end.
    simpl in *. exists a', out2, dotdot. auto.
Qed.

(** A separator more, before a separator or at the end of the path, does not
    change what the loop computes. *)
Lemma cleanLoop_extra_separator (n : nat) : forall (a b : string)
    (rooted : bool) (out : lazybuf) (dotdot f1 f2 : nat),
  String.length a <= n ->
  endOrSep b = true ->
  String.length (a ++ String "/" b) <= f1 ->
  String.length (a ++ b) <= f2 ->
  cleanLoop f1 rooted (a ++ String "/" b) out dotdot
  = cleanLoop f2 rooted (a ++ b) out dotdot.
Proof.
  induction n as [|n IH]; intros a b rooted out dotdot f1 f2 La Hb L1 L2.
  - destruct a; [|simpl in La; lia]. simpl in *.
    destruct f1 as [|f1]; [lia|]. simpl.
    apply cleanLoop_fuel; lia.
  - destruct a as [|c a].
    + simpl in *. destruct f1 as [|f1]; [lia|]. simpl.
      apply cleanLoop_fuel; lia.
    + simpl in La, L1, L2.
      destruct f1 as [|f1]; [lia|]. destruct f2 as [|f2]; [lia|].
      simpl.
      destruct (@cleanStep_app rooted c a (String "/" b) b out dotdot
                  eq_refl Hb) as (a' & out' & dd' & La' & E1 & E2).
      rewrite E1, E2.
      assert (forall z, String.length (a' ++ z) <= String.length (a ++ z)).
      { intros z. rewrite !length_append. lia. }
      apply IH; try assumption; try lia.
      * specialize (H (String "/" b)). lia.
      * specialize (H b). lia.
Qed.

Lemma append_empty_r (s : string) : (s ++ "")%string = s.
Proof. induction s; simpl; congruence. Qed.

Lemma Clean_cons (c0 : ascii) (rest : string) :
  Clean (String c0 rest) =
  match (if IsPathSeparator c0
         then cleanLoop (S (String.length rest)) true rest [Separator] 1
         else cleanLoop (S (String.length rest)) false (String c0 rest) [] 0)
  with
  | [] => "."
  | out => string_of_list (rev out)
  end.
Proof.
  unfold Clean. cbv zeta.
  change (String.length (String c0 rest)) with (S (String.length rest)).
  destruct (IsPathSeparator c0);
    match goal with |- context [cleanLoop ?f ?r ?s ?o ?d] =>
      destruct (cleanLoop f r s o d) end; reflexivity.
Qed.

(** [Clean] of a non-empty path is not changed by a separator more before a
    separator or at the end. *)
Lemma Clean_extra_separator (h b : string) :
  h <> "" -> endOrSep b = true ->
  Clean (h ++ String "/" b) = Clean (h ++ b).
Proof.
  intros Hh Hb. destruct h as [|c0 h]; [contradiction|].
  cbn [append]. rewrite !Clean_cons.
  destruct (IsPathSeparator c0).
  - now rewrite (@cleanLoop_extra_separator (String.length h) h b true
                   [Separator] 1 (S (String.length (h ++ String "/" b)))
                   (S (String.length (h ++ b)))) by (auto; lia).
  - change (String c0 (h ++ String "/" b))
      with (String c0 h ++ String "/" b)%string.
    change (String c0 (h ++ b)) with (String c0 h ++ b)%string.
    now rewrite (@cleanLoop_extra_separator (String.length (String c0 h))
                   (String c0 h) b false [] 0
                   (S (String.length (h ++ String "/" b)))
                   (S (String.length (h ++ b)))) by (simpl; auto; lia).
Qed.

Lemma home_found (env : Env) (dir : string) :
  home env = (dir, None) -> dir <> "".
Proof.
  unfold home. destruct (user_Current env) as [u|e]; [|discriminate].
  destruct (String.eqb (HomeDir u) "") eqn:E; [discriminate|].
  intros H. inversion H. subst dir. now apply String.eqb_neq.
Qed.

(** Joining the home directory with a remainder that begins with a slash
    cleans their concatenation. *)
Lemma Join_home_slash (dir r : string) :
  dir <> "" -> Join [dir; String "/" r] = Clean (dir ++ String "/" r).
Proof.
  intros Hd. cbn [Join strings_Join].
  destruct (String.eqb dir "") eqn:E; [apply String.eqb_eq in E; contradiction|].
  now apply Clean_extra_separator.
Qed.

Lemma Join_home_empty (dir : string) :
  dir <> "" -> Join [dir; ""] = Clean dir.
Proof.
  intros Hd. cbn [Join strings_Join].
  destruct (String.eqb dir "") eqn:E; [apply String.eqb_eq in E; contradiction|].
  change (dir ++ String Separator "" ++ "")%string with (dir ++ String "/" "")%string.
  rewrite (Clean_extra_separator "" Hd eq_refl). now rewrite append_empty_r.
Qed.

(* ================================================================== *)
(** * Resolution of a path that begins with the marker *)

Lemma expandHomeDir_marked (env : Env) (path : string) :
  markedPath path = true ->
  expandHomeDir env path =
  match home env with
  | (_, Some err) => ("", Some err)
  | (dir, None) =>
      (Join [dir; match path with String _ rest => rest | EmptyString => "" end],
       None)
  end.
Proof.
  destruct path as [|c rest]; [discriminate|]. simpl.
  intros H. apply andb_prop in H as [Hc Hr]. rewrite Hc. simpl.
  destruct rest as [|c1 rest]; [reflexivity|].
  apply orb_prop in Hr.
  destruct (Ascii.eqb c1 "/"), (Ascii.eqb c1 "\"); simpl; try reflexivity.
  destruct Hr; discriminate.
Qed.

(** C5, as the code has it: with a home directory [dir], the marker and a
    slash and a remainder resolve to the cleaned concatenation
    [Clean (dir + "/" + remainder)] (and so to the concatenation itself when
    it is clean already); a backslash after the marker gives
    [Clean (dir + "/" + "\" + remainder)]; the marker alone gives
    [Clean dir] (the home directory itself when it is clean). When
    [user.Current] fails, or the home directory is empty, the resolution of
    such a path fails with HomeDirUnavailable. *)
Theorem expandHomeDir_marked_home (env : Env) :
  (forall dir, home env = (dir, None) ->
     (forall r, expandHomeDir env (String "~" (String "/" r))
                = (Clean (dir ++ String "/" r), None)) /\
     (forall r, Clean (dir ++ String "/" r) = (dir ++ String "/" r)%string ->
                expandHomeDir env (String "~" (String "/" r))
                = ((dir ++ String "/" r)%string, None)) /\
     (forall r, expandHomeDir env (String "~" (String "\" r))
                = (Clean (dir ++ String "/" (String "\" r)), None)) /\
     expandHomeDir env "~" = (Clean dir, None) /\
     (Clean dir = dir -> expandHomeDir env "~" = (dir, None))) /\
  (forall path err,
     markedPath path = true ->
     user_Current env = inr err ->
     expandHomeDir env path = ("", Some err) /\ HomeDirUnavailable env err) /\
  (forall path u,
     markedPath path = true ->
     user_Current env = inl u -> HomeDir u = "" ->
     exists err,
       expandHomeDir env path = ("", Some err) /\ HomeDirUnavailable env err).
Proof.
  split; [|split].
  - intros dir H. pose proof (home_found env H) as Hd.
    assert (S1 : forall r, expandHomeDir env (String "~" (String "/" r))
                           = (Clean (dir ++ String "/" r), None)).
    { intros r. rewrite expandHomeDir_marked by reflexivity.
      rewrite H. now rewrite Join_home_slash. }
    assert (S2 : expandHomeDir env "~" = (Clean dir, None)).
    { rewrite expandHomeDir_marked by reflexivity.
      rewrite H. now rewrite Join_home_empty. }
    repeat split.
    + exact S1.
    + intros r Hc. now rewrite S1, Hc.
    + intros r. rewrite expandHomeDir_marked by reflexivity.
      rewrite H. cbn [Join strings_Join].
      destruct (String.eqb dir "") eqn:E; [|reflexivity].
      apply String.eqb_eq in E. contradiction.
    + exact S2.
    + intros Hc. now rewrite S2, Hc.
  - intros path err Hp Hu. split; [|now left].
    rewrite expandHomeDir_marked by assumption.
    unfold home. now rewrite Hu.
  - intros path u Hp Hu He.
    exists (errors_New "cannot find user-specific home dir").
    split; [|now right].
    rewrite expandHomeDir_marked by assumption.
    unfold home. now rewrite Hu, He.
Qed.

Lemma expandHomeDir_marked_home_witness :
  expandHomeDir env_u "~/.config/wtf/" = (Clean "/home/u/.config/wtf/", None) /\
  expandHomeDir env_u "~/.wtf" = ("/home/u/.wtf", None) /\
  expandHomeDir env_u "~" = ("/home/u", None) /\
  (expandHomeDir env_none "~/.wtf"
   = ("", Some (errorString "user: Current not implemented")) /\
   HomeDirUnavailable env_none (errorString "user: Current not implemented")) /\
  (exists err, expandHomeDir env_homeless "~" = ("", Some err) /\
               HomeDirUnavailable env_homeless err).
Proof.
  pose proof (expandHomeDir_marked_home env_u) as [Hu _].
  specialize (Hu "/home/u" eq_refl) as (H1 & H2 & _ & _ & H5).
  split; [|split; [|split; [|split]]].
  - apply (H1 ".config/wtf/").
  - apply (H2 ".wtf"). reflexivity.
  - apply H5. reflexivity.
  - apply (proj1 (proj2 (expandHomeDir_marked_home env_none)) "~/.wtf");
      reflexivity.
  - apply (proj2 (proj2 (expandHomeDir_marked_home env_homeless))
             "~" {| HomeDir := "" |}); reflexivity.
Defined.

(** C5 as stated fails: with the home directory [/home/u], the path
    [~/.config/] of the program resolves to [/home/u/.config], which is not
    the concatenation [/home/u] + [/.config/]; and with a home directory
    written [/home/u/], the marker alone resolves to [/home/u]. *)
Lemma expandHomeDir_concatenation_counterexample :
  home env_u = ("/home/u", None) /\
  expandHomeDir env_u XdgConfigDir = ("/home/u/.config", None) /\
  fst (expandHomeDir env_u XdgConfigDir) <> ("/home/u" ++ "/.config/")%string /\
  home env_slash = ("/home/u/", None) /\
  expandHomeDir env_slash "~" = ("/home/u", None) /\
  fst (expandHomeDir env_slash "~") <> "/home/u/".
Proof.
  repeat split; discriminate.
Qed.

(* ================================================================== *)
(** * More facts about the file tree *)

Lemma mkdirAll_dir (k : key) : forall (t t' : node) (m : N),
  mkdirAll t k m = inr t' -> exists m' es, find t' k = inr (Dir m' es).
Proof.
  induction k as [|n k IH]; intros t t' m H.
  - destruct t as [m0 d|m0 es]; simpl in H; [discriminate|].
    inversion H; subst t'. simpl. eauto.
  - destruct t as [m0 d|m0 es]; simpl in H; [discriminate|].
    destruct (mkdirAll _ k m) as [e|c'] eqn:E; [discriminate|].
    inversion H; subst t'. simpl. rewrite lookup_set_entry_same. eauto.
Qed.

(** Making directories keeps every file. *)
Lemma mkdirAll_file (k : key) : forall (t t' : node) (m : N) (k0 : key)
    (m0 : N) (d : string),
  mkdirAll t k m = inr t' ->
  find t k0 = inr (File m0 d) -> find t' k0 = inr (File m0 d).
Proof.
  induction k as [|n k IH]; intros t t' m k0 m0 d H F.
  - destruct t as [m1 d1|m1 es]; simpl in H; [discriminate|].
    now inversion H; subst t'.
  - destruct t as [m1 d1|m1 es]; simpl in H; [discriminate|].
    destruct (mkdirAll _ k m) as [e|c'] eqn:E; [discriminate|].
    inversion H; subst t'. clear H.
    destruct k0 as [|n2 k2]; [simpl in F; discriminate|].
    simpl in *. destruct (lookup_entry n2 es) as [c2|] eqn:L2; [|discriminate].
    destruct (String.eqb n2 n) eqn:En.
    + apply String.eqb_eq in En. subst n2. rewrite L2 in E.
      rewrite lookup_set_entry_same. eapply IH; eauto.
    + apply String.eqb_neq in En.
      rewrite lookup_set_entry_other by assumption. now rewrite L2.
Qed.

Lemma find_remove_same (k : key) : forall (t n : node),
  k <> [] -> find t k = inr n -> find (remove t k) k = inl ENOENT.
Proof.
  induction k as [|n1 k IH]; intros t n Hk F; [contradiction|].
  destruct t as [m d|m es]; [simpl in F; discriminate|].
  simpl in F. destruct (lookup_entry n1 es) as [c|] eqn:L; [|discriminate].
  destruct k as [|n2 k].
  - simpl. now rewrite lookup_del_entry_same.
  - cbn [remove]. rewrite L. cbn [find]. rewrite lookup_set_entry_same.
    eapply IH; eauto. discriminate.
Qed.

(** Removing [k] keeps every file that is not at or below [k]. *)
Lemma find_remove_file (k : key) : forall (t : node) (k0 : key) (m : N)
    (d : string),
  ~ is_prefix k k0 ->
  find t k0 = inr (File m d) -> find (remove t k) k0 = inr (File m d).
Proof.
  induction k as [|n1 k IH]; intros t k0 m d NP F; [exact F|].
  destruct t as [m1 d1|m1 es]; [exact F|].
  destruct k0 as [|n2 k2]; [simpl in F; discriminate|].
  simpl in F. destruct (lookup_entry n2 es) as [c2|] eqn:L2; [|discriminate].
  destruct (String.eqb n2 n1) eqn:En.
  - apply String.eqb_eq in En. subst n2.
    destruct k as [|n3 k].
    + exfalso. apply NP. now exists k2.
    + cbn [remove]. rewrite L2. cbn [find]. rewrite lookup_set_entry_same.
      apply IH; [|assumption]. intros Hp. apply NP. now apply is_prefix_cons.
  - apply String.eqb_neq in En.
    destruct k as [|n3 k].
    + simpl. rewrite lookup_del_entry_other by assumption. now rewrite L2.
    + cbn [remove]. destruct (lookup_entry n1 es) as [c|].
      * cbn [find]. rewrite lookup_set_entry_other by assumption.
        now rewrite L2.
      * simpl. now rewrite L2.
Qed.

Lemma lookup_entry_In (n : string) (c : node) (es : list (string * node)) :
  lookup_entry n es = Some c -> In (n, c) es.
Proof.
  induction es as [|[n' c'] es IH]; simpl; [discriminate|].
  destruct (String.eqb n' n) eqn:E.
  - apply String.eqb_eq in E. intros H. inversion H. subst. now left.
  - intros H. right. auto.
Qed.

Lemma nodupb_head (n : string) (c : node) (l : list (string * node)) :
  nodupb (map fst ((n, c) :: l)) = true ->
  lookup_entry n l = None /\ nodupb (map fst l) = true.
Proof.
  simpl. intros H. apply andb_prop in H as [H1 H2]. split; [|assumption].
  apply negb_true_iff in H1. clear H2.
  induction l as [|[n' c'] l IH]; [reflexivity|].
  simpl in *. apply orb_false_elim in H1 as [H1 H2].
  rewrite String.eqb_sym, H1. auto.
Qed.

Lemma wf_find (k : key) : forall (t n : node),
  wf t = true -> find t k = inr n -> wf n = true.
Proof.
  induction k as [|n1 k IH]; intros t n W F; simpl in F.
  - now inversion F; subst n.
  - destruct t as [m d|m es]; [discriminate|].
    destruct (lookup_entry n1 es) as [c|] eqn:L; [|discriminate].
    apply (IH c n); [|assumption].
    simpl in W. apply andb_prop in W as [_ W].
    rewrite forallb_forall in W.
    apply (W (n1, c)). now apply lookup_entry_In.
Qed.

(* ================================================================== *)
(** * The copier *)

Lemma copy_step_unfold (k : key) (f : node -> Errno + node) (w : World) :
  copy_step k f w =
  let wi := with_faults w (tl (faults w)) in
  match hd None (faults w) with
  | Some e => (inl (Some (PathError "copy" (render k) e)), wi)
  | None =>
      match f (root w) with
      | inl e => (inl (Some (PathError "copy" (render k) e)), wi)
      | inr r => (inl None, with_root wi r)
      end
  end.
Proof.
  unfold copy_step, bind, injected, ret.
  now destruct (hd None (faults w)).
Qed.

Lemma copy_step_returns (k : key) (f : node -> Errno + node) (w : World) :
  exists res w',
    copy_step k f w = (inl res, w') /\
    cwd w' = cwd w /\ stdout w' = stdout w.
Proof.
  rewrite copy_step_unfold. simpl.
  destruct (hd None (faults w)); [eexists _, _; split; [reflexivity|now simpl]|].
  destruct (f (root w)); eexists _, _; (split; [reflexivity|now simpl]).
Qed.

(** A successful step has changed the tree by [f]. *)
Lemma copy_step_done (k : key) (f : node -> Errno + node) (w w' : World) :
  copy_step k f w = (inl None, w') -> f (root w) = inr (root w').
Proof.
  rewrite copy_step_unfold. simpl.
  destruct (hd None (faults w)); [discriminate|].
  destruct (f (root w)); [discriminate|].
  intros H. now inversion H.
Qed.

(** The copier returns (with an error or without), prints nothing and stays
    in the working directory. *)
Lemma copy_returns (t : node) : forall (dest : key) (w : World),
  exists res w',
    copy t dest w = (inl res, w') /\
    cwd w' = cwd w /\ stdout w' = stdout w.
Proof.
  induction t as [m d|m es IH] using node_induction; intros dest w.
  - apply copy_step_returns.
  - cbn [copy]. unfold bind at 1.
    destruct (copy_step_returns dest (fun r => mkdirAll r dest m) w)
      as (res & w1 & E & C1 & O1).
    rewrite E. destruct res as [e|]; cbn [negb is_nil].
    + eexists _, _. split; [reflexivity|]. auto.
    + rewrite <- C1, <- O1. clear E C1 O1 w. revert w1.
      induction IH as [|[n c] l Hc _ IHl]; intros w1.
      * eexists _, _. split; [reflexivity|]. auto.
      * cbn [copyEntries]. unfold bind at 1.
        destruct (Hc (dest ++ [n]) w1) as (res & w2 & E & C2 & O2).
        simpl snd in E. rewrite E.
        destruct res as [e|]; cbn [negb is_nil].
        -- eexists _, _. split; [reflexivity|]. auto.
        -- destruct (IHl w2) as (res & w3 & E3 & C3 & O3).
           exists res, w3. split; [exact E3|]. split; congruence.
Qed.

Lemma is_prefix_snoc (dest k : key) (n : string) :
  is_prefix (dest ++ [n]) k -> is_prefix dest k.
Proof.
  intros [r Hr]. exists (n :: r). now rewrite Hr, <- app_assoc.
Qed.

Lemma is_prefix_snoc_inv (dest r : key) (n0 n : string) :
  is_prefix (dest ++ [n0]) (dest ++ n :: r) -> n0 = n.
Proof.
  intros [r' Hr]. rewrite <- app_assoc in Hr.
  apply app_inv_head in Hr. simpl in Hr. congruence.
Qed.

Lemma copyEntries_copied (dest : key) (l : list (string * node)) :
  Forall (fun e => copied (snd e)) l ->
  nodupb (map fst l) = true ->
  forall (w1 w' : World),
    copyEntries copy dest l w1 = (inl None, w') ->
    (forall n c rel m d,
        lookup_entry n l = Some c -> find c rel = inr (File m d) ->
        find (root w') (dest ++ n :: rel) = inr (File m d)) /\
    (forall k m d,
        find (root w1) k = inr (File m d) ->
        (~ is_prefix dest k \/
         exists n r, k = dest ++ n :: r /\ lookup_entry n l = None) ->
        find (root w') k = inr (File m d)) /\
    ((exists n, find (root w1) dest = inr n) ->
     exists n, find (root w') dest = inr n).
Proof.
  induction 1 as [|[n0 c0] l Hc _ IH]; intros ND w1 w' E.
  - simpl in E. inversion E; subst w'. clear E.
    split; [|split]; auto. intros; discriminate.
  - apply nodupb_head in ND as [Fresh ND].
    cbn [copyEntries] in E. unfold bind at 1 in E.
    destruct (copy_returns c0 (dest ++ [n0]) w1) as (res & w2 & E2 & _).
    rewrite E2 in E. destruct res as [e|]; cbn [negb is_nil] in E.
    { inversion E. }
    simpl snd in Hc.
    destruct (Hc _ _ _ E2) as (A0 & B0 & C0).
    destruct (IH ND _ _ E) as (A & B & C).
    split; [|split].
    + intros n c rel m d L F. simpl in L.
      destruct (String.eqb n0 n) eqn:En.
      * apply String.eqb_eq in En. subst n0. inversion L; subst c0.
        apply B.
        -- specialize (A0 _ _ _ F). now rewrite <- app_assoc in A0.
        -- right. eauto.
      * eapply A; eauto.
    + intros k m d F Hk. apply B.
      * apply B0; [assumption|].
        destruct Hk as [NP|(n & r & -> & L)].
        -- intros Hp. apply NP. eapply is_prefix_snoc; eauto.
        -- intros Hp. apply is_prefix_snoc_inv in Hp. subst n0.
           simpl in L. now rewrite String.eqb_refl in L.
      * destruct Hk as [NP|(n & r & -> & L)]; [now left|].
        right. exists n, r. split; [reflexivity|].
        simpl in L. now destruct (String.eqb n0 n).
    + intros _. apply C.
      destruct C0 as [n Hn]. rewrite find_app in Hn.
      destruct (find (root w2) dest); [discriminate|eauto].
Qed.

(** The copier is right on every well-formed source. *)
Lemma copy_copied (t : node) : wf t = true -> copied t.
Proof.
  induction t as [m0 d0|m0 es IH] using node_induction; intros W dest w w' E.
  - cbn [copy] in E. apply copy_step_done in E.
    assert (P : put (root w) dest (File m0 d0) = inr (root w')).
    { destruct (find (root w) dest) as [[]|[]]; try discriminate; exact E. }
    split; [|split].
    + intros [|n rel] m d F; simpl in F; [|discriminate].
      inversion F; subst m d. rewrite app_nil_r.
      eapply find_put_same; eauto.
    + intros k m d F NP. eapply find_put_file; eauto.
    + eexists. eapply find_put_same; eauto.
  - cbn [copy] in E. unfold bind at 1 in E.
    destruct (copy_step_returns dest (fun r => mkdirAll r dest m0) w)
      as (res & w1 & E1 & _).
    rewrite E1 in E. destruct res as [e|]; cbn [negb is_nil] in E.
    { inversion E. }
    apply copy_step_done in E1.
    simpl in W. apply andb_prop in W as [ND W].
    assert (IH' : Forall (fun e => copied (snd e)) es).
    { rewrite forallb_forall in W. rewrite Forall_forall in *.
      intros e He. apply IH; auto. }
    destruct (copyEntries_copied dest IH' ND _ E) as (A & B & C).
    split; [|split].
    + intros [|n rel] m d F; simpl in F; [discriminate|].
      destruct (lookup_entry n es) as [c|] eqn:L; [|discriminate].
      eapply A; eauto.
    + intros k m d F NP. apply B; [|now left].
      eapply mkdirAll_file; eauto.
    + apply C. destruct (mkdirAll_dir _ _ _ E1) as (m' & es' & H). eauto.
Qed.

(* ================================================================== *)
(** * The copier when nothing fails *)

Lemma set_entry_twice (a : string) (x y : node) (es : list (string * node)) :
  set_entry a x (set_entry a y es) = set_entry a x es.
Proof.
  induction es as [|[n c] es IH]; simpl.
  - now rewrite String.eqb_refl.
  - destruct (String.eqb n a) eqn:E; simpl.
    + now rewrite String.eqb_refl.
    + now rewrite E, IH.
Qed.

Lemma set_entry_fresh (n : string) (c : node) (es : list (string * node)) :
  lookup_entry n es = None -> set_entry n c es = es ++ [(n, c)].
Proof.
  induction es as [|[n' c'] es IH]; simpl; [reflexivity|].
  destruct (String.eqb n' n); [discriminate|]. intros H. now rewrite IH.
Qed.

Lemma set_entry_same (n : string) (c : node) (es : list (string * node)) :
  lookup_entry n es = Some c -> set_entry n c es = es.
Proof.
  induction es as [|[n' c'] es IH]; simpl; [discriminate|].
  destruct (String.eqb n' n) eqn:E.
  - apply String.eqb_eq in E. intros H. inversion H. now subst.
  - intros H. now rewrite IH.
Qed.

(** Putting back what is there changes nothing. *)
Lemma put_same (k : key) : forall (t x : node),
  find t k = inr x -> put t k x = inr t.
Proof.
  induction k as [|a k IH]; intros t x F; simpl in *; [congruence|].
  destruct t as [m d|m es]; [discriminate|].
  destruct (lookup_entry a es) as [c|] eqn:L; [|discriminate].
  rewrite (IH _ _ F). now rewrite (@set_entry_same a c es L).
Qed.

(** A new entry can be put into a directory that is there. *)
Lemma put_child (q : key) : forall (t : node) (m : N)
    (es : list (string * node)) (n : string) (new : node),
  find t q = inr (Dir m es) ->
  lookup_entry n es = None ->
  exists t', put t (q ++ [n]) new = inr t'.
Proof.
  induction q as [|a q IH]; intros t m es n new F L; simpl in *.
  - inversion F; subst t. rewrite L. eauto.
  - destruct t as [m0 d|m0 es0]; [discriminate|].
    destruct (lookup_entry a es0) as [c|]; [|discriminate].
    destruct (IH _ _ _ n new F L) as [c' Hc]. rewrite Hc. eauto.
Qed.

(** Putting a new entry into a directory that was just put is putting the
    directory with the entry. *)
Lemma put_put_child (q : key) : forall (t t1 : node) (m : N)
    (acc : list (string * node)) (n : string) (c : node),
  put t q (Dir m acc) = inr t1 ->
  lookup_entry n acc = None ->
  put t1 (q ++ [n]) c = put t q (Dir m (set_entry n c acc)).
Proof.
  induction q as [|a q IH]; intros t t1 m acc n c P L.
  - simpl in P. inversion P; subst t1. simpl. now rewrite L.
  - cbn [app]. destruct t as [m0 d|m0 es]; [discriminate|].
    cbn [put] in P |- *.
    destruct (lookup_entry a es) as [ch|] eqn:La.
    + destruct (put ch q (Dir m acc)) as [e|ch1] eqn:P1; [discriminate|].
      inversion P; subst t1. cbn [put]. rewrite lookup_set_entry_same.
      rewrite (IH _ _ _ _ n c P1 L).
      destruct (put ch q (Dir m (set_entry n c acc))); [reflexivity|].
      now rewrite set_entry_twice.
    + destruct q as [|b q]; [|discriminate].
      inversion P; subst t1. cbn [app put].
      rewrite lookup_set_entry_same. cbn [put]. rewrite L.
      now rewrite set_entry_twice.
Qed.

Lemma put_found (k : key) : forall (t n new : node),
  find t k = inr n -> exists t', put t k new = inr t'.
Proof.
  induction k as [|a k IH]; intros t n new F; simpl in *; [eauto|].
  destruct t as [m d|m es]; [discriminate|].
  destruct (lookup_entry a es) as [c|]; [|discriminate].
  destruct (IH c n new F) as [c' ->]. eauto.
Qed.

(** Of two nodes put at the same place, the second stays. *)
Lemma put_put_same (k : key) : forall (t t1 a b : node),
  put t k a = inr t1 -> put t1 k b = put t k b.
Proof.
  induction k as [|n k IH]; intros t t1 a b P; simpl in *; [reflexivity|].
  destruct t as [m d|m es]; [discriminate|].
  destruct (lookup_entry n es) as [c|] eqn:L.
  - destruct (put c k a) as [e|c'] eqn:Pa; [discriminate|].
    inversion P; subst t1. simpl. rewrite lookup_set_entry_same.
    rewrite (IH c c' a b Pa).
    destruct (put c k b); [reflexivity|]. now rewrite set_entry_twice.
  - destruct k; [|discriminate]. inversion P; subst t1. simpl.
    rewrite lookup_set_entry_same. now rewrite set_entry_twice.
Qed.

(** In a directory that is there, making a new directory is putting an
    empty one. *)
Lemma mkdirAll_fresh (q : key) : forall (t : node) (m : N)
    (es : list (string * node)) (n : string) (m0 : N),
  find t q = inr (Dir m es) ->
  lookup_entry n es = None ->
  mkdirAll t (q ++ [n]) m0 = put t (q ++ [n]) (Dir m0 []).
Proof.
  induction q as [|a q IH]; intros t m es n m0 F L.
  - simpl in F. inversion F; subst t. simpl. now rewrite L.
  - destruct t as [mt d|mt est]; [discriminate|]. simpl in F.
    cbn [app mkdirAll put].
    destruct (lookup_entry a est) as [c|]; [|discriminate].
    now rewrite (IH _ _ _ n m0 F L).
Qed.

Lemma mkdirAll_empty (k : key) (m : N) :
  exists t1, mkdirAll (Dir m []) k m = inr t1 /\ find t1 k = inr (Dir m []).
Proof.
  induction k as [|a k [t1 [IH1 IH2]]]; simpl; [eauto|].
  rewrite IH1. eexists. split; [reflexivity|].
  simpl. now rewrite String.eqb_refl.
Qed.

(** What is missing (and not hidden behind a file) can be made. *)
Lemma mkdirAll_missing (k : key) : forall (t : node) (m : N),
  find t k = inl ENOENT ->
  exists t1, mkdirAll t k m = inr t1 /\ find t1 k = inr (Dir m []).
Proof.
  induction k as [|a k IH]; intros t m F; [discriminate|].
  destruct t as [mt d|mt es]; [discriminate|]. simpl in F. cbn [mkdirAll].
  destruct (lookup_entry a es) as [c|].
  - destruct (IH c m F) as (c' & E & Fc). rewrite E.
    eexists. split; [reflexivity|]. simpl. now rewrite lookup_set_entry_same.
  - destruct (mkdirAll_empty k m) as (c' & E & Fc). rewrite E.
    eexists. split; [reflexivity|]. simpl. now rewrite lookup_set_entry_same.
Qed.

Lemma copy_step_quiet (k : key) (f : node -> Errno + node) (w : World)
    (r : node) :
  faults w = [] -> f (root w) = inr r ->
  exists w', copy_step k f w = (inl None, w') /\
             root w' = r /\ faults w' = [].
Proof.
  intros Hf Hr. rewrite copy_step_unfold, Hf, Hr. simpl.
  eexists. split; [reflexivity|]. auto.
Qed.

Lemma nodupb_app_head (acc l : list (string * node)) (n : string) (c : node) :
  nodupb (map fst (acc ++ (n, c) :: l)) = true ->
  lookup_entry n acc = None /\
  nodupb (map fst ((acc ++ [(n, c)]) ++ l)) = true.
Proof.
  intros H. split.
  - induction acc as [|[n' c'] acc IH]; [reflexivity|].
    simpl in H. apply andb_prop in H as [H1 H2]. simpl.
    destruct (String.eqb n' n) eqn:E; [|auto].
    exfalso. apply negb_true_iff in H1.
    rewrite map_app, existsb_app in H1. simpl in H1.
    rewrite E in H1. now rewrite orb_true_r in H1.
  - now rewrite <- app_assoc.
Qed.

Lemma copyEntries_fresh (dest : key) (m0 : N) (root0 : node) :
  forall (l acc : list (string * node)) (w : World),
    Forall (fun e => copied_fresh (snd e)) l ->
    nodupb (map fst (acc ++ l)) = true ->
    faults w = [] ->
    put root0 dest (Dir m0 acc) = inr (root w) ->
    exists w',
      copyEntries copy dest l w = (inl None, w') /\
      put root0 dest (Dir m0 (acc ++ l)) = inr (root w') /\ faults w' = [].
Proof.
  induction l as [|[n c] l IH]; intros acc w Hl ND Hf P.
  - exists w. rewrite app_nil_r. auto.
  - inversion Hl as [|? ? Hc Hl']; subst. simpl in Hc.
    apply nodupb_app_head in ND as [Fresh ND].
    destruct (Hc dest n w m0 acc Hf
                (@find_put_same dest root0 (Dir m0 acc) (root w) P) Fresh)
      as (w1 & E1 & P1 & F1).
    rewrite (@put_put_child dest root0 (root w) m0 acc n c P Fresh),
            (@set_entry_fresh n c acc Fresh) in P1.
    destruct (IH (acc ++ [(n, c)]) w1 Hl' ND F1 P1) as (w' & E & P' & F').
    exists w'. cbn [copyEntries]. unfold bind at 1. rewrite E1.
    cbn [negb is_nil]. rewrite <- app_assoc in P'. auto.
Qed.

Lemma copy_fresh (t : node) : wf t = true -> copied_fresh t.
Proof.
  induction t as [m0 d0|m0 es0 IH] using node_induction;
    intros W q n w m es Hf F L.
  - destruct (@put_child q (root w) m es n (File m0 d0) F L) as [r P].
    destruct (@copy_step_quiet (q ++ [n])
                (fun r => match find r (q ++ [n]) with
                          | inr (Dir _ _) => inl EISDIR
                          | inr (File _ _) | inl ENOENT =>
                              put r (q ++ [n]) (File m0 d0)
                          | inl e => inl e
                          end) w r Hf) as (w' & E & R & F').
    { rewrite find_app, F. simpl. now rewrite L. }
    exists w'. cbn [copy]. rewrite E, R. auto.
  - simpl in W. apply andb_prop in W as [ND W].
    assert (IH' : Forall (fun e => copied_fresh (snd e)) es0).
    { rewrite forallb_forall in W. rewrite Forall_forall in *.
      intros e He. apply IH; auto. }
    destruct (@put_child q (root w) m es n (Dir m0 []) F L) as [r1 P1].
    destruct (@copy_step_quiet (q ++ [n]) (fun r => mkdirAll r (q ++ [n]) m0)
                w r1 Hf) as (w1 & E1 & R1 & F1).
    { now rewrite (@mkdirAll_fresh q (root w) m es n m0 F L). }
    subst r1.
    destruct (@copyEntries_fresh (q ++ [n]) m0 (root w) es0 [] w1 IH' ND F1 P1)
      as (w' & E & P' & F').
    exists w'. cbn [copy]. unfold bind at 1. rewrite E1. cbn [negb is_nil].
    auto.
Qed.

(** A directory copied to a place that is missing, with no failure
    injected: the directories above are made and the source is put there as
    it is. *)
Lemma copy_missing (m0 : N) (es0 : list (string * node)) (dest : key)
    (w : World) :
  wf (Dir m0 es0) = true ->
  faults w = [] ->
  find (root w) dest = inl ENOENT ->
  exists w' r1,
    copy (Dir m0 es0) dest w = (inl None, w') /\
    mkdirAll (root w) dest m0 = inr r1 /\
    put r1 dest (Dir m0 es0) = inr (root w') /\
    faults w' = [].
Proof.
  intros W Hf F.
  destruct (@mkdirAll_missing dest (root w) m0 F) as (r1 & Mk & F1).
  destruct (@copy_step_quiet dest (fun r => mkdirAll r dest m0) w r1 Hf Mk)
    as (w1 & E1 & R1 & Hf1).
  subst r1. simpl in W. apply andb_prop in W as [ND W].
  assert (IH : Forall (fun e => copied_fresh (snd e)) es0).
  { rewrite forallb_forall in W. rewrite Forall_forall.
    intros e He. apply copy_fresh. auto. }
  destruct (@copyEntries_fresh dest m0 (root w1) es0 [] w1 IH ND Hf1
              (@put_same dest (root w1) (Dir m0 []) F1)) as (w' & E & P' & F').
  exists w', (root w1). cbn [copy]. unfold bind at 1. rewrite E1.
  cbn [negb is_nil]. auto.
Qed.

(** ** Places that lie apart *)

Lemma find_put_apart (kq : key) : forall (t new t' : node) (k : key),
  put t kq new = inr t' ->
  prefixb kq k = false -> prefixb k kq = false ->
  find t' k = find t k.
Proof.
  induction kq as [|a kq IH]; intros t new t' k P N1 N2; [discriminate|].
  destruct k as [|b k]; [discriminate|].
  destruct t as [m d|m es]; [discriminate|]. cbn [put] in P.
  simpl in N1, N2. cbn [find].
  destruct (String.eqb b a) eqn:E.
  - apply String.eqb_eq in E. subst b. rewrite String.eqb_refl in N1.
    simpl in N1, N2.
    destruct (lookup_entry a es) as [c|] eqn:L.
    + destruct (put c kq new) as [e|c'] eqn:Pc; [discriminate|].
      inversion P; subst t'. cbn [find]. rewrite lookup_set_entry_same.
      eapply IH; eauto.
    + destruct kq; [discriminate|discriminate].
  - apply String.eqb_neq in E.
    assert (forall c', find (Dir m (set_entry a c' es)) (b :: k)
                       = find (Dir m es) (b :: k)).
    { intros c'. cbn [find]. now rewrite lookup_set_entry_other. }
    destruct (lookup_entry a es) as [c|].
    + destruct (put c kq new) as [e|c'] eqn:Pc; [discriminate|].
      inversion P; subst t'. apply H.
    + destruct kq; [|discriminate]. inversion P; subst t'. apply H.
Qed.

Lemma find_mkdirAll_apart (kq : key) : forall (t t' : node) (m0 : N) (k : key),
  mkdirAll t kq m0 = inr t' ->
  prefixb kq k = false -> prefixb k kq = false ->
  find t' k = find t k.
Proof.
  induction kq as [|a kq IH]; intros t t' m0 k P N1 N2; [discriminate|].
  destruct k as [|b k]; [discriminate|].
  destruct t as [m d|m es]; [discriminate|]. cbn [mkdirAll] in P.
  destruct (mkdirAll _ kq m0) as [e|c'] eqn:Pc; [discriminate|].
  inversion P; subst t'. clear P.
  simpl in N1, N2. cbn [find].
  destruct (String.eqb b a) eqn:E.
  - apply String.eqb_eq in E. subst b. rewrite String.eqb_refl in N1.
    simpl in N1, N2. rewrite lookup_set_entry_same.
    rewrite (IH _ _ _ k Pc N1 N2).
    destruct (lookup_entry a es); [reflexivity|].
    destruct k; [discriminate|reflexivity].
  - apply String.eqb_neq in E. now rewrite lookup_set_entry_other.
Qed.

Lemma find_remove_apart (kq : key) : forall (t : node) (k : key),
  prefixb kq k = false -> prefixb k kq = false ->
  find (remove t kq) k = find t k.
Proof.
  induction kq as [|a kq IH]; intros t k N1 N2; [discriminate|].
  destruct k as [|b k]; [discriminate|].
  destruct t as [m d|m es]; [reflexivity|].
  simpl in N1, N2.
  destruct (String.eqb b a) eqn:E.
  - apply String.eqb_eq in E. subst b. rewrite String.eqb_refl in N1.
    simpl in N1, N2.
    destruct kq as [|a' kq]; [discriminate|].
    cbn [remove]. destruct (lookup_entry a es) as [c|] eqn:L; [|reflexivity].
    cbn [find]. rewrite lookup_set_entry_same, L. now apply IH.
  - apply String.eqb_neq in E.
    destruct kq as [|a' kq]; cbn [remove].
    + cbn [find]. now rewrite lookup_del_entry_other.
    + destruct (lookup_entry a es); [|reflexivity].
      cbn [find]. now rewrite lookup_set_entry_other.
Qed.

(* ================================================================== *)
(** * The migration *)

(** The migration between two places [ks] and [kd] of a well-formed tree,
    when [ks] is a directory, [kd] cannot be found and is not inside [ks]. *)
Lemma migrateOldConfig_migrates_at (env : Env) (w : World) (ks kd : key)
    (m : N) (es : list (string * node)) (e : Errno) :
  wf (root w) = true ->
  key_of (cwd w) (fst (expandHomeDir env WtfConfigDirV1)) = Some ks ->
  key_of (cwd w) (fst (expandHomeDir env WtfConfigDirV2)) = Some kd ->
  find (root w) ks = inr (Dir m es) ->
  find (root w) kd = inl e ->
  prefixb ks kd = false ->
  match Copy (fst (expandHomeDir env WtfConfigDirV1))
             (fst (expandHomeDir env WtfConfigDirV2)) w with
  | (inl (Some err), wc) =>
      migrateOldConfig env w = (inr (Panicked (Some err)), wc)
  | (inl None, wc) =>
      exists w',
        migrateOldConfig env w = (inl tt, w') /\
        (forall rel m0 d,
            find (root w) (ks ++ rel) = inr (File m0 d) ->
            find (root w') (kd ++ rel) = inr (File m0 d)) /\
        ((os_RemoveAll (fst (expandHomeDir env WtfConfigDirV1)) wc
          = (inl None, w') /\
          find (root w') ks = inl ENOENT /\ stdout w' = stdout w) \/
         (exists err wr,
             os_RemoveAll (fst (expandHomeDir env WtfConfigDirV1)) wc
             = (inl (Some err), wr) /\
             w' = with_stdout wr (stdout w ++ [Println err])))
  | (inr _, _) => False
  end.
Proof.
  intros W Ks Kd Fs Fd NPb. unfold migrateOldConfig.
  destruct (expandHomeDir env WtfConfigDirV1) as [srcDir e1].
  destruct (expandHomeDir env WtfConfigDirV2) as [destDir e2].
  simpl fst in *.
  assert (Ns : node_at w srcDir = inr (Dir m es))
    by (unfold node_at; now rewrite Ks).
  assert (Nd : node_at w destDir = inl e)
    by (unfold node_at; now rewrite Kd).
  assert (Ec0 : Copy srcDir destDir w = copy (Dir m es) kd w)
    by (unfold Copy; now rewrite Ns, Kd).
  destruct (copy_returns (Dir m es) kd w) as (res & wc & Ec & Cc & Oc).
  rewrite Ec0, Ec.
  destruct res as [err|];
    (unfold bind at 1; rewrite (os_Stat_found _ _ Ns); cbn [os_IsNotExist];
     unfold bind at 1; rewrite (os_Stat_missing _ _ Nd); cbn [is_nil];
     unfold bind at 1; rewrite Ec0, Ec; cbn [negb is_nil]);
    [reflexivity|].
  assert (Ws : wf (Dir m es) = true) by (eapply wf_find; eauto).
  pose proof (copy_copied _ Ws) as Cp. unfold copied in Cp.
  destruct (Cp _ _ _ Ec) as (A & B & [n C]). clear Cp.
  assert (Nd' : node_at wc destDir = inr n)
    by (unfold node_at; now rewrite Cc, Kd).
  unfold bind at 1. rewrite (os_Stat_found _ _ Nd'). cbn [is_nil].
  assert (Files : forall rel m0 d,
             find (root w) (ks ++ rel) = inr (File m0 d) ->
             find (root wc) (kd ++ rel) = inr (File m0 d)).
  { intros rel m0 d F. apply A. now rewrite find_app, Fs in F. }
  assert (NP : forall rel, ~ is_prefix ks (kd ++ rel)).
  { intros rel [r Hr]. apply prefixb_false in NPb.
    assert (Hd : exists n0, find (root w) ks = inr n0) by eauto.
    clear - Hr NPb Fd Hd. revert kd Hr NPb Fd Hd. generalize (root w).
    induction ks as [|a ks IH]; intros t kd Hr NPb Fd Hd.
    - apply NPb. now exists kd.
    - destruct kd as [|b kd].
      + destruct Hd; discriminate.
      + simpl in Hr. inversion Hr; subst b.
        destruct t as [m0 d0|m0 es0]; [destruct Hd; discriminate|].
        simpl in Fd, Hd.
        destruct (lookup_entry a es0) as [c|]; [|destruct Hd; discriminate].
        apply (IH c kd H1); auto.
        intros Hp. apply NPb. now apply is_prefix_cons. }
  unfold bind. unfold os_RemoveAll.
  destruct srcDir as [|c0 srcDir']; [discriminate|].
  set (srcDir := String c0 srcDir') in *.
  rewrite modify_unfold. rewrite Cc, Ks. cbv zeta.
  destruct (hd None (faults wc)) as [inj|].
  { eexists. split; [reflexivity|]. split; [exact Files|].
    right. eexists _, _. split; [reflexivity|].
    cbn [stdout with_faults]. now rewrite Oc. }
  cbn [root with_faults].
  destruct ks as [|k0 ks'].
  { eexists. split; [reflexivity|]. split; [exact Files|].
    right. eexists _, _. split; [reflexivity|].
    cbn [stdout with_faults]. now rewrite Oc. }
  set (ks := k0 :: ks') in *.
  destruct (find (root wc) ks) as [e0|n0] eqn:Fc.
  - destruct e0;
      try (eexists; split; [reflexivity|]; split; [exact Files|];
           right; eexists _, _; split; [reflexivity|];
           cbn [stdout with_faults]; now rewrite Oc).
    eexists. split; [reflexivity|]. split; [exact Files|].
    left. split; [reflexivity|]. simpl. auto.
  - eexists. split; [reflexivity|]. split.
    + intros rel m0 d F. cbn [root with_root].
      apply find_remove_file; [apply NP|]. now apply Files.
    + left. split; [reflexivity|].
      cbn [root stdout with_root with_faults]. split; [|assumption].
      eapply find_remove_same; eauto. discriminate.
Qed.

(** The same migration when the current directory is missing and the
    system injects no failure: the copy succeeds, the current directory is
    the legacy tree as it was, the legacy directory is gone and nothing is
    printed. *)
Lemma migrateOldConfig_quiet_at (env : Env) (w : World) (ks kd : key)
    (m : N) (es : list (string * node)) :
  wf (root w) = true ->
  key_of (cwd w) (fst (expandHomeDir env WtfConfigDirV1)) = Some ks ->
  key_of (cwd w) (fst (expandHomeDir env WtfConfigDirV2)) = Some kd ->
  find (root w) ks = inr (Dir m es) ->
  find (root w) kd = inl ENOENT ->
  prefixb ks kd = false -> prefixb kd ks = false ->
  faults w = [] ->
  exists w',
    migrateOldConfig env w = (inl tt, w') /\
    find (root w') kd = inr (Dir m es) /\
    find (root w') ks = inl ENOENT /\
    stdout w' = stdout w /\
    exists r1 r,
      mkdirAll (root w) kd m = inr r1 /\
      put r1 kd (Dir m es) = inr r /\
      root w' = remove r ks.
Proof.
  intros W Ks Kd Fs Fd N1 N2 Hf. unfold migrateOldConfig.
  destruct (expandHomeDir env WtfConfigDirV1) as [srcDir e1].
  destruct (expandHomeDir env WtfConfigDirV2) as [destDir e2].
  simpl fst in *.
  assert (Ns : node_at w srcDir = inr (Dir m es))
    by (unfold node_at; now rewrite Ks).
  assert (Nd : node_at w destDir = inl ENOENT)
    by (unfold node_at; now rewrite Kd).
  assert (Ws : wf (Dir m es) = true) by (eapply wf_find; eauto).
  destruct (@copy_missing m es kd w Ws Hf Fd) as (wc & r1 & Ec & Mk & P & Hfc).
  destruct (copy_returns (Dir m es) kd w) as (res & wc' & Ec' & Cc & Oc).
  rewrite Ec in Ec'. inversion Ec'; subst res wc'. clear Ec'.
  assert (Ec0 : Copy srcDir destDir w = (inl None, wc))
    by (unfold Copy; now rewrite Ns, Kd).
  assert (Fdc : find (root wc) kd = inr (Dir m es))
    by (eapply find_put_same; eauto).
  assert (Fsc : find (root wc) ks = inr (Dir m es)).
  { rewrite (@find_put_apart kd r1 (Dir m es) (root wc) ks P N2 N1).
    now rewrite (@find_mkdirAll_apart kd (root w) r1 m ks Mk N2 N1). }
  assert (Nd' : node_at wc destDir = inr (Dir m es))
    by (unfold node_at; now rewrite Cc, Kd).
  unfold bind at 1. rewrite (os_Stat_found _ _ Ns). cbn [os_IsNotExist].
  unfold bind at 1. rewrite (os_Stat_missing _ _ Nd). cbn [is_nil].
  unfold bind at 1. rewrite Ec0. cbn [negb is_nil].
  unfold bind at 1. rewrite (os_Stat_found _ _ Nd'). cbn [is_nil].
  unfold bind. unfold os_RemoveAll.
  destruct srcDir as [|c0 srcDir']; [discriminate|].
  rewrite modify_unfold. rewrite Cc, Ks, Hfc. cbv zeta.
  cbn [hd tl root with_faults].
  destruct ks as [|k0 ks']; [discriminate|].
  rewrite Fsc.
  eexists. split; [reflexivity|]. cbn [root stdout with_root with_faults].
  split; [|split; [|split]].
  - now rewrite find_remove_apart.
  - eapply find_remove_same; eauto. discriminate.
  - assumption.
  - exists r1, (root wc). auto.
Qed.

(* ================================================================== *)
(** * [filepath.Clean] keeps the place a path denotes *)

Lemma bytes_app (a b : string) : bytes (a ++ b) = bytes a ++ bytes b.
Proof. induction a; simpl; congruence. Qed.

Lemma bytes_length (s : string) : List.length (bytes s) = String.length s.
Proof. induction s; simpl; congruence. Qed.

Lemma string_of_bytes (s : string) : string_of_list (bytes s) = s.
Proof. induction s; simpl; congruence. Qed.

Lemma real_name_inv (e : string) :
  real_name e = true ->
  no_sep e = true /\ e <> "" /\ e <> "." /\ e <> "..".
Proof.
  unfold real_name. intros H.
  repeat (apply andb_prop in H as [H ?]).
  repeat split; auto;
    match goal with
    | H : negb (String.eqb e ?x) = true |- e <> ?x =>
        apply negb_true_iff in H; now apply String.eqb_neq
    end.
Qed.

Lemma real_name_length (e : string) :
  real_name e = true -> 0 < String.length e.
Proof.
  intros H. apply real_name_inv in H as (_ & H & _).
  destruct e; [contradiction|simpl; lia].
Qed.

Lemma Buf_dotdot (rooted : bool) (str : string) (dd : nat) (ns : list string)
    (k : nat) :
  Buf rooted str dd ns k ->
  (ns = [] -> dd = String.length str) /\
  (ns <> [] -> dd < String.length str) /\
  (rooted = true -> k = 0) /\
  (str = "" -> rooted = false /\ ns = [] /\ k = 0).
Proof.
  assert (NE : forall a b c : string,
            0 < String.length c -> (a ++ b ++ c)%string <> "").
  { intros a b c L Hs. apply (f_equal String.length) in Hs.
    rewrite !length_append in Hs. simpl in Hs. lia. }
  induction 1 as [|str k R B IH|str dd ns k e B IH E].
  - split; [|split; [|split]].
    + now destruct rooted.
    + intros H. now contradiction H.
    + reflexivity.
    + destruct rooted; [discriminate|auto].
  - split; [|split; [|split]].
    + reflexivity.
    + intros H. now contradiction H.
    + congruence.
    + intros Hs. apply NE in Hs; [contradiction|simpl; lia].
  - destruct IH as (I1 & I2 & I3 & I4).
    pose proof (real_name_length _ E) as L.
    split; [|split; [|split]].
    + discriminate.
    + intros _. rewrite !length_append.
      destruct ns; [rewrite I1 by reflexivity|specialize (I2 ltac:(discriminate))];
        lia.
    + exact I3.
    + intros Hs. apply NE in Hs; [contradiction|assumption].
Qed.

Lemma splitElements_app (a b : string) :
  splitElements (a ++ String "/" b) =
  (fst (splitElements a), snd (splitElements a) ++ elements b).
Proof.
  induction a as [|c a IH].
  - simpl. unfold elements. now destruct (splitElements b).
  - cbn [append splitElements]. rewrite IH.
    destruct (splitElements a) as [e es]. simpl.
    now destruct (IsPathSeparator c).
Qed.

Lemma elements_app (a b : string) :
  elements (a ++ String "/" b) = elements a ++ elements b.
Proof.
  unfold elements at 1 2. rewrite splitElements_app.
  now destruct (splitElements a).
Qed.

Lemma splitElements_elem (e rest : string) :
  no_sep e = true ->
  splitElements (e ++ rest) =
  ((e ++ fst (splitElements rest))%string, snd (splitElements rest)).
Proof.
  induction e as [|c e IH]; intros H.
  - simpl. now destruct (splitElements rest).
  - simpl in H. apply andb_prop in H as [Hc He].
    cbn [append splitElements]. rewrite (IH He).
    apply negb_true_iff in Hc. now rewrite Hc.
Qed.

Lemma splitElements_endOrSep (rest : string) :
  endOrSep rest = true -> fst (splitElements rest) = "".
Proof.
  destruct rest as [|c rest]; [reflexivity|]. simpl. intros H. rewrite H.
  now destruct (splitElements rest).
Qed.

(** An element and what follows it. *)
Lemma elements_elem (e rest : string) :
  no_sep e = true -> endOrSep rest = true ->
  elements (e ++ rest) = e :: tl (elements rest).
Proof.
  intros He Hr. unfold elements. rewrite (splitElements_elem _ _ He).
  rewrite (splitElements_endOrSep _ Hr), append_empty_r.
  now destruct (splitElements rest).
Qed.

Lemma elements_name (e : string) : no_sep e = true -> elements e = [e].
Proof.
  intros He. rewrite <- (append_empty_r e) at 1.
  now rewrite (elements_elem e "" He eq_refl).
Qed.

Lemma walk_app (l1 l2 : list string) : forall rk,
  walk rk (l1 ++ l2) = walk (walk rk l1) l2.
Proof.
  induction l1 as [|e l1 IH]; intros rk; simpl; [reflexivity|].
  destruct (String.eqb e "" || String.eqb e "."); [apply IH|].
  destruct (String.eqb e ".."); apply IH.
Qed.

(** What follows an element begins with an empty element. *)
Lemma walk_endOrSep (rest : string) (rk : list string) :
  endOrSep rest = true ->
  walk rk (elements rest) = walk rk (tl (elements rest)).
Proof.
  intros Hr. unfold elements.
  pose proof (splitElements_endOrSep _ Hr) as H.
  destruct (splitElements rest) as [e es]. simpl in *. now subst e.
Qed.

Lemma walk_real (e : string) (rk l : list string) :
  real_name e = true -> walk rk (e :: l) = walk (e :: rk) l.
Proof.
  intros H. apply real_name_inv in H as (_ & H1 & H2 & H3).
  apply String.eqb_neq in H1, H2, H3. simpl. now rewrite H1, H2, H3.
Qed.

Lemma Buf_isRooted (rooted : bool) (str : string) (dd : nat)
    (ns : list string) (k : nat) :
  Buf rooted str dd ns k -> str <> "" -> isRooted str = rooted.
Proof.
  induction 1 as [|str k R B IH|str dd ns k e B IH E]; intros NE.
  - now destruct rooted.
  - destruct str as [|c str]; [now rewrite R|]. now apply IH.
  - destruct str as [|c str]; [|now apply IH].
    apply Buf_dotdot in B as (_ & _ & _ & B).
    destruct (B eq_refl) as (R & _). subst rooted. simpl.
    apply real_name_inv in E as (E1 & E2 & _).
    destruct e as [|c e]; [contradiction|]. simpl in *.
    apply andb_prop in E1 as [E1 _]. now apply negb_true_iff in E1.
Qed.

(** The place the buffer denotes: the names, above them as many steps up
    as there are [..] at its beginning. *)
Lemma Buf_walk (rooted : bool) (str : string) (dd : nat) (ns : list string)
    (k : nat) (rk0 : list string) :
  Buf rooted str dd ns k ->
  (rooted = true -> rk0 = []) ->
  walk rk0 (elements str) = ns ++ Nat.iter k (@tl string) rk0.
Proof.
  intros B R0.
  induction B as [|str k R B IH|str dd ns k e B IH E].
  - now destruct rooted.
  - destruct str as [|c str].
    + simpl in *. now rewrite <- IH.
    + change (Nat.ltb 0 (String.length (String c str))) with true. cbv iota.
      change ("/" ++ "..")%string with (String "/" "..").
      rewrite elements_app, walk_app, IH. reflexivity.
  - pose proof (real_name_inv _ E) as (E1 & _).
    destruct (needSep rooted (String.length str)) eqn:NS.
    + change ("/" ++ e)%string with (String "/" e).
      rewrite elements_app, walk_app, IH, (elements_name _ E1).
      now rewrite walk_real.
    + unfold needSep in NS. apply orb_false_elim in NS as [N1 N2].
      destruct rooted; simpl in N1, N2.
      * apply negb_false_iff, Nat.eqb_eq in N1.
        pose proof (Buf_isRooted B) as HR.
        destruct str as [|c [|c' str]]; try discriminate.
        specialize (HR ltac:(discriminate)). simpl in HR.
        unfold IsPathSeparator in HR. apply Ascii.eqb_eq in HR. subst c.
        change (String Separator "" ++ "" ++ e)%string
          with ("" ++ String "/" e)%string.
        rewrite elements_app, walk_app, (elements_name _ E1).
        rewrite walk_real by assumption.
        simpl in IH. simpl. now rewrite <- IH.
      * apply negb_false_iff, Nat.eqb_eq in N2.
        destruct str; [|discriminate]. simpl append.
        rewrite (elements_name _ E1), walk_real by assumption.
        simpl in IH. simpl. now rewrite <- IH.
Qed.

Lemma copyElement_elem (s : string) : forall out : lazybuf,
  exists e rest,
    s = (e ++ rest)%string /\ no_sep e = true /\ endOrSep rest = true /\
    copyElement s out = (rest, rev (bytes e) ++ out).
Proof.
  induction s as [|c s IH]; intros out.
  - exists "", "". auto.
  - simpl. destruct (IsPathSeparator c) eqn:Sep.
    + exists "", (String c s). simpl. auto.
    + destruct (IH (c :: out)) as (e & rest & Hs & He & Hr & Hc).
      exists (String c e), rest. simpl. rewrite Sep, He, Hc, <- app_assoc.
      subst s. auto.
Qed.

(** Going back over the bytes of an element. *)
Lemma backtrack_elem (l : lazybuf) : forall (cur cur0 : ascii)
    (tail : lazybuf) (dotdot : nat),
  Forall (fun c => IsPathSeparator c = false) l ->
  IsPathSeparator cur = false -> IsPathSeparator cur0 = false ->
  dotdot <= List.length tail ->
  backtrack cur (l ++ tail) dotdot = backtrack cur0 tail dotdot.
Proof.
  induction l as [|x l IH]; intros cur cur0 tail dotdot Hl Hc Hc0 Hd.
  - destruct tail; simpl; [reflexivity|]. now rewrite Hc, Hc0.
  - inversion Hl; subst. cbn [app backtrack]. rewrite Hc.
    assert (L : Nat.ltb dotdot (List.length (x :: l ++ tail)) = true).
    { apply Nat.ltb_lt. simpl. rewrite length_app. lia. }
    rewrite L. simpl. now apply IH.
Qed.

Lemma no_sep_bytes (e : string) :
  no_sep e = true -> Forall (fun c => IsPathSeparator c = false) (bytes e).
Proof.
  induction e as [|c e IH]; simpl; intros H; [constructor|].
  apply andb_prop in H as [H1 H2]. constructor; [|auto].
  now apply negb_true_iff.
Qed.

(** [..] after a name takes the name and its separator off the buffer. *)
Lemma backtrack_name (rooted : bool) (str : string) (dd : nat)
    (ns : list string) (k : nat) (e : string) :
  Buf rooted str dd ns k ->
  real_name e = true ->
  exists b out',
    rev (bytes (str ++ (if needSep rooted (String.length str)
                        then "/" else "") ++ e)) = b :: out' /\
    backtrack b out' dd = rev (bytes str).
Proof.
  intros B E. pose proof (real_name_inv _ E) as (E1 & E2 & _).
  pose proof (Buf_dotdot B) as (D1 & D2 & _).
  assert (Dle : dd <= String.length str).
  { destruct ns; [rewrite D1 by reflexivity; lia|].
    specialize (D2 ltac:(discriminate)). lia. }
  pose proof (no_sep_bytes _ E1) as F. apply Forall_rev in F.
  rewrite !bytes_app, !rev_app_distr.
  destruct (rev (bytes e)) as [|b l] eqn:Re.
  { apply (f_equal (@List.length ascii)) in Re.
    rewrite length_rev, bytes_length in Re.
    destruct e; [contradiction|discriminate]. }
  inversion F as [|? ? Fb Fl]; subst.
  exists b, (l ++ rev (bytes (if needSep rooted (String.length str)
                               then "/" else "")) ++ rev (bytes str)).
  split; [now rewrite <- app_assoc|].
  rewrite (@backtrack_elem l b b); auto;
    [|rewrite !length_app, !length_rev, !bytes_length; lia].
  destruct (needSep rooted (String.length str)) eqn:NS; simpl.
  - rewrite Fb.
    assert (L : Nat.ltb dd (S (List.length (rev (bytes str)))) = true).
    { apply Nat.ltb_lt. rewrite length_rev, bytes_length. lia. }
    rewrite L. simpl. destruct (rev (bytes str)); [reflexivity|].
    simpl. now rewrite andb_false_r.
  - assert (Deq : dd = String.length str).
    { unfold needSep in NS. apply orb_false_elim in NS as [N1 N2].
      pose proof (Buf_dotdot B) as (_ & _ & _ & D4).
      destruct ns as [|n ns]; [now apply D1|]. exfalso.
      destruct rooted; simpl in N1, N2.
      - apply negb_false_iff, Nat.eqb_eq in N1.
        clear - B N1. remember (n :: ns) as l eqn:Hl. revert n ns Hl.
        induction B as [|str k R B IH|str dd0 ns0 k e B IH E];
          intros n ns Hl; try discriminate.
        rewrite !length_append in N1.
        pose proof (real_name_length _ E).
        assert (String.length str = 0) by lia.
        destruct str; [|discriminate].
        apply Buf_dotdot in B as (_ & _ & _ & B).
        destruct (B eq_refl); discriminate.
      - apply negb_false_iff, Nat.eqb_eq in N2.
        destruct str; [|discriminate].
        destruct (D4 eq_refl) as (_ & ? & _). discriminate. }
    destruct (rev (bytes str)) as [|x t] eqn:Rs; [reflexivity|].
    simpl.
    assert (L : Nat.ltb dd (S (List.length t)) = false).
    { apply Nat.ltb_ge. apply (f_equal (@List.length ascii)) in Rs.
      rewrite length_rev, bytes_length in Rs. simpl in Rs. lia. }
    now rewrite L.
Qed.

Lemma elements_sep (c : ascii) (s1 : string) :
  IsPathSeparator c = true -> elements (String c s1) = "" :: elements s1.
Proof.
  intros H. unfold elements. simpl. rewrite H.
  now destruct (splitElements s1).
Qed.

(** One round of the loop keeps the shape of the buffer, and the place
    denoted by the buffer followed by the unread part of the path. *)
Lemma cleanStep_place (rooted : bool) (c : ascii) (s1 : string)
    (str : string) (dd : nat) (ns : list string) (k : nat)
    (rk0 : list string) :
  Buf rooted str dd ns k ->
  (rooted = true -> rk0 = []) ->
  exists s' str' dd' ns' k',
    cleanStep rooted c s1 (rev (bytes str)) dd = (s', rev (bytes str'), dd') /\
    Buf rooted str' dd' ns' k' /\
    walk (ns' ++ Nat.iter k' (@tl string) rk0) (elements s')
    = walk (ns ++ Nat.iter k (@tl string) rk0) (elements (String c s1)).
Proof.
  intros B R0. unfold cleanStep.
  assert (Len : List.length (rev (bytes str)) = String.length str)
    by now rewrite length_rev, bytes_length.
  destruct (IsPathSeparator c) eqn:Sep.
  { exists s1, str, dd, ns, k. split; [reflexivity|]. split; [assumption|].
    now rewrite (elements_sep c s1 Sep). }
  destruct (Ascii.eqb c "." && endOrSep s1) eqn:Dot.
  { apply andb_prop in Dot as [Hc Hs]. apply Ascii.eqb_eq in Hc. subst c.
    exists s1, str, dd, ns, k. split; [reflexivity|]. split; [assumption|].
    change (String "." s1) with ("." ++ s1)%string.
    rewrite (elements_elem "." s1 eq_refl Hs).
    now rewrite (walk_endOrSep _ _ Hs). }
  match goal with |- context [if ?b then _ else _] => destruct b eqn:DotDot end.
  - apply andb_prop in DotDot as [Hc Hs]. apply Ascii.eqb_eq in Hc. subst c.
    destruct s1 as [|c1 s2]; [discriminate|].
    apply andb_prop in Hs as [Hc Hs]. apply Ascii.eqb_eq in Hc. subst c1.
    assert (Up : forall cur,
              walk cur (elements (String "." (String "." s2)))
              = walk (tl cur) (elements s2)).
    { intros cur. change (String "." (String "." s2)) with (".." ++ s2)%string.
      rewrite (elements_elem ".." s2 eq_refl Hs).
      now rewrite (walk_endOrSep _ (tl cur) Hs). }
    rewrite Len.
    pose proof (Buf_dotdot B) as (D1 & D2 & D3 & _).
    destruct (Nat.ltb dd (String.length str)) eqn:Lt.
    + apply Nat.ltb_lt in Lt.
      destruct ns as [|e ns]; [specialize (D1 eq_refl); lia|].
      inversion B as [| |str0 dd0 ns0 k0 e0 B0 E0]; subst.
      destruct (backtrack_name e B0 E0) as (b & out' & Hr & Hb).
      rewrite Hr, Hb.
      exists s2, str0, dd, ns, k. split; [reflexivity|]. split; [assumption|].
      now rewrite Up.
    + apply Nat.ltb_ge in Lt.
      destruct ns as [|e ns]; [|specialize (D2 ltac:(discriminate)); lia].
      specialize (D1 eq_refl). subst dd.
      destruct rooted; cbn [negb].
      * exists s2, str, (String.length str), [], k.
        split; [reflexivity|]. split; [assumption|].
        rewrite Up. rewrite (D3 eq_refl), (R0 eq_refl). reflexivity.
      * exists s2,
          (str ++ (if Nat.ltb 0 (String.length str) then "/" else "")
               ++ "..")%string,
          (String.length
             (str ++ (if Nat.ltb 0 (String.length str) then "/" else "")
                  ++ "..")),
          [], (S k).
        split; [|split].
        -- rewrite !bytes_app, !rev_app_distr.
           destruct (Nat.ltb 0 (String.length str)); simpl;
             rewrite ?length_append, ?Len; simpl;
             repeat f_equal; lia.
        -- now apply Buf_dots.
        -- now rewrite Up.
  - match goal with |- context [copyElement (String c s1) ?o] =>
      destruct (copyElement_elem (String c s1) o)
        as (e & rest & Hs & He & Hr & Hc)
    end.
    rewrite Hc.
    assert (E : real_name e = true).
    { unfold real_name. rewrite He.
      destruct e as [|x [|y [|z e]]]; simpl in Hs.
      - subst rest. simpl in Hr. congruence.
      - injection Hs as Hx Hs1. subst x s1. rewrite Hr in Dot.
        rewrite andb_true_r in Dot. simpl. now rewrite Dot.
      - injection Hs as Hx Hs1. subst x s1. simpl in DotDot.
        rewrite Hr, andb_true_r in DotDot. simpl.
        destruct (Ascii.eqb c "."); [|reflexivity].
        simpl in DotDot. now rewrite DotDot.
      - simpl. destruct (Ascii.eqb x "."), (Ascii.eqb y "."); reflexivity. }
    exists rest,
      (str ++ (if needSep rooted (String.length str) then "/" else "")
           ++ e)%string,
      dd, (e :: ns), k.
    split; [|split].
    + rewrite Len. fold (needSep rooted (String.length str)).
      rewrite !bytes_app, !rev_app_distr.
      destruct (needSep rooted (String.length str)); simpl;
        now rewrite <- ?app_assoc.
    + now apply Buf_name.
    + rewrite Hs, (elements_elem _ _ He Hr).
      cbn [app]. rewrite walk_real by assumption.
      now rewrite (walk_endOrSep _ _ Hr).
Qed.

Lemma cleanLoop_place (rooted : bool) (rk0 : list string) :
  (rooted = true -> rk0 = []) ->
  forall (fuel : nat) (s str : string) (dd : nat) (ns : list string) (k : nat),
    String.length s <= fuel ->
    Buf rooted str dd ns k ->
    exists str' dd' ns' k',
      cleanLoop fuel rooted s (rev (bytes str)) dd = rev (bytes str') /\
      Buf rooted str' dd' ns' k' /\
      ns' ++ Nat.iter k' (@tl string) rk0
      = walk (ns ++ Nat.iter k (@tl string) rk0) (elements s).
Proof.
  intros R0. induction fuel as [|fuel IH]; intros s str dd ns k L B.
  - destruct s; [|simpl in L; lia]. exists str, dd, ns, k. auto.
  - destruct s as [|c s1]; [exists str, dd, ns, k; auto|].
    cbn [cleanLoop].
    destruct (cleanStep_place c s1 B R0)
      as (s' & str' & dd' & ns' & k' & E & B' & W).
    pose proof (cleanStep_shorter rooted c s1 (rev (bytes str)) dd) as Sh.
    rewrite E in *. simpl in Sh, L.
    destruct (IH s' str' dd' ns' k' ltac:(lia) B')
      as (str2 & dd2 & ns2 & k2 & E2 & B2 & W2).
    exists str2, dd2, ns2, k2. split; [assumption|]. split; [assumption|].
    now rewrite W2, W.
Qed.

Lemma Clean_out (str : string) :
  str <> "" ->
  match rev (bytes str) with
  | [] => "."
  | a :: l => string_of_list (rev (a :: l))
  end = str.
Proof.
  intros NE. destruct (rev (bytes str)) eqn:R.
  - apply (f_equal (@List.length ascii)) in R.
    rewrite length_rev, bytes_length in R.
    destruct str; [contradiction|discriminate].
  - rewrite <- R, rev_involutive. apply string_of_bytes.
Qed.

(** [filepath.Clean] does not change the place that a path denotes. *)
Lemma Clean_place (cwd : key) (path : string) :
  path <> "" -> key_of cwd (Clean path) = key_of cwd path.
Proof.
  intros NE. destruct path as [|c0 rest]; [contradiction|].
  rewrite Clean_cons. cbn [key_of].
  destruct (IsPathSeparator c0) eqn:Sep.
  - destruct (@cleanLoop_place true [] (fun _ => eq_refl)
                (S (String.length rest)) rest "/" 1 [] 0
                ltac:(lia) (Buf_start true))
      as (str & dd & ns & k & E & B & W).
    change (rev (bytes "/")) with [Separator] in E. rewrite E.
    pose proof (Buf_dotdot B) as (_ & _ & _ & D).
    destruct str as [|c str]; [destruct (D eq_refl); discriminate|].
    rewrite (@Clean_out (String c str)) by discriminate. cbn [key_of].
    pose proof (Buf_isRooted B ltac:(discriminate)) as HR. simpl in HR.
    rewrite HR, (Buf_walk B (fun _ => eq_refl)), W.
    now rewrite (elements_sep c0 rest Sep).
  - destruct (@cleanLoop_place false (rev cwd) ltac:(discriminate)
                (S (String.length rest)) (String c0 rest) "" 0 [] 0
                ltac:(simpl; lia) (Buf_start false))
      as (str & dd & ns & k & E & B & W).
    change (rev (bytes "")) with (@nil ascii) in E. rewrite E.
    pose proof (Buf_dotdot B) as (_ & _ & _ & D).
    destruct str as [|c str].
    + destruct (D eq_refl) as (_ & -> & ->). simpl in W.
      simpl. now rewrite <- W.
    + rewrite (@Clean_out (String c str)) by discriminate. cbn [key_of].
      pose proof (Buf_isRooted B ltac:(discriminate)) as HR. simpl in HR.
      rewrite HR, (Buf_walk B ltac:(discriminate)), W. reflexivity.
Qed.

(** The place of a path below a directory. *)
Lemma key_of_below (cwd : key) (dir r : string) (kh : key) :
  key_of cwd dir = Some kh ->
  key_of cwd (dir ++ String "/" r) = Some (rev (walk (rev kh) (elements r))).
Proof.
  destruct dir as [|c dir]; [discriminate|]. cbn [key_of append].
  intros H. inversion H as [Hk]. rewrite rev_involutive.
  change (String c (dir ++ String "/" r))
    with (String c dir ++ String "/" r)%string.
  now rewrite elements_app, walk_app.
Qed.

(** The place of [~] followed by a slash and a remainder, when the home
    directory is at [kh]. *)
Lemma expandHomeDir_place (env : Env) (cwd : key) (dir r : string) (kh : key) :
  home env = (dir, None) ->
  key_of cwd dir = Some kh ->
  key_of cwd (fst (expandHomeDir env (String "~" (String "/" r))))
  = Some (rev (walk (rev kh) (elements r))).
Proof.
  intros H K. pose proof (home_found env H) as Hd.
  rewrite expandHomeDir_marked by reflexivity. rewrite H. cbn [fst].
  rewrite Join_home_slash by assumption.
  rewrite Clean_place.
  - exact (key_of_below cwd dir r K).
  - destruct dir; [contradiction|discriminate].
Qed.

Lemma prefixb_diverge (kh : key) (a b : string) (k1 k2 : key) :
  String.eqb a b = false ->
  prefixb (kh ++ a :: k1) (kh ++ b :: k2) = false.
Proof.
  intros H. induction kh as [|n kh IH]; simpl.
  - now rewrite H.
  - now rewrite String.eqb_refl.
Qed.

(* ================================================================== *)
(** * The migration, from the home directory *)

(** C2, as the code has it: let the home directory be at the place [kh] of
    a well-formed tree, with the legacy directory [kh/.wtf] a directory and
    the current directory [kh/.config/wtf] not to be found.
    - If the copy fails, the migrator panics with the error of the copy, in
      the world the copy left.
    - If the copy succeeds, the migrator returns, and every file that was
      under the legacy directory is under the current directory at the same
      relative path with the same mode and bytes. Then either the removal
      of the legacy directory, run in the world the copy left, returned no
      error: the legacy directory is gone and nothing was printed. Or that
      removal returned an error: the world is the one the removal left, with
      that very error printed, and nothing else.
    - The copy does succeed when the current directory is missing (ENOENT),
      its parent [kh/.config] is a directory and the system injects no
      failure: the migrator then returns, the tree is the one it found with
      the legacy tree put at the current directory and the legacy directory
      taken out, so the current directory is the legacy tree as it was and
      the legacy directory is gone; nothing is printed. *)
Theorem migrateOldConfig_migrates (env : Env) (w : World) (dir : string)
    (kh : key) (m : N) (es : list (string * node)) (e : Errno) :
  home env = (dir, None) ->
  key_of (cwd w) dir = Some kh ->
  wf (root w) = true ->
  find (root w) (kh ++ [".wtf"]) = inr (Dir m es) ->
  find (root w) (kh ++ [".config"; "wtf"]) = inl e ->
  (forall err wc,
      Copy (fst (expandHomeDir env WtfConfigDirV1))
           (fst (expandHomeDir env WtfConfigDirV2)) w = (inl (Some err), wc) ->
      migrateOldConfig env w = (inr (Panicked (Some err)), wc)) /\
  (forall wc,
      Copy (fst (expandHomeDir env WtfConfigDirV1))
           (fst (expandHomeDir env WtfConfigDirV2)) w = (inl None, wc) ->
      exists w',
        migrateOldConfig env w = (inl tt, w') /\
        (forall rel m0 d,
            find (root w) ((kh ++ [".wtf"]) ++ rel) = inr (File m0 d) ->
            find (root w') ((kh ++ [".config"; "wtf"]) ++ rel)
            = inr (File m0 d)) /\
        ((os_RemoveAll (fst (expandHomeDir env WtfConfigDirV1)) wc
          = (inl None, w') /\
          find (root w') (kh ++ [".wtf"]) = inl ENOENT /\
          stdout w' = stdout w) \/
         (exists err wr,
             os_RemoveAll (fst (expandHomeDir env WtfConfigDirV1)) wc
             = (inl (Some err), wr) /\
             w' = with_stdout wr (stdout w ++ [Println err])))) /\
  (faults w = [] -> e = ENOENT ->
   forall mx esx,
     find (root w) (kh ++ [".config"]) = inr (Dir mx esx) ->
     exists w' r,
       migrateOldConfig env w = (inl tt, w') /\
       put (root w) (kh ++ [".config"; "wtf"]) (Dir m es) = inr r /\
       root w' = remove r (kh ++ [".wtf"]) /\
       find (root w') (kh ++ [".config"; "wtf"]) = inr (Dir m es) /\
       find (root w') (kh ++ [".wtf"]) = inl ENOENT /\
       stdout w' = stdout w).
Proof.
  intros H K W Fs Fd.
  assert (Ks : key_of (cwd w) (fst (expandHomeDir env WtfConfigDirV1))
               = Some (kh ++ [".wtf"])).
  { unfold WtfConfigDirV1.
    rewrite (expandHomeDir_place env (cwd w) ".wtf/" H K).
    simpl. now rewrite rev_involutive. }
  assert (Kd : key_of (cwd w) (fst (expandHomeDir env WtfConfigDirV2))
               = Some (kh ++ [".config"; "wtf"])).
  { unfold WtfConfigDirV2.
    rewrite (expandHomeDir_place env (cwd w) ".config/wtf/" H K).
    simpl. rewrite rev_involutive. now rewrite <- !app_assoc. }
  assert (N1 : prefixb (kh ++ [".wtf"]) (kh ++ [".config"; "wtf"]) = false)
    by now apply prefixb_diverge.
  assert (N2 : prefixb (kh ++ [".config"; "wtf"]) (kh ++ [".wtf"]) = false)
    by now apply prefixb_diverge.
  pose proof (@migrateOldConfig_migrates_at env w _ _ m es e W Ks Kd Fs Fd N1)
    as At.
  split; [|split].
  - intros err wc E. now rewrite E in At.
  - intros wc E. now rewrite E in At.
  - intros Hf He mx esx FX. subst e.
    destruct (@migrateOldConfig_quiet_at env w _ _ m es W Ks Kd Fs Fd N1 N2 Hf)
      as (w' & E & F1 & F2 & So & r1 & r & Mk & P & R).
    exists w', r. split; [exact E|].
    split; [|split; [exact R|split; [exact F1|split; [exact F2|exact So]]]].
    assert (A : kh ++ [".config"; "wtf"] = (kh ++ [".config"]) ++ ["wtf"])
      by now rewrite <- app_assoc.
    assert (L : lookup_entry "wtf" esx = None).
    { rewrite A, find_app, FX in Fd. simpl in Fd.
      destruct (lookup_entry "wtf" esx); [discriminate|reflexivity]. }
    rewrite A in Mk.
    rewrite (@mkdirAll_fresh (kh ++ [".config"]) (root w) mx esx "wtf" m FX L)
      in Mk.
    rewrite <- A in Mk. rewrite <- P. symmetry.
    eapply put_put_same; exact Mk.
Qed.

Lemma migrateOldConfig_migrates_witness :
  migrateOldConfig env_u (w_legacy [Some ENOSPC])
  = (inr (Panicked (Some (PathError "copy" "/home/u/.config/wtf" ENOSPC))),
     w_legacy []) /\
  (exists w',
      migrateOldConfig env_u (w_legacy [None; None; None; None; Some EACCES])
      = (inl tt, w') /\
      (forall rel m0 d,
          find (root (w_legacy [None; None; None; None; Some EACCES]))
            ((["home"; "u"] ++ [".wtf"]) ++ rel) = inr (File m0 d) ->
          find (root w') ((["home"; "u"] ++ [".config"; "wtf"]) ++ rel)
          = inr (File m0 d)) /\
      ((os_RemoveAll (fst (expandHomeDir env_u WtfConfigDirV1))
          (snd (Copy "/home/u/.wtf" "/home/u/.config/wtf"
                  (w_legacy [None; None; None; None; Some EACCES])))
        = (inl None, w') /\
        find (root w') (["home"; "u"] ++ [".wtf"]) = inl ENOENT /\
        stdout w' = []) \/
       (exists err wr,
           os_RemoveAll (fst (expandHomeDir env_u WtfConfigDirV1))
             (snd (Copy "/home/u/.wtf" "/home/u/.config/wtf"
                     (w_legacy [None; None; None; None; Some EACCES])))
           = (inl (Some err), wr) /\
           w' = with_stdout wr ([] ++ [Println err])))) /\
  (exists w' r,
      migrateOldConfig env_u (w_legacy []) = (inl tt, w') /\
      put (root (w_legacy [])) (["home"; "u"] ++ [".config"; "wtf"]) legacy_tree
      = inr r /\
      root w' = remove r (["home"; "u"] ++ [".wtf"]) /\
      find (root w') (["home"; "u"] ++ [".config"; "wtf"]) = inr legacy_tree /\
      find (root w') (["home"; "u"] ++ [".wtf"]) = inl ENOENT /\
      stdout w' = []).
Proof.
  split; [|split].
  - apply (proj1 (@migrateOldConfig_migrates env_u (w_legacy [Some ENOSPC])
                    "/home/u" ["home"; "u"] 448%N _ ENOENT
                    eq_refl eq_refl eq_refl eq_refl eq_refl)).
    reflexivity.
  - apply (proj1 (proj2 (@migrateOldConfig_migrates env_u
                           (w_legacy [None; None; None; None; Some EACCES])
                           "/home/u" ["home"; "u"] 448%N _ ENOENT
                           eq_refl eq_refl eq_refl eq_refl eq_refl))
             (snd (Copy "/home/u/.wtf" "/home/u/.config/wtf"
                     (w_legacy [None; None; None; None; Some EACCES])))).
    reflexivity.
  - apply (proj2 (proj2 (@migrateOldConfig_migrates env_u (w_legacy [])
                           "/home/u" ["home"; "u"] 448%N _ ENOENT
                           eq_refl eq_refl eq_refl eq_refl eq_refl))
             eq_refl eq_refl 493%N []).
    reflexivity.
Defined.

(** C2 as stated fails. With [~/.config] a regular file, the legacy
    directory exists and the current one does not, yet the copy cannot make
    the current directory: the migrator panics, nothing is under the current
    directory and the legacy directory is still there. And when the disk
    fills up after the first file, the migrator panics with the current
    directory half made: [settings.txt] is there, [modules/clock.yml] is
    not, and the legacy directory is still there. *)
Lemma migrateOldConfig_copy_failure_counterexample :
  (fst (expandHomeDir env_u WtfConfigDirV1) = "/home/u/.wtf" /\
   fst (expandHomeDir env_u WtfConfigDirV2) = "/home/u/.config/wtf") /\
  (node_at w_blocked "/home/u/.wtf" = inr legacy_tree /\
   node_at w_blocked "/home/u/.config/wtf" = inl ENOTDIR /\
   migrateOldConfig env_u w_blocked
   = (inr (Panicked (Some (PathError "copy" "/home/u/.config/wtf" ENOTDIR))),
      w_blocked) /\
   node_at w_blocked "/home/u/.config/wtf/settings.txt" = inl ENOTDIR /\
   stdout w_blocked = []) /\
  (node_at (w_legacy [None; None; Some ENOSPC]) "/home/u/.wtf"
   = inr legacy_tree /\
   node_at (w_legacy [None; None; Some ENOSPC]) "/home/u/.config/wtf"
   = inl ENOENT /\
   fst (migrateOldConfig env_u (w_legacy [None; None; Some ENOSPC]))
   = inr (Panicked
            (Some (PathError "copy" "/home/u/.config/wtf/modules" ENOSPC))) /\
   node_at (snd (migrateOldConfig env_u (w_legacy [None; None; Some ENOSPC])))
     "/home/u/.config/wtf/settings.txt" = inr (File 420 "abc") /\
   node_at (snd (migrateOldConfig env_u (w_legacy [None; None; Some ENOSPC])))
     "/home/u/.config/wtf/modules/clock.yml" = inl ENOENT /\
   node_at (snd (migrateOldConfig env_u (w_legacy [None; None; Some ENOSPC])))
     "/home/u/.wtf/modules/clock.yml" = inr (File 384 "utc") /\
   stdout (snd (migrateOldConfig env_u (w_legacy [None; None; Some ENOSPC])))
   = []).
Proof.
  repeat split.
Qed.


(* ================================================================== *)
(** * More on path resolution *)

Lemma Clean_not_empty (path : string) : Clean path <> "".
Proof.
  destruct path as [|c0 rest]; [discriminate|]. rewrite Clean_cons.
  match goal with |- context [match ?o with [] => _ | _ => _ end] =>
    destruct o as [|a l] eqn:O end; [discriminate|].
  intros H. apply (f_equal bytes) in H.
  assert (B : forall l0, bytes (string_of_list l0) = l0)
    by (induction l0; simpl; congruence).
  rewrite B in H. simpl in H.
  apply (f_equal (@List.length ascii)) in H.
  rewrite length_app in H. simpl in H. lia.
Qed.

(** [filepath.Clean] keeps a rooted path rooted and a relative path
    relative. *)
Lemma Clean_rooted (path : string) :
  path <> "" -> isRooted (Clean path) = isRooted path.
Proof.
  intros NE. destruct path as [|c0 rest]; [contradiction|].
  rewrite Clean_cons. cbn [isRooted].
  destruct (IsPathSeparator c0) eqn:Sep.
  - destruct (@cleanLoop_place true [] (fun _ => eq_refl)
                (S (String.length rest)) rest "/" 1 [] 0
                ltac:(lia) (Buf_start true))
      as (str & dd & ns & k & E & B & _).
    change (rev (bytes "/")) with [Separator] in E. rewrite E.
    pose proof (Buf_dotdot B) as (_ & _ & _ & D).
    destruct str as [|c str]; [destruct (D eq_refl); discriminate|].
    rewrite (@Clean_out (String c str)) by discriminate.
    apply (Buf_isRooted B). discriminate.
  - destruct (@cleanLoop_place false [] ltac:(discriminate)
                (S (String.length rest)) (String c0 rest) "" 0 [] 0
                ltac:(simpl; lia) (Buf_start false))
      as (str & dd & ns & k & E & B & _).
    change (rev (bytes "")) with (@nil ascii) in E. rewrite E.
    destruct str as [|c str]; [reflexivity|].
    rewrite (@Clean_out (String c str)) by discriminate.
    apply (Buf_isRooted B). discriminate.
Qed.

(** The result for a path with the marker, through [Clean]. *)
Lemma expandHomeDir_marked_Clean (env : Env) (dir path : string) :
  home env = (dir, None) ->
  markedPath path = true ->
  expandHomeDir env path =
  (Clean (dir ++ String "/"
            match path with String _ rest => rest | EmptyString => "" end),
   None).
Proof.
  intros H M. pose proof (home_found env H) as Hd.
  rewrite expandHomeDir_marked by assumption. rewrite H.
  cbn [Join strings_Join].
  destruct (String.eqb dir "") eqn:E; [|reflexivity].
  apply String.eqb_eq in E. contradiction.
Qed.

Lemma markedPath_cases (path : string) :
  beginsWithMarker path = true ->
  markedPath path = true \/
  exists c rest, path = String "~" (String c rest) /\ isSeparator c = false.
Proof.
  destruct path as [|c0 [|c1 rest]]; simpl; try discriminate.
  - intros H. left. now rewrite H.
  - intros H. rewrite H. apply Ascii.eqb_eq in H. subst c0. simpl.
    unfold isSeparator.
    destruct (Ascii.eqb c1 "/" || Ascii.eqb c1 "\") eqn:E; [now left|].
    right. eauto.
Qed.

(** X1: path resolution never returns a path together with an error (on an
    error the path is empty), and it returns the empty path without an
    error only for the empty input. *)
Theorem expandHomeDir_path_or_error (env : Env) (path : string) :
  (forall e, snd (expandHomeDir env path) = Some e ->
             fst (expandHomeDir env path) = "") /\
  (snd (expandHomeDir env path) = None ->
   fst (expandHomeDir env path) = "" -> path = "").
Proof.
  split; [apply expandHomeDir_failure|].
  destruct (beginsWithMarker path) eqn:B.
  - destruct (markedPath_cases path B) as [M|(c & rest & -> & Hc)].
    + destruct (home env) as [dir [e|]] eqn:H.
      * rewrite expandHomeDir_marked, H by assumption. discriminate.
      * rewrite (expandHomeDir_marked_Clean env path H M). cbn [fst snd].
        intros _ HC. now apply Clean_not_empty in HC.
    + unfold isSeparator in Hc. apply orb_false_elim in Hc as [H1 H2].
      unfold expandHomeDir. simpl. rewrite H1, H2. discriminate.
  - destruct path as [|c rest]; [reflexivity|].
    unfold expandHomeDir. simpl in *. rewrite B. simpl. auto.
Qed.

Lemma expandHomeDir_path_or_error_witness :
  fst (expandHomeDir env_u "~user/.wtf") = "" /\
  (fst (expandHomeDir env_u "") = "" -> "" = "").
Proof.
  split.
  - apply (proj1 (expandHomeDir_path_or_error env_u "~user/.wtf")
             (errors_New "cannot expand user-specific home dir")).
    reflexivity.
  - apply (proj2 (expandHomeDir_path_or_error env_u "")). reflexivity.
Defined.

(** X2: with a rooted (absolute) home directory, a path with the marker
    resolves to a rooted path, and resolving that result again, in any
    environment, returns it unchanged without error. *)
Theorem expandHomeDir_rooted_fixpoint (env env' : Env) (dir path : string) :
  home env = (dir, None) ->
  isRooted dir = true ->
  markedPath path = true ->
  isRooted (fst (expandHomeDir env path)) = true /\
  expandHomeDir env' (fst (expandHomeDir env path))
  = (fst (expandHomeDir env path), None).
Proof.
  intros H R M. rewrite (expandHomeDir_marked_Clean env path H M).
  cbn [fst].
  set (q := (dir ++ String "/" match path with
                               | String _ rest => rest
                               | EmptyString => ""
                               end)%string).
  assert (Rq : isRooted (Clean q) = true).
  { rewrite Clean_rooted.
    - subst q. destruct dir; [discriminate|exact R].
    - subst q. destruct dir; discriminate. }
  split; [exact Rq|].
  destruct (Clean q) as [|c s]; [discriminate|].
  unfold expandHomeDir. simpl in Rq |- *.
  unfold IsPathSeparator in Rq. apply Ascii.eqb_eq in Rq. now subst c.
Qed.

Lemma expandHomeDir_rooted_fixpoint_witness :
  isRooted (fst (expandHomeDir env_u "~/.config/wtf/")) = true /\
  expandHomeDir env_none (fst (expandHomeDir env_u "~/.config/wtf/"))
  = (fst (expandHomeDir env_u "~/.config/wtf/"), None).
Proof.
  apply (@expandHomeDir_rooted_fixpoint env_u env_none "/home/u"
           "~/.config/wtf/"); reflexivity.
Defined.

(** X3: when the home directory is known and denotes the place [kh], the
    resolution of [~] followed by [rest] denotes the place reached from
    [kh] by walking the elements of [rest], [.] and [..] included; the
    marker alone denotes [kh] itself. *)
Theorem expandHomeDir_denotes (env : Env) (cwd : key) (dir rest : string)
    (kh : key) :
  home env = (dir, None) ->
  key_of cwd dir = Some kh ->
  markedPath (String "~" rest) = true ->
  key_of cwd (fst (expandHomeDir env (String "~" rest)))
  = Some (rev (walk (rev kh) (elements rest))).
Proof.
  intros H K M. rewrite (expandHomeDir_marked_Clean env _ H M). cbn [fst].
  rewrite Clean_place by (destruct dir; discriminate).
  now apply key_of_below.
Qed.

Lemma expandHomeDir_denotes_witness :
  key_of [] (fst (expandHomeDir env_u "~/../v/./.wtf"))
  = Some ["home"; "v"; ".wtf"] /\
  key_of [] (fst (expandHomeDir env_u "~")) = Some ["home"; "u"].
Proof.
  split.
  - apply (@expandHomeDir_denotes env_u [] "/home/u" "/../v/./.wtf"
             ["home"; "u"]); reflexivity.
  - apply (@expandHomeDir_denotes env_u [] "/home/u" "" ["home"; "u"]);
      reflexivity.
Defined.

(* ================================================================== *)
(** * The places of the program *)

Lemma home_place (env : Env) (cwd : key) (dir : string) :
  home env = (dir, None) -> exists kh, key_of cwd dir = Some kh.
Proof.
  intros H. apply home_found in H. destruct dir; [contradiction|].
  simpl. eauto.
Qed.

Lemma XdgConfigDir_place (env : Env) (cwd : key) (dir : string) (kh : key) :
  home env = (dir, None) ->
  key_of cwd dir = Some kh ->
  key_of cwd (fst (expandHomeDir env XdgConfigDir)) = Some (kh ++ [".config"]).
Proof.
  intros H K. unfold XdgConfigDir.
  rewrite (expandHomeDir_place env cwd ".config/" H K).
  simpl. now rewrite rev_involutive.
Qed.

Lemma WtfConfigDirV1_place (env : Env) (cwd : key) (dir : string) (kh : key) :
  home env = (dir, None) ->
  key_of cwd dir = Some kh ->
  key_of cwd (fst (expandHomeDir env WtfConfigDirV1)) = Some (kh ++ [".wtf"]).
Proof.
  intros H K. unfold WtfConfigDirV1.
  rewrite (expandHomeDir_place env cwd ".wtf/" H K).
  simpl. now rewrite rev_involutive.
Qed.

Lemma WtfConfigDirV2_place (env : Env) (cwd : key) (dir : string) (kh : key) :
  home env = (dir, None) ->
  key_of cwd dir = Some kh ->
  key_of cwd (fst (expandHomeDir env WtfConfigDirV2))
  = Some (kh ++ [".config"; "wtf"]).
Proof.
  intros H K. unfold WtfConfigDirV2.
  rewrite (expandHomeDir_place env cwd ".config/wtf/" H K).
  simpl. rewrite rev_involutive. now rewrite <- !app_assoc.
Qed.

Lemma WtfConfigDir_found (env : Env) (dir : string) :
  home env = (dir, None) ->
  WtfConfigDir env = (fst (expandHomeDir env WtfConfigDirV2), None).
Proof.
  intros H. unfold WtfConfigDir.
  now rewrite (@expandHomeDir_marked_Clean env dir WtfConfigDirV2 H eq_refl).
Qed.

Lemma WtfConfigDir_known (env : Env) (configDir : string) :
  WtfConfigDir env = (configDir, None) ->
  exists dir, home env = (dir, None).
Proof.
  unfold WtfConfigDir.
  rewrite (@expandHomeDir_marked env WtfConfigDirV2 eq_refl).
  destruct (home env) as [dir [e|]]; [discriminate|]. eauto.
Qed.

(** The place of a file of the configuration directory. *)
Lemma configFile_place (env : Env) (cwd : key) (dir : string) (kh : key)
    (fileName : string) :
  home env = (dir, None) ->
  key_of cwd dir = Some kh ->
  real_name fileName = true ->
  key_of cwd (fst (WtfConfigDir env) ++ "/" ++ fileName)%string
  = Some (kh ++ [".config"; "wtf"; fileName]).
Proof.
  intros H K R. rewrite (WtfConfigDir_found env H). cbn [fst].
  change ("/" ++ fileName)%string with (String "/" fileName).
  rewrite (key_of_below cwd _ fileName (WtfConfigDirV2_place env cwd H K)).
  destruct (real_name_inv _ R) as (NS & _).
  rewrite (elements_name _ NS), (walk_real _ _ _ R). simpl.
  rewrite rev_involutive. now rewrite <- app_assoc.
Qed.

(* ================================================================== *)
(** * Calls when the system injects no failure *)

Lemma with_faults_nil (w : World) :
  faults w = [] -> with_faults w (tl (faults w)) = w.
Proof. destruct w; simpl; intros ->; reflexivity. Qed.

Lemma modify_quiet (op name : string) (f : World -> key -> Errno + node)
    (w : World) (k : key) :
  key_of (cwd w) name = Some k ->
  faults w = [] ->
  modify op name f w =
  match f w k with
  | inl e => (inl (Some (PathError op name e)), w)
  | inr r => (inl None, with_root w r)
  end.
Proof.
  intros K F. rewrite modify_unfold, K. cbv zeta.
  rewrite (with_faults_nil w F), F. reflexivity.
Qed.

(** Nothing can be put below a place that cannot be found. *)
Lemma put_no_parent (k : key) : forall (t new : node) (e : Errno) (n : string)
    (r : key),
  find t k = inl e -> put t (k ++ n :: r) new = inl e.
Proof.
  induction k as [|a k IH]; intros t new e n r F; simpl in *; [discriminate|].
  destruct t as [m d|m es]; [exact F|].
  destruct (lookup_entry a es) as [c|].
  - now rewrite (IH c new e n r F).
  - destruct (k ++ n :: r) eqn:E; [|exact F].
    destruct k; discriminate.
Qed.

(* ================================================================== *)
(** * CreateFile *)

Lemma CreateFile_found (env : Env) (fileName configDir : string) (w : World)
    (n : node) :
  WtfConfigDir env = (configDir, None) ->
  node_at w (configDir ++ "/" ++ fileName)%string = inr n ->
  CreateFile env fileName w
  = (inl ((configDir ++ "/" ++ fileName)%string, None), w).
Proof.
  intros HD N. unfold CreateFile. rewrite HD. cbn [negb is_nil]. cbv beta.
  unfold bind at 1. now rewrite (os_Stat_found _ _ N).
Qed.

(** What a call of [CreateFile] that reports no error has found or done. *)
Lemma CreateFile_succeeded (env : Env) (fileName : string) (w w1 : World)
    (path : string) :
  CreateFile env fileName w = (inl (path, None), w1) ->
  path = (fst (WtfConfigDir env) ++ "/" ++ fileName)%string /\
  snd (WtfConfigDir env) = None /\
  ((exists n, node_at w path = inr n /\ w1 = w) \/
   (exists k r,
       key_of (cwd w) path = Some k /\
       find (root w) k = inl ENOENT /\
       put (root w) k (File (N.ldiff 438 (umask w)) "") = inr r /\
       w1 = with_root (with_faults w (tl (faults w))) r)).
Proof.
  unfold CreateFile.
  destruct (WtfConfigDir env) as [configDir [e0|]]; cbn [negb is_nil fst snd];
    cbv beta; [discriminate|].
  set (filePath := (configDir ++ "/" ++ fileName)%string).
  unfold bind at 1.
  destruct (node_at w filePath) as [e1|n] eqn:N.
  - rewrite (os_Stat_missing _ _ N). cbn [negb is_nil].
    cbv beta. destruct (os_IsNotExist _); [|discriminate].
    unfold bind at 1. destruct (os_Create filePath w) as [[[e2|]|ab] w2] eqn:C;
      cbn [negb is_nil]; try discriminate.
    intros H. inversion H. subst w2 path.
    unfold os_Create in C. rewrite modify_unfold in C.
    destruct (key_of (cwd w) filePath) as [kq|] eqn:KQ; [|discriminate].
    cbv zeta in C. destruct (hd None (faults w)); [discriminate|].
    destruct (create_trunc 438 "" _ kq) as [e3|r] eqn:CT; [discriminate|].
    inversion C. subst w1.
    unfold create_trunc in CT. cbn [root with_faults umask] in CT.
    unfold node_at in N. rewrite KQ in N. rewrite N in CT.
    destruct e1; try discriminate.
    split; [reflexivity|]. split; [reflexivity|]. right.
    exists kq, r. auto.
  - rewrite (os_Stat_found _ _ N). intros H. inversion H. subst.
    split; [reflexivity|]. split; [reflexivity|]. left. eauto.
Qed.

(** What a successful [CreateFile] leaves at the path it returns. *)
Lemma CreateFile_succeeded_node (env : Env) (fileName : string) (w w1 : World)
    (path : string) :
  CreateFile env fileName w = (inl (path, None), w1) ->
  exists n, node_at w1 path = inr n /\
            (w1 = w \/ n = File (N.ldiff 438 (umask w)) "").
Proof.
  intros H. destruct (CreateFile_succeeded _ _ _ H)
    as (_ & _ & [(n & N & ->)|(k & r & K & F & P & ->)]).
  - eauto.
  - eexists. split; [|right; reflexivity].
    unfold node_at. cbn [cwd root with_root with_faults]. rewrite K.
    eapply find_put_same; eauto.
Qed.

(** X4: when [CreateFile] reports an error, the path it returns is empty,
    and the file tree and the standard output are as they were. *)
Theorem CreateFile_error_leaves_tree (env : Env) (fileName : string)
    (w w1 : World) (path : string) (e : error) :
  CreateFile env fileName w = (inl (path, Some e), w1) ->
  path = "" /\ root w1 = root w /\ stdout w1 = stdout w.
Proof.
  unfold CreateFile.
  destruct (WtfConfigDir env) as [configDir [e0|]]; cbn [negb is_nil]; cbv beta.
  - intros H. inversion H. auto.
  - set (filePath := (configDir ++ "/" ++ fileName)%string).
    unfold bind at 1.
    destruct (node_at w filePath) as [e1|n] eqn:N.
    + rewrite (os_Stat_missing _ _ N). cbn [negb is_nil]. cbv beta.
      destruct (os_IsNotExist _).
      * unfold bind, os_Create.
        destruct (modify_returns "open" filePath (create_trunc 438 "") w)
          as (res & w' & E & _ & So & Keep).
        rewrite E. destruct res as [e2|]; cbn [negb is_nil].
        -- intros H. inversion H. subst. split; [reflexivity|].
           split; [apply Keep; discriminate|exact So].
        -- discriminate.
      * intros H. inversion H. auto.
    + rewrite (os_Stat_found _ _ N). discriminate.
Qed.

Lemma CreateFile_error_leaves_tree_witness :
  CreateFile env_u "config.yml" (w_fresh [Some EACCES])
  = (inl ("", Some (PathError "open" "/home/u/.config/wtf/config.yml" EACCES)),
     w_fresh []) /\
  ("" = "" /\ root (w_fresh []) = root (w_fresh [Some EACCES]) /\
   stdout (w_fresh []) = stdout (w_fresh [Some EACCES])).
Proof.
  split; [reflexivity|].
  apply (@CreateFile_error_leaves_tree env_u "config.yml"
           (w_fresh [Some EACCES]) (w_fresh []) ""
           (PathError "open" "/home/u/.config/wtf/config.yml" EACCES)).
  reflexivity.
Defined.

(** X5: when [CreateFile] reports no error, the path it returns is the
    configuration directory, a slash and the file name; something is at
    that path; and a second call returns the same path without error and
    changes nothing. *)
Theorem CreateFile_success_idempotent (env : Env) (fileName : string)
    (w w1 : World) (path : string) :
  CreateFile env fileName w = (inl (path, None), w1) ->
  path = (fst (WtfConfigDir env) ++ "/" ++ fileName)%string /\
  (exists n, node_at w1 path = inr n) /\
  CreateFile env fileName w1 = (inl (path, None), w1).
Proof.
  intros H. destruct (CreateFile_succeeded _ _ _ H) as (P & S & _).
  destruct (CreateFile_succeeded_node _ _ _ H) as (n & N & _).
  split; [exact P|]. split; [eauto|]. subst path.
  apply (@CreateFile_found env fileName _ w1 n); [|exact N].
  destruct (WtfConfigDir env); simpl in *; congruence.
Qed.

Lemma CreateFile_success_idempotent_witness :
  "/home/u/.config/wtf/config.yml"
  = (fst (WtfConfigDir env_u) ++ "/" ++ "config.yml")%string /\
  (exists n, node_at (w_config "a: 1" [])
               "/home/u/.config/wtf/config.yml" = inr n) /\
  CreateFile env_u "config.yml" (w_config "a: 1" [])
  = (inl ("/home/u/.config/wtf/config.yml", None), w_config "a: 1" []).
Proof.
  apply (@CreateFile_success_idempotent env_u "config.yml"
           (w_config "a: 1" []) (w_config "a: 1" [])
           "/home/u/.config/wtf/config.yml").
  reflexivity.
Defined.

(** With the configuration directory there, no entry of that name in it
    and no failure injected, [CreateFile] puts an empty file. *)
Lemma CreateFile_creates_at (env : Env) (fileName : string) (w : World)
    (dir : string) (kh : key) (m : N) (es : list (string * node)) :
  home env = (dir, None) ->
  key_of (cwd w) dir = Some kh ->
  real_name fileName = true ->
  find (root w) (kh ++ [".config"; "wtf"]) = inr (Dir m es) ->
  lookup_entry fileName es = None ->
  faults w = [] ->
  exists r,
    put (root w) (kh ++ [".config"; "wtf"; fileName])
        (File (N.ldiff 438 (umask w)) "") = inr r /\
    CreateFile env fileName w
    = (inl ((fst (WtfConfigDir env) ++ "/" ++ fileName)%string, None),
       with_root w r).
Proof.
  intros H K R F L Q.
  pose proof (configFile_place env (cwd w) fileName H K R) as KF.
  assert (A : kh ++ [".config"; "wtf"; fileName]
              = (kh ++ [".config"; "wtf"]) ++ [fileName])
    by now rewrite <- app_assoc.
  assert (NF : find (root w) (kh ++ [".config"; "wtf"; fileName]) = inl ENOENT).
  { rewrite A, find_app, F. simpl. now rewrite L. }
  destruct (@put_child (kh ++ [".config"; "wtf"]) (root w) m es fileName
              (File (N.ldiff 438 (umask w)) "") F L) as [r P].
  rewrite <- A in P. exists r. split; [exact P|].
  unfold CreateFile. rewrite (WtfConfigDir_found env H) in *.
  cbn [negb is_nil fst] in *. cbv beta.
  set (filePath := (fst (expandHomeDir env WtfConfigDirV2) ++ "/" ++ fileName)%string)
    in *.
  assert (N : node_at w filePath = inl ENOENT)
    by (unfold node_at; now rewrite KF).
  unfold bind at 1. rewrite (os_Stat_missing _ _ N). cbn [negb is_nil].
  cbv beta. cbn [os_IsNotExist]. unfold bind, os_Create.
  rewrite (modify_quiet "open" filePath _ w KF Q).
  unfold create_trunc. now rewrite NF, P.
Qed.

(** X6: when the configuration directory is a directory that has no entry
    of the given name, and the system injects no failure, [CreateFile]
    returns the path of the file without error; an empty regular file with
    mode 0666 less the umask is then at that place, every place that is
    neither above nor below it is as it was, and nothing is printed. *)
Theorem CreateFile_creates (env : Env) (fileName : string) (w : World)
    (dir : string) (kh : key) (m : N) (es : list (string * node)) :
  home env = (dir, None) ->
  key_of (cwd w) dir = Some kh ->
  real_name fileName = true ->
  find (root w) (kh ++ [".config"; "wtf"]) = inr (Dir m es) ->
  lookup_entry fileName es = None ->
  faults w = [] ->
  exists w1,
    CreateFile env fileName w
    = (inl ((fst (WtfConfigDir env) ++ "/" ++ fileName)%string, None), w1) /\
    find (root w1) (kh ++ [".config"; "wtf"; fileName])
    = inr (File (N.ldiff 438 (umask w)) "") /\
    (forall k, prefixb (kh ++ [".config"; "wtf"; fileName]) k = false ->
               prefixb k (kh ++ [".config"; "wtf"; fileName]) = false ->
               find (root w1) k = find (root w) k) /\
    stdout w1 = stdout w.
Proof.
  intros H K R F L Q.
  destruct (CreateFile_creates_at env fileName w H K R F L Q) as (r & P & E).
  exists (with_root w r). split; [exact E|]. cbn [root with_root stdout].
  split; [eapply find_put_same; eauto|]. split; [|reflexivity].
  intros k N1 N2. eapply find_put_apart; eauto.
Qed.

Lemma CreateFile_creates_witness :
  exists w1,
    CreateFile env_u "config.yml" w_both
    = (inl ((fst (WtfConfigDir env_u) ++ "/" ++ "config.yml")%string, None),
       w1) /\
    find (root w1) (["home"; "u"] ++ [".config"; "wtf"; "config.yml"])
    = inr (File (N.ldiff 438 (umask w_both)) "") /\
    (forall k,
        prefixb (["home"; "u"] ++ [".config"; "wtf"; "config.yml"]) k = false ->
        prefixb k (["home"; "u"] ++ [".config"; "wtf"; "config.yml"]) = false ->
        find (root w1) k = find (root w_both) k) /\
    stdout w1 = stdout w_both.
Proof.
  apply (@CreateFile_creates env_u "config.yml" w_both "/home/u"
           ["home"; "u"] 493%N []); reflexivity.
Defined.

(** X7: [CreateFile] does not create the configuration directory: when
    that directory cannot be found, the call reports an error with the
    empty path and leaves the file tree as it was, whatever failures the
    system injects; when it injects none, the error is the one of the
    missing directory and the world does not change at all. *)
Theorem CreateFile_needs_directory (env : Env) (fileName : string) (w : World)
    (dir : string) (kh : key) (e : Errno) :
  home env = (dir, None) ->
  key_of (cwd w) dir = Some kh ->
  real_name fileName = true ->
  find (root w) (kh ++ [".config"; "wtf"]) = inl e ->
  exists op e' w1,
    CreateFile env fileName w
    = (inl ("", Some (PathError op
                        (fst (WtfConfigDir env) ++ "/" ++ fileName)%string e')),
       w1) /\
    root w1 = root w /\
    (faults w = [] -> e' = e /\ w1 = w).
Proof.
  intros H K R F.
  pose proof (configFile_place env (cwd w) fileName H K R) as KF.
  assert (A : kh ++ [".config"; "wtf"; fileName]
              = (kh ++ [".config"; "wtf"]) ++ [fileName])
    by now rewrite <- app_assoc.
  assert (NF : find (root w) (kh ++ [".config"; "wtf"; fileName]) = inl e)
    by now rewrite A, find_app, F.
  unfold CreateFile. rewrite (WtfConfigDir_found env H) in *.
  cbn [negb is_nil fst] in *. cbv beta.
  set (filePath := (fst (expandHomeDir env WtfConfigDirV2) ++ "/" ++ fileName)%string)
    in *.
  assert (N : node_at w filePath = inl e) by (unfold node_at; now rewrite KF).
  unfold bind at 1. rewrite (os_Stat_missing _ _ N). cbn [negb is_nil].
  cbv beta. destruct (os_IsNotExist _) eqn:NE.
  - assert (e = ENOENT) by (destruct e; simpl in NE; congruence). subst e.
    unfold bind, os_Create. rewrite modify_unfold, KF. cbv zeta.
    destruct (faults w) as [|[ei|] fs] eqn:Q; cbn [hd tl].
    + unfold create_trunc. cbn [root with_faults umask].
      rewrite NF, A, (@put_no_parent _ _ _ _ _ _ F).
      exists "open", ENOENT. eexists. split; [reflexivity|].
      split; [reflexivity|]. intros _. split; [reflexivity|].
      clear - Q. destruct w. simpl in *. now subst.
    + exists "open", ei. eexists. split; [reflexivity|].
      split; [reflexivity|]. discriminate.
    + unfold create_trunc. cbn [root with_faults umask].
      rewrite NF, A, (@put_no_parent _ _ _ _ _ _ F).
      exists "open", ENOENT. eexists. split; [reflexivity|].
      split; [reflexivity|]. discriminate.
  - exists "stat", e, w. auto.
Qed.

Lemma CreateFile_needs_directory_witness :
  exists op e' w1,
    CreateFile env_u "config.yml" (w_fresh [Some EACCES])
    = (inl ("", Some (PathError op
                        (fst (WtfConfigDir env_u) ++ "/" ++ "config.yml")%string
                        e')),
       w1) /\
    root w1 = root (w_fresh [Some EACCES]) /\
    (faults (w_fresh [Some EACCES]) = [] ->
     e' = ENOENT /\ w1 = w_fresh [Some EACCES]).
Proof.
  apply (@CreateFile_needs_directory env_u "config.yml"
           (w_fresh [Some EACCES]) "/home/u" ["home"; "u"] ENOENT);
    reflexivity.
Defined.

(* ================================================================== *)
(** * Seeding the configuration file, continued *)

(** With the configuration directory there, no [config.yml] in it and no
    failure injected, the file is created and the default content written:
    the mode is the one [os.Create] gave. *)
Lemma createWtfConfigFile_seeds_at (defaultConfigFile : string) (env : Env)
    (w : World) (dir : string) (kh : key) (m : N) (es : list (string * node)) :
  home env = (dir, None) ->
  key_of (cwd w) dir = Some kh ->
  faults w = [] ->
  find (root w) (kh ++ [".config"; "wtf"]) = inr (Dir m es) ->
  lookup_entry "config.yml" es = None ->
  exists r,
    put (root w) (kh ++ [".config"; "wtf"; "config.yml"])
        (File (N.ldiff 438 (umask w)) defaultConfigFile) = inr r /\
    createWtfConfigFile defaultConfigFile env w = (inl tt, with_root w r).
Proof.
  intros H K Q F L.
  destruct (CreateFile_creates_at env "config.yml" w H K eq_refl F L Q)
    as (r1 & P1 & E).
  pose proof (configFile_place env (cwd w) "config.yml" H K eq_refl) as KF.
  set (kf := kh ++ [".config"; "wtf"; "config.yml"]) in *.
  destruct (@put_found kf r1 (File (N.ldiff 438 (umask w)) "")
              (File (N.ldiff 438 (umask w)) defaultConfigFile)
              (find_put_same _ _ _ P1)) as [r P2].
  exists r. split; [rewrite <- P2; symmetry; eapply put_put_same; exact P1|].
  unfold createWtfConfigFile, bind at 1. rewrite E. cbn [negb is_nil].
  cbv beta.
  set (filePath := (fst (WtfConfigDir env) ++ "/" ++ "config.yml")%string) in *.
  assert (N1 : node_at (with_root w r1) filePath
               = inr (File (N.ldiff 438 (umask w)) "")).
  { unfold node_at. cbn [cwd root with_root]. rewrite KF.
    eapply find_put_same; eauto. }
  unfold bind at 1. rewrite (os_Stat_found _ _ N1).
  cbn [info_of Size String.length Z.of_nat Z.eqb].
  unfold bind, ioutil_WriteFile.
  rewrite (modify_quiet "open" filePath _ (with_root w r1) KF Q).
  unfold create_trunc. cbn [root with_root umask].
  rewrite (find_put_same _ _ _ P1), P2. reflexivity.
Qed.

(** With an empty [config.yml] there and no failure injected, the default
    content is written and the file keeps its mode. *)
Lemma createWtfConfigFile_fills_at (defaultConfigFile : string) (env : Env)
    (w : World) (dir : string) (kh : key) (m : N) :
  home env = (dir, None) ->
  key_of (cwd w) dir = Some kh ->
  faults w = [] ->
  find (root w) (kh ++ [".config"; "wtf"; "config.yml"]) = inr (File m "") ->
  exists r,
    put (root w) (kh ++ [".config"; "wtf"; "config.yml"])
        (File m defaultConfigFile) = inr r /\
    createWtfConfigFile defaultConfigFile env w = (inl tt, with_root w r).
Proof.
  intros H K Q F.
  pose proof (configFile_place env (cwd w) "config.yml" H K eq_refl) as KF.
  set (kf := kh ++ [".config"; "wtf"; "config.yml"]) in *.
  destruct (@put_found kf (root w) (File m "") (File m defaultConfigFile) F)
    as [r P].
  exists r. split; [exact P|].
  set (filePath := (fst (WtfConfigDir env) ++ "/" ++ "config.yml")%string) in *.
  assert (N : node_at w filePath = inr (File m ""))
    by (unfold node_at; now rewrite KF).
  assert (HW : WtfConfigDir env = (fst (WtfConfigDir env), None))
    by (rewrite (WtfConfigDir_found env H); reflexivity).
  unfold createWtfConfigFile, bind at 1.
  rewrite (@CreateFile_found env "config.yml" (fst (WtfConfigDir env)) w _
             HW N).
  cbn [negb is_nil]. cbv beta. fold filePath.
  unfold bind at 1. rewrite (os_Stat_found _ _ N).
  cbn [info_of Size String.length Z.of_nat Z.eqb].
  unfold bind, ioutil_WriteFile.
  rewrite (modify_quiet "open" filePath _ w KF Q).
  unfold create_trunc. now rewrite F, P.
Qed.

(** X8: with the home directory known and no failure injected,
    [createWtfConfigFile] returns and leaves a regular file with the
    default content at [config.yml]: when the configuration directory had
    no such entry, the mode of the file is 0666 less the umask (the mode
    of [os.Create], not the 0644 given to [ioutil.WriteFile]); when an
    empty file was there, it keeps its mode. Every place that is neither
    above nor below the file is as it was, and nothing is printed. *)
Theorem createWtfConfigFile_seeds (defaultConfigFile : string) (env : Env)
    (w : World) (dir : string) (kh : key) :
  home env = (dir, None) ->
  key_of (cwd w) dir = Some kh ->
  faults w = [] ->
  (forall m es,
      find (root w) (kh ++ [".config"; "wtf"]) = inr (Dir m es) ->
      lookup_entry "config.yml" es = None ->
      exists w1,
        createWtfConfigFile defaultConfigFile env w = (inl tt, w1) /\
        find (root w1) (kh ++ [".config"; "wtf"; "config.yml"])
        = inr (File (N.ldiff 438 (umask w)) defaultConfigFile) /\
        (forall k,
            prefixb (kh ++ [".config"; "wtf"; "config.yml"]) k = false ->
            prefixb k (kh ++ [".config"; "wtf"; "config.yml"]) = false ->
            find (root w1) k = find (root w) k) /\
        stdout w1 = stdout w) /\
  (forall m,
      find (root w) (kh ++ [".config"; "wtf"; "config.yml"])
      = inr (File m "") ->
      exists w1,
        createWtfConfigFile defaultConfigFile env w = (inl tt, w1) /\
        find (root w1) (kh ++ [".config"; "wtf"; "config.yml"])
        = inr (File m defaultConfigFile) /\
        (forall k,
            prefixb (kh ++ [".config"; "wtf"; "config.yml"]) k = false ->
            prefixb k (kh ++ [".config"; "wtf"; "config.yml"]) = false ->
            find (root w1) k = find (root w) k) /\
        stdout w1 = stdout w).
Proof.
  intros H K Q. split.
  - intros m es F L.
    destruct (createWtfConfigFile_seeds_at defaultConfigFile env w H K Q F L)
      as (r & P & E).
    exists (with_root w r). split; [exact E|]. cbn [root with_root stdout].
    split; [eapply find_put_same; eauto|]. split; [|reflexivity].
    intros k N1 N2. eapply find_put_apart; eauto.
  - intros m F.
    destruct (createWtfConfigFile_fills_at defaultConfigFile env w H K Q F)
      as (r & P & E).
    exists (with_root w r). split; [exact E|]. cbn [root with_root stdout].
    split; [eapply find_put_same; eauto|]. split; [|reflexivity].
    intros k N1 N2. eapply find_put_apart; eauto.
Qed.

Lemma createWtfConfigFile_seeds_witness :
  (exists w1,
      createWtfConfigFile "wtf:" env_u w_both = (inl tt, w1) /\
      find (root w1) (["home"; "u"] ++ [".config"; "wtf"; "config.yml"])
      = inr (File (N.ldiff 438 (umask w_both)) "wtf:") /\
      (forall k,
          prefixb (["home"; "u"] ++ [".config"; "wtf"; "config.yml"]) k = false ->
          prefixb k (["home"; "u"] ++ [".config"; "wtf"; "config.yml"]) = false ->
          find (root w1) k = find (root w_both) k) /\
      stdout w1 = stdout w_both) /\
  (exists w1,
      createWtfConfigFile "wtf:" env_u (w_config "" []) = (inl tt, w1) /\
      find (root w1) (["home"; "u"] ++ [".config"; "wtf"; "config.yml"])
      = inr (File 420 "wtf:") /\
      (forall k,
          prefixb (["home"; "u"] ++ [".config"; "wtf"; "config.yml"]) k = false ->
          prefixb k (["home"; "u"] ++ [".config"; "wtf"; "config.yml"]) = false ->
          find (root w1) k = find (root (w_config "" [])) k) /\
      stdout w1 = stdout (w_config "" [])).
Proof.
  split.
  - apply (proj1 (@createWtfConfigFile_seeds "wtf:" env_u w_both "/home/u"
                    ["home"; "u"] eq_refl eq_refl eq_refl) 493%N []);
      reflexivity.
  - apply (proj2 (@createWtfConfigFile_seeds "wtf:" env_u (w_config "" [])
                    "/home/u" ["home"; "u"] eq_refl eq_refl eq_refl) 420%N).
    reflexivity.
Defined.

(** X9: [createWtfConfigFile] ends abnormally only by a panic: it never
    exits, and the [FileInfo] of its second [os.Stat], whose error it
    drops, is never nil, because a [CreateFile] that reported no error has
    left something at the path. Nothing is printed on the way to the
    panic. *)
Theorem createWtfConfigFile_aborts_by_panic (defaultConfigFile : string)
    (env : Env) (w w1 : World) (ab : Abort) :
  createWtfConfigFile defaultConfigFile env w = (inr ab, w1) ->
  (exists v, ab = Panicked v) /\ stdout w1 = stdout w.
Proof.
  destruct (CreateFile_returns env "config.yml" w)
    as (res & w0 & E & So & _ & Found).
  unfold createWtfConfigFile, bind at 1. rewrite E.
  destruct res as [filePath [e|]]; cbn [negb is_nil]; cbv beta.
  - intros X. inversion X. subst. eauto.
  - destruct (Found filePath eq_refl) as [n N].
    unfold bind at 1. rewrite (os_Stat_found _ _ N).
    destruct (Size (info_of w0 n) =? 0)%Z; [|discriminate].
    unfold bind, ioutil_WriteFile.
    destruct (modify_returns "open" filePath
                (create_trunc 420 defaultConfigFile) w0)
      as (res & w2 & E2 & _ & So2 & _).
    rewrite E2. destruct res; cbn [negb is_nil]; [|discriminate].
    intros X. inversion X. subst. split; [eauto|congruence].
Qed.

Lemma createWtfConfigFile_aborts_by_panic_witness :
  (exists v,
      Panicked (Some (PathError "open" "/home/u/.config/wtf/config.yml" ENOENT))
      = Panicked v) /\
  stdout (w_fresh []) = stdout (w_fresh []).
Proof.
  apply (@createWtfConfigFile_aborts_by_panic "wtf:" env_u (w_fresh [])
           (w_fresh [])
           (Panicked (Some (PathError "open" "/home/u/.config/wtf/config.yml"
                              ENOENT)))).
  reflexivity.
Defined.

(** What [createWtfConfigFile] leaves when it returns. *)
Lemma createWtfConfigFile_returned_at (defaultConfigFile : string) (env : Env)
    (w w1 : World) :
  createWtfConfigFile defaultConfigFile env w = (inl tt, w1) ->
  snd (WtfConfigDir env) = None /\
  stdout w1 = stdout w /\
  exists n,
    node_at w1 (fst (WtfConfigDir env) ++ "/config.yml")%string = inr n /\
    ((exists m, n = File m defaultConfigFile) \/
     (w1 = w /\ Size (info_of w n) <> 0%Z)).
Proof.
  destruct (CreateFile_returns env "config.yml" w)
    as (res & w0 & E & So & _ & _).
  unfold createWtfConfigFile, bind at 1. rewrite E.
  destruct res as [filePath [e|]]; cbn [negb is_nil]; cbv beta; [discriminate|].
  destruct (CreateFile_succeeded _ _ _ E) as (P & S & _).
  destruct (CreateFile_succeeded_node _ _ _ E) as (n & N & Hn).
  change ("/" ++ "config.yml")%string with "/config.yml" in P.
  subst filePath.
  set (filePath := (fst (WtfConfigDir env) ++ "/config.yml")%string) in *.
  unfold bind at 1. rewrite (os_Stat_found _ _ N).
  destruct (Size (info_of w0 n) =? 0)%Z eqn:Z0.
  - unfold bind, ioutil_WriteFile. rewrite modify_unfold.
    unfold node_at in N.
    destruct (key_of (cwd w0) filePath) as [k|] eqn:KQ; [|discriminate].
    cbv zeta. destruct (hd None (faults w0)); [discriminate|].
    unfold create_trunc. cbn [root with_faults umask]. rewrite N.
    destruct n as [m d0|m es0]; [|discriminate].
    destruct (put (root w0) k (File m defaultConfigFile)) as [e|r] eqn:Pt;
      [discriminate|].
    cbn [negb is_nil]. intros X. inversion X. subst w1.
    split; [exact S|]. split; [exact So|].
    exists (File m defaultConfigFile). split; [|left; eauto].
    unfold node_at. cbn [cwd root with_root with_faults]. rewrite KQ.
    eapply find_put_same; eauto.
  - intros X. inversion X. subst w1.
    split; [exact S|]. split; [exact So|].
    exists n. split; [exact N|]. right.
    destruct Hn as [->| ->]; [|discriminate].
    split; [reflexivity|]. now apply Z.eqb_neq.
Qed.

(** With something of non-zero size at [config.yml], the call returns at
    once. *)
Lemma createWtfConfigFile_settled (defaultConfigFile : string) (env : Env)
    (w : World) (n : node) :
  snd (WtfConfigDir env) = None ->
  node_at w (fst (WtfConfigDir env) ++ "/config.yml")%string = inr n ->
  Size (info_of w n) <> 0%Z ->
  createWtfConfigFile defaultConfigFile env w = (inl tt, w).
Proof.
  intros S N Z0.
  assert (HW : WtfConfigDir env = (fst (WtfConfigDir env), None))
    by (destruct (WtfConfigDir env); simpl in *; congruence).
  unfold createWtfConfigFile, bind at 1.
  rewrite (@CreateFile_found env "config.yml" _ w n HW N).
  cbn [negb is_nil]. cbv beta.
  change ("/" ++ "config.yml")%string with "/config.yml".
  unfold bind at 1. rewrite (os_Stat_found _ _ N).
  apply Z.eqb_neq in Z0. now rewrite Z0.
Qed.

(** A call that returned, with a default content that is not empty, has
    left something of non-zero size at [config.yml]. *)
Lemma createWtfConfigFile_settles (defaultConfigFile : string) (env : Env)
    (w w1 : World) :
  defaultConfigFile <> "" ->
  createWtfConfigFile defaultConfigFile env w = (inl tt, w1) ->
  snd (WtfConfigDir env) = None /\
  exists n,
    node_at w1 (fst (WtfConfigDir env) ++ "/config.yml")%string = inr n /\
    Size (info_of w1 n) <> 0%Z.
Proof.
  intros Hd E.
  destruct (createWtfConfigFile_returned_at _ _ _ E)
    as (S & _ & n & N & [[m ->]|[-> Z0]]).
  - split; [exact S|]. eexists. split; [exact N|].
    cbn [info_of Size]. destruct defaultConfigFile; [contradiction|].
    simpl String.length. lia.
  - split; [exact S|]. eauto.
Qed.

(** X10: when [createWtfConfigFile] returns, nothing was printed and
    something is at [config.yml]: either a regular file that holds exactly
    the default content, or what was there before, of non-zero size, in a
    world that did not change. With a default content that is not empty,
    a second call then returns and changes nothing. *)
Theorem createWtfConfigFile_returned (defaultConfigFile : string) (env : Env)
    (w w1 : World) :
  createWtfConfigFile defaultConfigFile env w = (inl tt, w1) ->
  (stdout w1 = stdout w /\
   exists n,
     node_at w1 (fst (WtfConfigDir env) ++ "/config.yml")%string = inr n /\
     ((exists m, n = File m defaultConfigFile) \/
      (w1 = w /\ Size (info_of w n) <> 0%Z))) /\
  (defaultConfigFile <> "" ->
   createWtfConfigFile defaultConfigFile env w1 = (inl tt, w1)).
Proof.
  intros E. split.
  - destruct (createWtfConfigFile_returned_at _ _ _ E) as (_ & So & R).
    auto.
  - intros Hd.
    destruct (@createWtfConfigFile_settles _ env w w1 Hd E) as (S & n & N & Z0).
    now apply (createWtfConfigFile_settled defaultConfigFile env w1 S N).
Qed.

Lemma createWtfConfigFile_returned_witness :
  (stdout (w_config "wtf:" []) = stdout (w_config "" []) /\
   exists n,
     node_at (w_config "wtf:" [])
       (fst (WtfConfigDir env_u) ++ "/config.yml")%string = inr n /\
     ((exists m, n = File m "wtf:") \/
      (w_config "wtf:" [] = w_config "" [] /\
       Size (info_of (w_config "" []) n) <> 0%Z))) /\
  ("wtf:" <> "" ->
   createWtfConfigFile "wtf:" env_u (w_config "wtf:" [])
   = (inl tt, w_config "wtf:" [])).
Proof.
  apply (@createWtfConfigFile_returned "wtf:" env_u (w_config "" [])
           (w_config "wtf:" [])).
  reflexivity.
Defined.

(* ================================================================== *)
(** * Provisioning the directories, continued *)

(** With the parent directory there, no entry of that name in it and no
    failure injected, the directory is made, empty. *)
Lemma ensureDir_creates_at (report : error -> M unit) (dirPath : string)
    (w : World) (q : key) (n : string) (m : N) (es : list (string * node)) :
  key_of (cwd w) dirPath = Some (q ++ [n]) ->
  find (root w) q = inr (Dir m es) ->
  lookup_entry n es = None ->
  faults w = [] ->
  exists r,
    put (root w) (q ++ [n]) (Dir (N.ldiff os_ModePerm (umask w)) []) = inr r /\
    ensureDir report dirPath w = (inl tt, with_root w r).
Proof.
  intros K F L Q.
  assert (NF : find (root w) (q ++ [n]) = inl ENOENT).
  { rewrite find_app, F. simpl. now rewrite L. }
  destruct (@put_child q (root w) m es n
              (Dir (N.ldiff os_ModePerm (umask w)) []) F L) as [r P].
  exists r. split; [exact P|].
  rewrite ensureDir_missing by (unfold node_at; now rewrite K).
  unfold os_Mkdir. rewrite (modify_quiet "mkdir" dirPath _ w K Q).
  now rewrite NF, P.
Qed.

(** How a run of directory-ensure ends: it returns, having printed nothing,
    in the world it found or in one where the directory, missing before,
    is there and empty; or the directory was missing, could not be made,
    and the run exits with status 1 after one report, the tree as it
    was. *)
Lemma ensureDir_outcome (report : error -> Output) (dirPath : string)
    (w : World) :
  (exists w1,
      ensureDir (fun e => print (report e)) dirPath w = (inl tt, w1) /\
      stdout w1 = stdout w /\
      (w1 = w \/
       (node_at w dirPath = inl ENOENT /\
        node_at w1 dirPath
        = inr (Dir (N.ldiff os_ModePerm (umask w)) [])))) \/
  (exists e w1,
      ensureDir (fun e => print (report e)) dirPath w = (inr (Exited 1), w1) /\
      node_at w dirPath = inl ENOENT /\
      root w1 = root w /\
      stdout w1 = stdout w ++ [report (PathError "mkdir" dirPath e)]).
Proof.
  destruct (node_at w dirPath) as [e|n] eqn:N.
  - assert (D : e = ENOENT \/ e <> ENOENT)
      by (destruct e; (now left) || (right; discriminate)).
    destruct D as [->|NE].
    + rewrite (ensureDir_missing _ _ _ N).
      unfold os_Mkdir. rewrite modify_unfold. unfold node_at in N.
      destruct (key_of (cwd w) dirPath) as [k|] eqn:K.
      * cbv zeta. destruct (hd None (faults w)) as [ei|].
        -- right. exists ei. eexists. split; [reflexivity|]. auto.
        -- cbn [root with_faults umask]. rewrite N.
           destruct (put (root w) k _) as [e|r] eqn:P.
           ++ right. exists e. eexists. split; [reflexivity|]. auto.
           ++ left. eexists. split; [reflexivity|]. split; [reflexivity|].
              right. split; [reflexivity|].
              unfold node_at. cbn [cwd root with_root with_faults].
              rewrite K. eapply find_put_same; eauto.
      * right. exists ENOENT. eexists. split; [reflexivity|]. auto.
    + left. exists w. split; [|auto]. unfold ensureDir, bind.
      rewrite (os_Stat_missing _ _ N). destruct e; try reflexivity.
      now contradiction NE.
  - left. exists w. split; [|auto]. now apply (ensureDir_present _ _ _ N).
Qed.

(** X11: with the home directory known and no failure injected,
    [createXdgConfigDir] makes [~/.config] when the home directory is a
    directory without that entry, and [createWtfConfigDir] makes
    [~/.config/wtf] when [~/.config] is a directory without that entry:
    the new directory is empty, with mode 0777 less the umask; every place
    that is neither above nor below it is as it was; nothing is
    printed. *)
Theorem provisioning_creates (env : Env) (w : World) (dir : string) (kh : key) :
  home env = (dir, None) ->
  key_of (cwd w) dir = Some kh ->
  faults w = [] ->
  (forall m es,
      find (root w) kh = inr (Dir m es) ->
      lookup_entry ".config" es = None ->
      exists w1,
        createXdgConfigDir env w = (inl tt, w1) /\
        find (root w1) (kh ++ [".config"])
        = inr (Dir (N.ldiff os_ModePerm (umask w)) []) /\
        (forall k, prefixb (kh ++ [".config"]) k = false ->
                   prefixb k (kh ++ [".config"]) = false ->
                   find (root w1) k = find (root w) k) /\
        stdout w1 = stdout w) /\
  (forall m es,
      find (root w) (kh ++ [".config"]) = inr (Dir m es) ->
      lookup_entry "wtf" es = None ->
      exists w1,
        createWtfConfigDir env w = (inl tt, w1) /\
        find (root w1) (kh ++ [".config"; "wtf"])
        = inr (Dir (N.ldiff os_ModePerm (umask w)) []) /\
        (forall k, prefixb (kh ++ [".config"; "wtf"]) k = false ->
                   prefixb k (kh ++ [".config"; "wtf"]) = false ->
                   find (root w1) k = find (root w) k) /\
        stdout w1 = stdout w).
Proof.
  intros H K Q. split.
  - intros m es F L. rewrite createXdgConfigDir_ensureDir.
    destruct (@ensureDir_creates_at displayXdgConfigDirCreateError _ w kh
                ".config" m es (XdgConfigDir_place env (cwd w) H K) F L Q)
      as (r & P & E).
    exists (with_root w r). split; [exact E|]. cbn [root with_root stdout].
    split; [eapply find_put_same; eauto|]. split; [|reflexivity].
    intros k N1 N2. eapply find_put_apart; eauto.
  - intros m es F L. rewrite createWtfConfigDir_ensureDir.
    assert (KD : key_of (cwd w) (fst (WtfConfigDir env))
                 = Some ((kh ++ [".config"]) ++ ["wtf"])).
    { rewrite (WtfConfigDir_found env H). cbn [fst].
      rewrite (WtfConfigDirV2_place env (cwd w) H K).
      now rewrite <- app_assoc. }
    destruct (@ensureDir_creates_at displayWtfConfigDirCreateError _ w
                (kh ++ [".config"]) "wtf" m es KD F L Q) as (r & P & E).
    rewrite <- app_assoc in P. cbn [app] in P.
    exists (with_root w r). split; [exact E|]. cbn [root with_root stdout].
    split; [eapply find_put_same; eauto|]. split; [|reflexivity].
    intros k N1 N2. eapply find_put_apart; eauto.
Qed.

Lemma provisioning_creates_witness :
  (exists w1,
      createXdgConfigDir env_u (w_fresh []) = (inl tt, w1) /\
      find (root w1) (["home"; "u"] ++ [".config"])
      = inr (Dir (N.ldiff os_ModePerm (umask (w_fresh []))) []) /\
      (forall k, prefixb (["home"; "u"] ++ [".config"]) k = false ->
                 prefixb k (["home"; "u"] ++ [".config"]) = false ->
                 find (root w1) k = find (root (w_fresh [])) k) /\
      stdout w1 = stdout (w_fresh [])) /\
  (exists w1,
      createWtfConfigDir env_u (w_legacy []) = (inl tt, w1) /\
      find (root w1) (["home"; "u"] ++ [".config"; "wtf"])
      = inr (Dir (N.ldiff os_ModePerm (umask (w_legacy []))) []) /\
      (forall k, prefixb (["home"; "u"] ++ [".config"; "wtf"]) k = false ->
                 prefixb k (["home"; "u"] ++ [".config"; "wtf"]) = false ->
                 find (root w1) k = find (root (w_legacy [])) k) /\
      stdout w1 = stdout (w_legacy [])).
Proof.
  split.
  - apply (proj1 (@provisioning_creates env_u (w_fresh []) "/home/u"
                    ["home"; "u"] eq_refl eq_refl eq_refl) 493%N []);
      reflexivity.
  - apply (proj2 (@provisioning_creates env_u (w_legacy []) "/home/u"
                    ["home"; "u"] eq_refl eq_refl eq_refl) 493%N []);
      reflexivity.
Defined.

(** X12: [createWtfConfigDir] does not make [~/.config]: when that
    directory is missing, the call reports the failure of [os.Mkdir] once
    and exits with status 1, the file tree as it was; when the system
    injects no failure the error reported is ENOENT. *)
Theorem createWtfConfigDir_needs_parent (env : Env) (w : World) (dir : string)
    (kh : key) :
  home env = (dir, None) ->
  key_of (cwd w) dir = Some kh ->
  find (root w) (kh ++ [".config"]) = inl ENOENT ->
  exists e w1,
    createWtfConfigDir env w = (inr (Exited 1), w1) /\
    root w1 = root w /\
    stdout w1
    = stdout w ++
      [WtfConfigDirCreateError (PathError "mkdir" (fst (WtfConfigDir env)) e)] /\
    (faults w = [] -> e = ENOENT).
Proof.
  intros H K F.
  assert (KD : key_of (cwd w) (fst (WtfConfigDir env))
               = Some ((kh ++ [".config"]) ++ ["wtf"])).
  { rewrite (WtfConfigDir_found env H). cbn [fst].
    rewrite (WtfConfigDirV2_place env (cwd w) H K).
    now rewrite <- app_assoc. }
  assert (NF : find (root w) ((kh ++ [".config"]) ++ ["wtf"]) = inl ENOENT)
    by now rewrite find_app, F.
  rewrite createWtfConfigDir_ensureDir.
  rewrite ensureDir_missing by (unfold node_at; now rewrite KD).
  unfold os_Mkdir. rewrite modify_unfold, KD. cbv zeta.
  destruct (hd None (faults w)) as [ei|] eqn:Hd.
  - exists ei. eexists. split; [reflexivity|]. split; [reflexivity|].
    split; [reflexivity|]. intros Q. rewrite Q in Hd. discriminate.
  - cbn [root with_faults umask].
    rewrite NF, (@put_no_parent _ _ _ _ _ _ F).
    exists ENOENT. eexists. split; [reflexivity|]. auto.
Qed.

Lemma createWtfConfigDir_needs_parent_witness :
  exists e w1,
    createWtfConfigDir env_u (w_fresh []) = (inr (Exited 1), w1) /\
    root w1 = root (w_fresh []) /\
    stdout w1
    = stdout (w_fresh []) ++
      [WtfConfigDirCreateError
         (PathError "mkdir" (fst (WtfConfigDir env_u)) e)] /\
    (faults (w_fresh []) = [] -> e = ENOENT).
Proof.
  apply (@createWtfConfigDir_needs_parent env_u (w_fresh []) "/home/u"
           ["home"; "u"]); reflexivity.
Defined.

(** X13: every run of [createXdgConfigDir] and of [createWtfConfigDir] ends
    in one of two ways. It returns, having printed nothing, either in the
    world it found or in one where the directory, which [os.Stat] did not
    find, is there, empty, with mode 0777 less the umask. Or the directory
    was not found and could not be made: the run exits with status 1, the
    file tree as it was, after exactly one report, which carries the error
    of [os.Mkdir]. It never panics. *)
Theorem provisioning_outcome (env : Env) (w : World) :
  ((exists w1,
       createXdgConfigDir env w = (inl tt, w1) /\
       stdout w1 = stdout w /\
       (w1 = w \/
        (node_at w (fst (expandHomeDir env XdgConfigDir)) = inl ENOENT /\
         node_at w1 (fst (expandHomeDir env XdgConfigDir))
         = inr (Dir (N.ldiff os_ModePerm (umask w)) [])))) \/
   (exists e w1,
       createXdgConfigDir env w = (inr (Exited 1), w1) /\
       node_at w (fst (expandHomeDir env XdgConfigDir)) = inl ENOENT /\
       root w1 = root w /\
       stdout w1
       = stdout w ++
         [XdgConfigDirCreateError
            (PathError "mkdir" (fst (expandHomeDir env XdgConfigDir)) e)])) /\
  ((exists w1,
       createWtfConfigDir env w = (inl tt, w1) /\
       stdout w1 = stdout w /\
       (w1 = w \/
        (node_at w (fst (WtfConfigDir env)) = inl ENOENT /\
         node_at w1 (fst (WtfConfigDir env))
         = inr (Dir (N.ldiff os_ModePerm (umask w)) [])))) \/
   (exists e w1,
       createWtfConfigDir env w = (inr (Exited 1), w1) /\
       node_at w (fst (WtfConfigDir env)) = inl ENOENT /\
       root w1 = root w /\
       stdout w1
       = stdout w ++
         [WtfConfigDirCreateError
            (PathError "mkdir" (fst (WtfConfigDir env)) e)])).
Proof.
  split.
  - rewrite createXdgConfigDir_ensureDir.
    apply (ensureDir_outcome XdgConfigDirCreateError).
  - rewrite createWtfConfigDir_ensureDir.
    apply (ensureDir_outcome WtfConfigDirCreateError).
Qed.

(* ================================================================== *)
(** * Nothing to migrate *)

Lemma migrateOldConfig_absent (env : Env) (w : World) :
  node_at w (fst (expandHomeDir env WtfConfigDirV1)) = inl ENOENT ->
  migrateOldConfig env w = (inl tt, w).
Proof.
  unfold migrateOldConfig.
  destruct (expandHomeDir env WtfConfigDirV1) as [srcDir e1].
  destruct (expandHomeDir env WtfConfigDirV2) as [destDir e2].
  cbn [fst]. intros S. unfold bind at 1.
  now rewrite (os_Stat_missing _ _ S).
Qed.

Lemma migrateOldConfig_present (env : Env) (w : World) (n : node) :
  node_at w (fst (expandHomeDir env WtfConfigDirV2)) = inr n ->
  migrateOldConfig env w = (inl tt, w).
Proof.
  unfold migrateOldConfig.
  destruct (expandHomeDir env WtfConfigDirV1) as [srcDir e1].
  destruct (expandHomeDir env WtfConfigDirV2) as [destDir e2].
  cbn [fst]. intros D. unfold bind at 1.
  destruct (os_Stat srcDir w) as [[[fi err]|ab] w0] eqn:S.
  - assert (w0 = w) as ->.
    { unfold os_Stat in S. destruct (node_at w srcDir); now inversion S. }
    destruct (os_IsNotExist err); [reflexivity|].
    unfold bind at 1. now rewrite (os_Stat_found _ _ D).
  - unfold os_Stat in S. destruct (node_at w srcDir); discriminate.
Qed.

Lemma home_unknown (env : Env) (e : error) (path : string) :
  snd (home env) = Some e ->
  markedPath path = true ->
  expandHomeDir env path = ("", Some e).
Proof.
  intros H M. rewrite (expandHomeDir_marked env path M).
  destruct (home env) as [dir [e0|]]; simpl in H; congruence.
Qed.

(** X14: without a legacy directory there is nothing to migrate:
    [migrateOldConfig] returns in the world it found, whatever is at the
    current location and whatever failures the system would inject, when
    the home directory cannot be determined (the legacy path is then the
    empty path, which [os.Stat] does not find) and when nothing is at
    [~/.wtf]. *)
Theorem migrateOldConfig_without_legacy (env : Env) (w : World) :
  (forall e, snd (home env) = Some e ->
             migrateOldConfig env w = (inl tt, w)) /\
  (forall dir kh,
      home env = (dir, None) ->
      key_of (cwd w) dir = Some kh ->
      find (root w) (kh ++ [".wtf"]) = inl ENOENT ->
      migrateOldConfig env w = (inl tt, w)).
Proof.
  split.
  - intros e H. apply migrateOldConfig_absent.
    now rewrite (@home_unknown env e WtfConfigDirV1 H eq_refl).
  - intros dir kh H K F. apply migrateOldConfig_absent.
    unfold node_at. now rewrite (WtfConfigDirV1_place env (cwd w) H K).
Qed.

Lemma migrateOldConfig_without_legacy_witness :
  migrateOldConfig env_none w_both = (inl tt, w_both) /\
  migrateOldConfig env_u (w_fresh [Some EIO]) = (inl tt, w_fresh [Some EIO]).
Proof.
  split.
  - apply (proj1 (migrateOldConfig_without_legacy env_none w_both)
             (errorString "user: Current not implemented")).
    reflexivity.
  - apply (proj2 (migrateOldConfig_without_legacy env_u (w_fresh [Some EIO]))
             "/home/u" ["home"; "u"]); reflexivity.
Defined.

(* ================================================================== *)
(** * Initialize *)

(** X15: when the home directory cannot be determined, [Initialize]
    migrates nothing, asks [os.Mkdir] for the empty path, reports that
    failure (not the one of the home directory) and exits with status 1;
    the file tree is as it was. *)
Theorem Initialize_unknown_home (defaultConfigFile : string) (env : Env)
    (w : World) (e : error) :
  snd (home env) = Some e ->
  Initialize defaultConfigFile env w
  = (inr (Exited 1),
     with_stdout w
       (stdout w ++ [XdgConfigDirCreateError (PathError "mkdir" "" ENOENT)])).
Proof.
  intros H. unfold Initialize, bind at 1.
  rewrite migrateOldConfig_absent
    by now rewrite (@home_unknown env e WtfConfigDirV1 H eq_refl).
  unfold bind at 1. rewrite createXdgConfigDir_ensureDir.
  rewrite (@home_unknown env e XdgConfigDir H eq_refl). cbn [fst].
  change displayXdgConfigDirCreateError
    with (fun e0 => print (XdgConfigDirCreateError e0)).
  now rewrite ensureDir_empty.
Qed.

Lemma Initialize_unknown_home_witness :
  Initialize "wtf:" env_none w_tilde
  = (inr (Exited 1),
     with_stdout w_tilde
       (stdout w_tilde ++
        [XdgConfigDirCreateError (PathError "mkdir" "" ENOENT)])).
Proof.
  apply (@Initialize_unknown_home "wtf:" env_none w_tilde
           (errorString "user: Current not implemented")).
  reflexivity.
Defined.

(** A store that is set up: with something of non-zero size at
    [config.yml], no step of [Initialize] does anything. *)
Lemma Initialize_settled (defaultConfigFile : string) (env : Env) (w : World)
    (n : node) :
  snd (WtfConfigDir env) = None ->
  node_at w (fst (WtfConfigDir env) ++ "/config.yml")%string = inr n ->
  Size (info_of w n) <> 0%Z ->
  Initialize defaultConfigFile env w = (inl tt, w).
Proof.
  intros S N Z0.
  assert (HW : WtfConfigDir env = (fst (WtfConfigDir env), None))
    by (destruct (WtfConfigDir env); simpl in *; congruence).
  destruct (WtfConfigDir_known env HW) as [dir H].
  destruct (home_place env (cwd w) H) as [kh K].
  pose proof (configFile_place env (cwd w) "config.yml" H K eq_refl) as KF.
  change ("/" ++ "config.yml")%string with "/config.yml" in KF.
  assert (F : find (root w) ((kh ++ [".config"; "wtf"]) ++ ["config.yml"])
              = inr n).
  { unfold node_at in N. rewrite KF in N. now rewrite <- app_assoc. }
  destruct (find_below _ _ _ F) as [(md & esd & FD)|X]; [|discriminate].
  assert (FD' : find (root w) ((kh ++ [".config"]) ++ ["wtf"])
                = inr (Dir md esd)) by now rewrite <- app_assoc.
  destruct (find_below _ _ _ FD') as [(mx & esx & FX)|X]; [|discriminate].
  assert (ND : node_at w (fst (expandHomeDir env WtfConfigDirV2))
               = inr (Dir md esd)).
  { unfold node_at. now rewrite (WtfConfigDirV2_place env (cwd w) H K). }
  assert (NX : node_at w (fst (expandHomeDir env XdgConfigDir))
               = inr (Dir mx esx)).
  { unfold node_at. now rewrite (XdgConfigDir_place env (cwd w) H K). }
  unfold Initialize, bind at 1. rewrite (migrateOldConfig_present env w ND).
  unfold bind at 1. rewrite createXdgConfigDir_ensureDir.
  rewrite (ensureDir_present _ _ _ NX).
  unfold bind at 1. rewrite createWtfConfigDir_ensureDir.
  rewrite (WtfConfigDir_found env H) at 1. cbn [fst].
  rewrite (ensureDir_present _ _ _ ND).
  now apply (createWtfConfigFile_settled defaultConfigFile env w S N).
Qed.

(** X16: [Initialize] does nothing to a store that is set up, and a run
    that returned has set the store up. With something of non-zero size at
    [config.yml], the call returns in the world it found, whether or not a
    legacy directory exists and whatever failures the system would inject.
    With a default content that is not empty, after a call that returned a
    second call returns and changes nothing. *)
Theorem Initialize_idempotent (defaultConfigFile : string) (env : Env)
    (w : World) :
  (forall n,
      snd (WtfConfigDir env) = None ->
      node_at w (fst (WtfConfigDir env) ++ "/config.yml")%string = inr n ->
      Size (info_of w n) <> 0%Z ->
      Initialize defaultConfigFile env w = (inl tt, w)) /\
  (forall w1,
      defaultConfigFile <> "" ->
      Initialize defaultConfigFile env w = (inl tt, w1) ->
      Initialize defaultConfigFile env w1 = (inl tt, w1)).
Proof.
  split; [intros n; apply Initialize_settled|].
  intros w1 Hd I. unfold Initialize in I.
  unfold bind at 1 in I.
  destruct (migrateOldConfig env w) as [[[]|ab] wa]; [|discriminate].
  unfold bind at 1 in I.
  destruct (createXdgConfigDir env wa) as [[[]|ab] wb]; [|discriminate].
  unfold bind at 1 in I.
  destruct (createWtfConfigDir env wb) as [[[]|ab] wc]; [|discriminate].
  destruct (@createWtfConfigFile_settles _ env wc w1 Hd I) as (S & n & N & Z0).
  now apply (Initialize_settled defaultConfigFile env w1 S N).
Qed.

Lemma Initialize_idempotent_witness :
  Initialize "wtf:" env_u (w_config "a: 1" [Some EIO])
  = (inl tt, w_config "a: 1" [Some EIO]) /\
  Initialize "wtf:" env_u (snd (Initialize "wtf:" env_u (w_fresh [])))
  = (inl tt, snd (Initialize "wtf:" env_u (w_fresh []))).
Proof.
  split.
  - apply (proj1 (Initialize_idempotent "wtf:" env_u
                    (w_config "a: 1" [Some EIO])) (File 420 "a: 1")).
    + reflexivity.
    + reflexivity.
    + discriminate.
  - apply (proj2 (Initialize_idempotent "wtf:" env_u (w_fresh []))).
    + discriminate.
    + reflexivity.
Defined.

(** A first run: in a home directory with neither [.wtf] nor [.config],
    with no failure injected, [Initialize] puts [.config] with [wtf] in it
    and the seeded [config.yml] in that. *)
Lemma Initialize_fresh_at (defaultConfigFile : string) (env : Env) (w : World)
    (dir : string) (kh : key) (m : N) (es : list (string * node)) :
  home env = (dir, None) ->
  key_of (cwd w) dir = Some kh ->
  faults w = [] ->
  find (root w) kh = inr (Dir m es) ->
  lookup_entry ".wtf" es = None ->
  lookup_entry ".config" es = None ->
  exists r,
    put (root w) (kh ++ [".config"])
        (Dir (N.ldiff os_ModePerm (umask w))
           [("wtf", Dir (N.ldiff os_ModePerm (umask w))
               [("config.yml",
                 File (N.ldiff 438 (umask w)) defaultConfigFile)])])
    = inr r /\
    Initialize defaultConfigFile env w = (inl tt, with_root w r).
Proof.
  intros H K Q F L1 L2.
  set (dm := N.ldiff os_ModePerm (umask w)).
  set (fm := N.ldiff 438 (umask w)).
  (* nothing to migrate *)
  assert (E0 : migrateOldConfig env w = (inl tt, w)).
  { apply migrateOldConfig_absent. unfold node_at.
    rewrite (WtfConfigDirV1_place env (cwd w) H K), find_app, F.
    simpl. now rewrite L1. }
  (* ~/.config *)
  destruct (@ensureDir_creates_at displayXdgConfigDirCreateError _ w kh
              ".config" m es (XdgConfigDir_place env (cwd w) H K) F L2 Q)
    as (r1 & P1 & E1). fold dm in P1.
  rewrite <- createXdgConfigDir_ensureDir in E1.
  (* ~/.config/wtf *)
  assert (KD : key_of (cwd (with_root w r1)) (fst (WtfConfigDir env))
               = Some ((kh ++ [".config"]) ++ ["wtf"])).
  { rewrite (WtfConfigDir_found env H). cbn [fst cwd with_root].
    rewrite (WtfConfigDirV2_place env (cwd w) H K).
    now rewrite <- app_assoc. }
  destruct (@ensureDir_creates_at displayWtfConfigDirCreateError _
              (with_root w r1) (kh ++ [".config"]) "wtf" dm []
              KD (find_put_same _ _ _ P1) eq_refl Q)
    as (r2 & P2 & E2).
  rewrite <- createWtfConfigDir_ensureDir in E2.
  cbn [root with_root umask] in P2, E2. fold dm in P2.
  (* ~/.config/wtf/config.yml *)
  assert (F2 : find (root (with_root w r2)) (kh ++ [".config"; "wtf"])
               = inr (Dir dm [])).
  { cbn [root with_root]. rewrite <- app_assoc in P2.
    eapply find_put_same; eauto. }
  destruct (@createWtfConfigFile_seeds_at defaultConfigFile env
              (with_root w r2) dir kh dm [] H K Q F2 eq_refl)
    as (r3 & P3 & E3).
  cbn [root with_root umask] in P3, E3. fold fm in P3.
  exists r3. split.
  - assert (A : kh ++ [".config"; "wtf"; "config.yml"]
                = ((kh ++ [".config"]) ++ ["wtf"]) ++ ["config.yml"])
      by now rewrite <- !app_assoc.
    rewrite A in P3.
    rewrite (@put_put_child ((kh ++ [".config"]) ++ ["wtf"]) r1 r2 dm []
               "config.yml" (File fm defaultConfigFile) P2 eq_refl) in P3.
    cbn [set_entry] in P3.
    rewrite (@put_put_child (kh ++ [".config"]) (root w) r1 dm []
               "wtf" (Dir dm [("config.yml", File fm defaultConfigFile)])
               P1 eq_refl) in P3.
    exact P3.
  - unfold Initialize, bind at 1. rewrite E0.
    unfold bind at 1. rewrite E1.
    unfold bind at 1. rewrite E2. exact E3.
Qed.

(** X17: a first run. When the home directory is a directory with neither
    [.wtf] nor [.config] in it and the system injects no failure,
    [Initialize] returns without printing anything; [~/.config] is then a
    directory that holds exactly the directory [wtf], which holds exactly
    the file [config.yml] with the default content; the directories have
    mode 0777 less the umask and the file mode 0666 less the umask; every
    place that is neither above nor below [~/.config] is as it was. *)
Theorem Initialize_fresh (defaultConfigFile : string) (env : Env) (w : World)
    (dir : string) (kh : key) (m : N) (es : list (string * node)) :
  home env = (dir, None) ->
  key_of (cwd w) dir = Some kh ->
  faults w = [] ->
  find (root w) kh = inr (Dir m es) ->
  lookup_entry ".wtf" es = None ->
  lookup_entry ".config" es = None ->
  exists w1,
    Initialize defaultConfigFile env w = (inl tt, w1) /\
    find (root w1) (kh ++ [".config"])
    = inr (Dir (N.ldiff os_ModePerm (umask w))
             [("wtf", Dir (N.ldiff os_ModePerm (umask w))
                 [("config.yml",
                   File (N.ldiff 438 (umask w)) defaultConfigFile)])]) /\
    (forall k, prefixb (kh ++ [".config"]) k = false ->
               prefixb k (kh ++ [".config"]) = false ->
               find (root w1) k = find (root w) k) /\
    stdout w1 = stdout w.
Proof.
  intros H K Q F L1 L2.
  destruct (Initialize_fresh_at defaultConfigFile env w H K Q F L1 L2)
    as (r & P & E).
  exists (with_root w r). split; [exact E|]. cbn [root with_root stdout].
  split; [eapply find_put_same; eauto|]. split; [|reflexivity].
  intros k N1 N2. eapply find_put_apart; eauto.
Qed.

Lemma Initialize_fresh_witness :
  exists w1,
    Initialize "wtf:" env_u (w_fresh []) = (inl tt, w1) /\
    find (root w1) (["home"; "u"] ++ [".config"])
    = inr (Dir (N.ldiff os_ModePerm (umask (w_fresh [])))
             [("wtf", Dir (N.ldiff os_ModePerm (umask (w_fresh [])))
                 [("config.yml",
                   File (N.ldiff 438 (umask (w_fresh []))) "wtf:")])]) /\
    (forall k, prefixb (["home"; "u"] ++ [".config"]) k = false ->
               prefixb k (["home"; "u"] ++ [".config"]) = false ->
               find (root w1) k = find (root (w_fresh [])) k) /\
    stdout w1 = stdout (w_fresh []).
Proof.
  apply (@Initialize_fresh "wtf:" env_u (w_fresh []) "/home/u" ["home"; "u"]
           493%N []); reflexivity.
Defined.

(** X18: when [~/.config] is a regular file and there is no legacy
    directory, [createWtfConfigDir] returns without a report although the
    directory is not there ([os.Stat] fails with ENOTDIR, which is not a
    not-exist error), and [Initialize] ends in a panic with the error of
    the [os.Stat] of [config.yml], the world as it was found. *)
Theorem Initialize_config_is_file (defaultConfigFile : string) (env : Env)
    (w : World) (dir : string) (kh : key) (m : N) (d : string) :
  home env = (dir, None) ->
  key_of (cwd w) dir = Some kh ->
  find (root w) (kh ++ [".wtf"]) = inl ENOENT ->
  find (root w) (kh ++ [".config"]) = inr (File m d) ->
  createWtfConfigDir env w = (inl tt, w) /\
  Initialize defaultConfigFile env w
  = (inr (Panicked
            (Some (PathError "stat"
                     (fst (WtfConfigDir env) ++ "/config.yml")%string
                     ENOTDIR))),
     w).
Proof.
  intros H K FL FX.
  assert (E0 : migrateOldConfig env w = (inl tt, w)).
  { apply migrateOldConfig_absent. unfold node_at.
    now rewrite (WtfConfigDirV1_place env (cwd w) H K). }
  assert (E1 : createXdgConfigDir env w = (inl tt, w)).
  { rewrite createXdgConfigDir_ensureDir.
    apply (@ensureDir_present _ _ w (File m d)). unfold node_at.
    now rewrite (XdgConfigDir_place env (cwd w) H K). }
  assert (ND : node_at w (fst (WtfConfigDir env)) = inl ENOTDIR).
  { unfold node_at. rewrite (WtfConfigDir_found env H). cbn [fst].
    rewrite (WtfConfigDirV2_place env (cwd w) H K).
    change (kh ++ [".config"; "wtf"]) with (kh ++ [".config"] ++ ["wtf"]).
    now rewrite app_assoc, find_app, FX. }
  assert (E2 : createWtfConfigDir env w = (inl tt, w)).
  { rewrite createWtfConfigDir_ensureDir. unfold ensureDir, bind.
    now rewrite (os_Stat_missing _ _ ND). }
  assert (NF : node_at w (fst (WtfConfigDir env) ++ "/config.yml")%string
               = inl ENOTDIR).
  { unfold node_at.
    pose proof (configFile_place env (cwd w) "config.yml" H K eq_refl) as KF.
    change ("/" ++ "config.yml")%string with "/config.yml" in KF.
    rewrite KF.
    change (kh ++ [".config"; "wtf"; "config.yml"])
      with (kh ++ [".config"] ++ ["wtf"; "config.yml"]).
    now rewrite app_assoc, find_app, FX. }
  split; [exact E2|].
  unfold Initialize, bind at 1. rewrite E0.
  unfold bind at 1. rewrite E1.
  unfold bind at 1. rewrite E2.
  unfold createWtfConfigFile, bind at 1, CreateFile.
  rewrite (WtfConfigDir_found env H) in *. cbn [negb is_nil fst] in *.
  cbv beta. change ("/" ++ "config.yml")%string with "/config.yml".
  unfold bind at 1. now rewrite (os_Stat_missing _ _ NF).
Qed.

Lemma Initialize_config_is_file_witness :
  createWtfConfigDir env_u w_blocked_plain = (inl tt, w_blocked_plain) /\
  Initialize "wtf:" env_u w_blocked_plain
  = (inr (Panicked
            (Some (PathError "stat"
                     (fst (WtfConfigDir env_u) ++ "/config.yml")%string
                     ENOTDIR))),
     w_blocked_plain).
Proof.
  apply (@Initialize_config_is_file "wtf:" env_u w_blocked_plain "/home/u"
           ["home"; "u"] 420%N ""); reflexivity.
Defined.

(* ================================================================== *)
(** * Loading the configuration file *)

(** The run of [LoadWtfConfigFile], by what is at the resolved path. *)
Lemma LoadWtfConfigFile_unfold (Config : Type)
    (config_ParseYaml : string -> option Config * option error)
    (env : Env) (filePath : string) (isCustomConfig : bool)
    (w : World) (out : list LoadOutput) :
  LoadWtfConfigFile config_ParseYaml env filePath isCustomConfig (w, out) =
  let absPath := fst (expandHomeDir env filePath) in
  let failed (e : error) : (option Config + Abort) * (World * list LoadOutput) :=
    (inr (Exited 1),
     (w, out ++ [if isCustomConfig
                 then WtfCustomConfigFileLoadError e
                 else WtfConfigFileLoadError e])) in
  match node_at w absPath with
  | inl errno => failed (PathError "open" absPath errno)
  | inr (Dir _ _) => failed (PathError "read" absPath EISDIR)
  | inr (File _ d) =>
      match config_ParseYaml d with
      | (_, Some e) => failed e
      | (cfg, None) => (inl cfg, (w, out))
      end
  end.
Proof.
  unfold LoadWtfConfigFile.
  destruct (expandHomeDir env filePath) as [absPath e0]. cbn [fst].
  unfold bindL, liftM, config_ParseYamlFile, bind, ioutil_ReadFile.
  cbn [fst snd].
  destruct (node_at w absPath) as [errno|[m d|m es]].
  - cbn. now destruct isCustomConfig.
  - cbn [negb is_nil]. unfold ret.
    destruct (config_ParseYaml d) as [cfg [e|]]; [|reflexivity].
    now destruct isCustomConfig.
  - cbn. now destruct isCustomConfig.
Qed.



(** X20: when the path cannot be resolved (the marker is followed by
    something that is not a separator, or the home directory cannot be
    determined), the error of the resolution is dropped and the empty path
    is read: the diagnostic carries the open error of the empty path, and
    the run exits with status 1, the world as it was. *)
Theorem LoadWtfConfigFile_unresolved (Config : Type)
    (config_ParseYaml : string -> option Config * option error)
    (env : Env) (filePath : string) (isCustomConfig : bool)
    (w : World) (out : list LoadOutput) (e0 : error) :
  snd (expandHomeDir env filePath) = Some e0 ->
  LoadWtfConfigFile config_ParseYaml env filePath isCustomConfig (w, out)
  = (inr (Exited 1),
     (w, out ++ [if isCustomConfig
                 then WtfCustomConfigFileLoadError (PathError "open" "" ENOENT)
                 else WtfConfigFileLoadError (PathError "open" "" ENOENT)])).
Proof.
  intros H. pose proof (expandHomeDir_failure env filePath H) as P.
  rewrite LoadWtfConfigFile_unfold. cbv zeta. now rewrite P.
Qed.

Lemma LoadWtfConfigFile_unresolved_witness :
  LoadWtfConfigFile parse_document env_u "~user/config.yml" true
    (w_config "a: 1" [], [])
  = (inr (Exited 1),
     (w_config "a: 1" [],
      [] ++ [if true
             then WtfCustomConfigFileLoadError (PathError "open" "" ENOENT)
             else WtfConfigFileLoadError (PathError "open" "" ENOENT)])).
Proof.
  apply (@LoadWtfConfigFile_unresolved string parse_document env_u
           "~user/config.yml" true (w_config "a: 1" []) []
           (errors_New "cannot expand user-specific home dir")).
  reflexivity.
Defined.

(** X21: a first run, then a load. When the home directory is a directory
    with neither [.wtf] nor [.config] in it, the system injects no failure
    and the parser accepts the default content, [Initialize] returns and,
    in the world it leaves, [LoadWtfConfigFile] of [config.yml] in the
    current configuration directory returns the parsed default content,
    printing nothing and changing nothing. *)
Theorem Initialize_then_Load (Config : Type)
    (config_ParseYaml : string -> option Config * option error)
    (defaultConfigFile : string) (env : Env) (w : World)
    (dir : string) (kh : key) (m : N) (es : list (string * node))
    (cfg : option Config) :
  home env = (dir, None) ->
  key_of (cwd w) dir = Some kh ->
  faults w = [] ->
  find (root w) kh = inr (Dir m es) ->
  lookup_entry ".wtf" es = None ->
  lookup_entry ".config" es = None ->
  config_ParseYaml defaultConfigFile = (cfg, None) ->
  exists w1,
    Initialize defaultConfigFile env w = (inl tt, w1) /\
    forall isCustomConfig out,
      LoadWtfConfigFile config_ParseYaml env
        (WtfConfigDirV2 ++ "config.yml")%string isCustomConfig (w1, out)
      = (inl cfg, (w1, out)).
Proof.
  intros H K Q F L1 L2 P.
  destruct (Initialize_fresh_at defaultConfigFile env w H K Q F L1 L2)
    as (r & Pr & E).
  exists (with_root w r). split; [exact E|]. intros isCustomConfig out.
  assert (N : node_at (with_root w r)
                (fst (expandHomeDir env (WtfConfigDirV2 ++ "config.yml")%string))
              = inr (File (N.ldiff 438 (umask w)) defaultConfigFile)).
  { unfold node_at. cbn [cwd root with_root].
    change (WtfConfigDirV2 ++ "config.yml")%string
      with (String "~" (String "/" ".config/wtf/config.yml")).
    rewrite (expandHomeDir_place env (cwd w) ".config/wtf/config.yml" H K).
    assert (KK : rev (walk (rev kh) (elements ".config/wtf/config.yml"))
                 = (kh ++ [".config"]) ++ ["wtf"; "config.yml"]).
    { simpl. rewrite rev_involutive. now rewrite <- !app_assoc. }
    rewrite KK, find_app, (find_put_same _ _ _ Pr). reflexivity. }
  rewrite LoadWtfConfigFile_unfold. cbv zeta. now rewrite N, P.
Qed.

Lemma Initialize_then_Load_witness :
  exists w1,
    Initialize "wtf:" env_u (w_fresh []) = (inl tt, w1) /\
    forall isCustomConfig out,
      LoadWtfConfigFile parse_document env_u
        (WtfConfigDirV2 ++ "config.yml")%string isCustomConfig (w1, out)
      = (inl (Some "wtf:"), (w1, out)).
Proof.
  apply (@Initialize_then_Load string parse_document "wtf:" env_u (w_fresh [])
           "/home/u" ["home"; "u"] 493%N [] (Some "wtf:")); reflexivity.
Defined.

(* ================================================================== *)
(** * How the migration ends *)

Lemma Copy_returns (src dest : string) (w : World) :
  exists res w',
    Copy src dest w = (inl res, w') /\ stdout w' = stdout w.
Proof.
  unfold Copy. destruct (node_at w src) as [e|t]; [eauto|].
  destruct (key_of (cwd w) dest) as [k|]; [|eauto].
  destruct (copy_returns t k w) as (res & w' & E & _ & So). eauto.
Qed.

Lemma os_RemoveAll_returns (path : string) (w : World) :
  exists res w',
    os_RemoveAll path w = (inl res, w') /\ stdout w' = stdout w.
Proof.
  destruct path as [|c p]; [simpl; unfold ret; eauto|].
  unfold os_RemoveAll.
  match goal with |- context [modify ?op ?n ?f w] =>
    destruct (modify_returns op n f w) as (res & w' & E & _ & So & _) end.
  eauto.
Qed.

(** X22: every run of [migrateOldConfig] ends in one of two ways. It
    returns, having printed nothing or exactly one line, the error of the
    removal of the legacy directory. Or the copy failed: the run panics
    with the error of the copy, in the world the copy left, having printed
    nothing. The migrator never exits, and a failure of [os.Stat] or of
    the removal never stops it. *)
Theorem migrateOldConfig_outcome (env : Env) (w : World) :
  (exists w1,
      migrateOldConfig env w = (inl tt, w1) /\
      (stdout w1 = stdout w \/
       exists e w0 wr,
         os_RemoveAll (fst (expandHomeDir env WtfConfigDirV1)) w0
         = (inl (Some e), wr) /\
         w1 = with_stdout wr (stdout w ++ [Println e]))) \/
  (exists e w1,
      migrateOldConfig env w = (inr (Panicked (Some e)), w1) /\
      Copy (fst (expandHomeDir env WtfConfigDirV1))
           (fst (expandHomeDir env WtfConfigDirV2)) w = (inl (Some e), w1) /\
      stdout w1 = stdout w).
Proof.
  unfold migrateOldConfig.
  destruct (expandHomeDir env WtfConfigDirV1) as [srcDir e1].
  destruct (expandHomeDir env WtfConfigDirV2) as [destDir e2].
  cbn [fst].
  assert (St : forall name w0, exists r,
             os_Stat name w0 = (inl r, w0)).
  { intros name w0. unfold os_Stat. destruct (node_at w0 name); eauto. }
  destruct (St srcDir w) as [[fi1 err1] S1].
  destruct (St destDir w) as [[fi2 err2] S2].
  destruct (Copy_returns srcDir destDir w) as (res & wc & Ec & Oc).
  destruct (St destDir wc) as [[fi3 err3] S3].
  destruct (os_RemoveAll_returns srcDir wc) as (rr & wr & Er & Or).
  destruct (os_IsNotExist err1) eqn:N1.
  { left. exists w. split; [|auto].
    unfold bind at 1. rewrite S1. now rewrite N1. }
  destruct (is_nil err2) eqn:N2.
  { left. exists w. split; [|auto].
    unfold bind at 1. rewrite S1. rewrite N1.
    unfold bind at 1. rewrite S2. now rewrite N2. }
  destruct res as [e|].
  { right. exists e, wc. split; [|auto].
    unfold bind at 1. rewrite S1. rewrite N1.
    unfold bind at 1. rewrite S2. rewrite N2.
    unfold bind at 1. now rewrite Ec. }
  destruct (is_nil err3) eqn:N3.
  - destruct rr as [e|].
    + left. exists (with_stdout wr (stdout wr ++ [Println e])).
      split.
      * unfold bind at 1. rewrite S1. rewrite N1.
        unfold bind at 1. rewrite S2. rewrite N2.
        unfold bind at 1. rewrite Ec. cbn [negb is_nil].
        unfold bind at 1. rewrite S3. rewrite N3.
        unfold bind. now rewrite Er.
      * right. exists e, wc, wr. split; [exact Er|]. congruence.
    + left. exists wr. split; [|left; congruence].
      unfold bind at 1. rewrite S1. rewrite N1.
      unfold bind at 1. rewrite S2. rewrite N2.
      unfold bind at 1. rewrite Ec. cbn [negb is_nil].
      unfold bind at 1. rewrite S3. rewrite N3.
      unfold bind. now rewrite Er.
  - left. exists wc. split; [|left; congruence].
    unfold bind at 1. rewrite S1. rewrite N1.
    unfold bind at 1. rewrite S2. rewrite N2.
    unfold bind at 1. rewrite Ec. cbn [negb is_nil].
    unfold bind at 1. rewrite S3. now rewrite N3.
Qed.

(* ================================================================== *)
(** * The configuration directory *)

(** X23: [WtfConfigDir] fails exactly when the home directory cannot be
    determined, with the error of the home directory and the empty path;
    otherwise it returns, without error, a path that is not empty, that is
    the resolution of the current configuration path, and that denotes the
    place [.config/wtf] under the place of the home directory. *)
Theorem WtfConfigDir_result (env : Env) :
  (forall e, snd (home env) = Some e -> WtfConfigDir env = ("", Some e)) /\
  (forall dir,
      home env = (dir, None) ->
      exists p,
        WtfConfigDir env = (p, None) /\
        p <> "" /\
        expandHomeDir env WtfConfigDirV2 = (p, None) /\
        forall cwd kh,
          key_of cwd dir = Some kh ->
          key_of cwd p = Some (kh ++ [".config"; "wtf"])).
Proof.
  split.
  - intros e H. unfold WtfConfigDir.
    now rewrite (@home_unknown env e WtfConfigDirV2 H eq_refl).
  - intros dir H. exists (fst (expandHomeDir env WtfConfigDirV2)).
    split; [now apply WtfConfigDir_found with dir|].
    rewrite (@expandHomeDir_marked_Clean env dir WtfConfigDirV2 H eq_refl).
    cbn [fst]. split; [apply Clean_not_empty|]. split; [reflexivity|].
    intros cwd kh K.
    pose proof (WtfConfigDirV2_place env cwd H K) as P.
    now rewrite (@expandHomeDir_marked_Clean env dir WtfConfigDirV2 H eq_refl)
      in P.
Qed.

Lemma WtfConfigDir_result_witness :
  WtfConfigDir env_none
  = ("", Some (errorString "user: Current not implemented")) /\
  exists p,
    WtfConfigDir env_u = (p, None) /\
    p <> "" /\
    expandHomeDir env_u WtfConfigDirV2 = (p, None) /\
    forall cwd kh,
      key_of cwd "/home/u" = Some kh ->
      key_of cwd p = Some (kh ++ [".config"; "wtf"]).
Proof.
  split.
  - apply (proj1 (WtfConfigDir_result env_none)). reflexivity.
  - apply (proj2 (WtfConfigDir_result env_u)). reflexivity.
Defined.
